(** * A shallow embedding of the fastssz code generator's type model (sszgen/main.go)

    The IR node [Value], the classifier [isFixed], the model builder
    ([encodeItem], [parseASTStructType], [parseASTFieldType]), the raw
    declaration scan ([decodeASTStruct], [generateIR]) and the selection of
    objects to print ([print]).  Go's [*Value] graph is modelled as an
    immutable tree for the builder, and as an explicit heap in [Module Heap]
    where the aliasing of [copy] matters. *)

From Stdlib Require Import ZArith Lia Bool String Ascii.
From stdpp Require Import base strings gmap list sorting pretty.

Open Scope string_scope.

(** ** Outcomes of Go code: a value, a returned [error], a panic, or
    (for the unbounded recursion of the builder) exhaustion of the fuel. *)
Inductive outcome (A : Type) : Type :=
| Ok (a : A)
| Err (msg : string)
| Panic (msg : string)
| NoFuel.
Arguments Ok {A} a.
Arguments Err {A} msg.
Arguments Panic {A} msg.
Arguments NoFuel {A}.

Definition obind {A B} (m : outcome A) (k : A -> outcome B) : outcome B :=
  match m with
  | Ok a => k a
  | Err s => Err s
  | Panic s => Panic s
  | NoFuel => NoFuel
  end.

Notation "'let*' x := m 'in' k" := (obind m (fun x => k))
  (at level 200, x name, m at level 100, k at level 200).
Notation "'let*' ' p := m 'in' k" := (obind m (fun pat => match pat with p => k end))
  (at level 200, p pattern, m at level 100, k at level 200).

(** A Go [for] loop over [l] whose body may return early with an error
    or panic: the state after each iteration feeds the next. *)
Definition foldM {A B} (f : A -> B -> outcome A) (l : list B) (a : A) : outcome A :=
  fold_left (fun acc x => let* y := acc in f y x) l (Ok a).

(** ** [type Type int] and its constants *)
Inductive Type_ :=
| TypeUndefined
| TypeUint
| TypeBool
| TypeBytes
| TypeBitList
| TypeVector
| TypeList
| TypeContainer
| TypeReference.

Definition Type_eqb (a b : Type_) : bool :=
  match a, b with
  | TypeUndefined, TypeUndefined | TypeUint, TypeUint | TypeBool, TypeBool
  | TypeBytes, TypeBytes | TypeBitList, TypeBitList | TypeVector, TypeVector
  | TypeList, TypeList | TypeContainer, TypeContainer
  | TypeReference, TypeReference => true
  | _, _ => false
  end.

(** [func (t Type) String() string] *)
Definition Type_String (t : Type_) : string :=
  match t with
  | TypeUndefined => "undefined"
  | TypeUint => "uint"
  | TypeBool => "bool"
  | TypeBytes => "bytes"
  | TypeBitList => "bitlist"
  | TypeVector => "vector"
  | TypeList => "list"
  | TypeContainer => "container"
  | TypeReference => "reference"
  end.

#[local] Set Warnings "-register-all".

(** ** [type Value struct]: uint64 fields as [Z]; the pointer [e] may be nil
    ([None]); the slice [o] holds the container's fields. *)
Inductive Value : Type := mkValue {
  name : string;
  obj : string;
  s : Z;
  t : Type_;
  o : list Value;
  e : option Value;
  c : bool;
  m : Z;
  ref : string;
  noPtr : bool;
  fixed : bool
}.

(** The Go zero value [Value{}] (also [&Value{}]). *)
Definition zeroValue : Value :=
  mkValue "" "" 0 TypeUndefined [] None false 0 "" false false.

Definition set_t (v : Value) (t' : Type_) : Value :=
  mkValue (name v) (obj v) (s v) t' (o v) (e v) (c v) (m v) (ref v) (noPtr v) (fixed v).
Definition set_s (v : Value) (s' : Z) : Value :=
  mkValue (name v) (obj v) s' (t v) (o v) (e v) (c v) (m v) (ref v) (noPtr v) (fixed v).
Definition set_m (v : Value) (m' : Z) : Value :=
  mkValue (name v) (obj v) (s v) (t v) (o v) (e v) (c v) m' (ref v) (noPtr v) (fixed v).
Definition set_c (v : Value) (c' : bool) : Value :=
  mkValue (name v) (obj v) (s v) (t v) (o v) (e v) c' (m v) (ref v) (noPtr v) (fixed v).
Definition set_e (v : Value) (e' : option Value) : Value :=
  mkValue (name v) (obj v) (s v) (t v) (o v) e' (c v) (m v) (ref v) (noPtr v) (fixed v).
Definition set_o (v : Value) (o' : list Value) : Value :=
  mkValue (name v) (obj v) (s v) (t v) o' (e v) (c v) (m v) (ref v) (noPtr v) (fixed v).
Definition set_name (v : Value) (n : string) : Value :=
  mkValue n (obj v) (s v) (t v) (o v) (e v) (c v) (m v) (ref v) (noPtr v) (fixed v).
Definition set_obj (v : Value) (n : string) : Value :=
  mkValue (name v) n (s v) (t v) (o v) (e v) (c v) (m v) (ref v) (noPtr v) (fixed v).
Definition set_ref (v : Value) (r : string) : Value :=
  mkValue (name v) (obj v) (s v) (t v) (o v) (e v) (c v) (m v) r (noPtr v) (fixed v).
Definition set_noPtr (v : Value) (b : bool) : Value :=
  mkValue (name v) (obj v) (s v) (t v) (o v) (e v) (c v) (m v) (ref v) b (fixed v).
Definition set_fixed (v : Value) (b : bool) : Value :=
  mkValue (name v) (obj v) (s v) (t v) (o v) (e v) (c v) (m v) (ref v) (noPtr v) b.

(** [func (v *Value) copy() *Value]: a field-wise copy with fresh copies of
    every field node and of the element node.  On the tree model it returns
    an equal tree; [Module Heap] models the freshness of the nodes. *)
Fixpoint copy (v : Value) : Value :=
  match v with
  | mkValue n ob s0 t0 o0 e0 c0 m0 r0 np fx =>
      mkValue n ob s0 t0 (map copy o0)
        (match e0 with Some x => Some (copy x) | None => None end)
        c0 m0 r0 np fx
  end.

(** [func (v *Value) isFixed() bool]; [None] is a panic (nil [v.e] for a
    vector, or the [default] case reached by [TypeUndefined]).  The
    [fmt.Printf] diagnostics have no effect on the result. *)
Fixpoint isFixed (v : Value) : option bool :=
  match v with
  | mkValue _ _ s0 t0 o0 e0 _ _ _ _ fx =>
      match t0 with
      | TypeUint | TypeBool => Some true
      | TypeList | TypeBitList => Some false
      | TypeVector =>
          match e0 with
          | None => None
          | Some el => isFixed el
          end
      | TypeBytes => if fx then Some true else Some false
      | TypeContainer =>
          (fix fields (fs : list Value) : option bool :=
             match fs with
             | [] => Some true
             | f :: fs' =>
                 match isFixed f with
                 | None => None
                 | Some false => Some false
                 | Some true => fields fs'
                 end
             end) o0
      | TypeReference => if negb (Z.eqb s0 0) then Some true else Some false
      | TypeUndefined => None
      end
  end.

(** A node all of whose reachable nodes have one of the eight defined kinds,
    and whose vector nodes carry a non-nil element. *)
Fixpoint wellFormed (v : Value) : bool :=
  match v with
  | mkValue _ _ _ t0 o0 e0 _ _ _ _ _ =>
      negb (Type_eqb t0 TypeUndefined)
      && (if Type_eqb t0 TypeVector then
            match e0 with Some _ => true | None => false end
          else true)
      && forallb wellFormed o0
      && match e0 with Some x => wellFormed x | None => true end
  end.

(** ** Induction over the nested tree of [Value] *)
Section ValueInd.
Variable P : Value -> Prop.
Hypothesis Hnode : forall n ob s0 t0 o0 e0 c0 m0 r0 np fx,
  Forall P o0 ->
  (forall x, e0 = Some x -> P x) ->
  P (mkValue n ob s0 t0 o0 e0 c0 m0 r0 np fx).

Fixpoint Value_ind' (v : Value) : P v :=
  match v with
  | mkValue n ob s0 t0 o0 e0 c0 m0 r0 np fx =>
      Hnode n ob s0 t0 o0 e0 c0 m0 r0 np fx
        ((fix go (l : list Value) : Forall P l :=
            match l with
            | [] => Forall_nil_2 P
            | x :: l' => Forall_cons_2 P x l' (Value_ind' x) (go l')
            end) o0)
        (match e0 as e1 return (forall x, e1 = Some x -> P x) with
         | Some y => fun x Hx =>
             eq_ind y P (Value_ind' y) x ltac:(injection Hx; auto)
         | None => fun x Hx => False_ind _ ltac:(discriminate Hx)
         end)
  end.
End ValueInd.

(** ** Go string helpers used by the tag parser (Go strings are byte strings) *)

Definition lchars (x : string) : list Ascii.ascii := list_ascii_of_string x.

(** [strings.Trim(str, cut)] for a one-byte cutset. *)
Fixpoint dropChar (ch : Ascii.ascii) (l : list Ascii.ascii) : list Ascii.ascii :=
  match l with
  | a :: r => if Ascii.eqb a ch then dropChar ch r else l
  | [] => []
  end.
Definition Trim (x : string) (ch : Ascii.ascii) : string :=
  string_of_list_ascii (rev (dropChar ch (rev (dropChar ch (lchars x))))).

(** [strings.Split(str, sep)] for a one-byte separator: [n] separators give
    [n+1] pieces, and [""] gives [[""]]. *)
Fixpoint Split (x : string) (ch : Ascii.ascii) : list string :=
  match x with
  | EmptyString => [EmptyString]
  | String a r =>
      let parts := Split r ch in
      if Ascii.eqb a ch then EmptyString :: parts
      else match parts with
           | p :: ps => String a p :: ps
           | [] => [String a EmptyString]
           end
  end.

Definition Contains (x : string) (ch : Ascii.ascii) : bool :=
  existsb (fun a => Ascii.eqb a ch) (lchars x).
Definition HasPrefix (x p : string) : bool := String.prefix p x.
Definition HasSuffix (x p : string) : bool :=
  String.prefix (string_of_list_ascii (rev (lchars p)))
                (string_of_list_ascii (rev (lchars x))).

Definition bq : Ascii.ascii := Ascii.ascii_of_nat 96.   (* ` *)
Definition dq : Ascii.ascii := Ascii.ascii_of_nat 34.   (* double quote *)
Definition dqs : string := String dq EmptyString.
Definition colon : Ascii.ascii := ":"%char.
Definition space : Ascii.ascii := " "%char.

(** [func getTags(str string, field string) (string, bool)] *)
Definition getTags (str field : string) : option string :=
  let str := Trim str bq in
  (fix go (tags : list string) : option string :=
     match tags with
     | [] => None
     | tag :: rest =>
         if negb (Contains tag colon) then None else
         match Split tag colon with
         | [tagName; vals] =>
             if negb (HasPrefix vals dqs) || negb (HasSuffix vals dqs) then None
             else if negb (String.eqb tagName field) then go rest
             else Some (Trim vals dq)
         | _ => None
         end
     end) (Split str space).

Definition digitVal (a : Ascii.ascii) : option Z :=
  let k := Z.of_nat (Ascii.nat_of_ascii a) in
  if ((48 <=? k) && (k <=? 57))%Z then Some (k - 48)%Z else None.

Fixpoint decimalDigits (l : list Ascii.ascii) (acc : Z) : option Z :=
  match l with
  | [] => Some acc
  | a :: r =>
      match digitVal a with
      | Some d => decimalDigits r (acc * 10 + d)%Z
      | None => None
      end
  end.

(** [strconv.Atoi]: an optional sign and at least one decimal digit, in the
    range of a 64-bit [int]. *)
Definition Atoi (x : string) : option Z :=
  let '(sign, l) :=
    match lchars x with
    | a :: r => if Ascii.eqb a "-"%char then ((-1)%Z, r)
                else if Ascii.eqb a "+"%char then (1%Z, r) else (1%Z, a :: r)
    | [] => (1%Z, [])
    end in
  match l with
  | [] => None
  | _ =>
      match decimalDigits l 0 with
      | Some v =>
          let n := (sign * v)%Z in
          if (((- 2 ^ 63) <=? n) && (n <=? 2 ^ 63 - 1))%Z then Some n else None
      | None => None
      end
  end.

(** [func getTagsInt(str string, field string) (uint64, bool)]: the
    [uint64(num)] conversion wraps modulo 2^64. *)
Definition getTagsInt (str field : string) : Z * bool :=
  match getTags str field with
  | None => (0%Z, false)
  | Some numStr =>
      match Atoi numStr with
      | None => (0%Z, false)
      | Some num => (num mod 2 ^ 64, true)%Z
      end
  end.

(** [strconv.ParseUint(s, 0, 64)], with its base prefixes and its check that
    underscores only separate digits. *)
Definition lowerVal (a : Ascii.ascii) : Z :=
  let k := Z.of_nat (Ascii.nat_of_ascii a) in
  if ((65 <=? k) && (k <=? 90))%Z then (k + 32)%Z else k.

Definition digitOfBase (a : Ascii.ascii) : option Z :=
  let k := Z.of_nat (Ascii.nat_of_ascii a) in
  let lk := lowerVal a in
  if ((48 <=? k) && (k <=? 57))%Z then Some (k - 48)%Z
  else if ((97 <=? lk) && (lk <=? 122))%Z then Some (lk - 97 + 10)%Z
  else None.

Definition isUnderscore (a : Ascii.ascii) : bool := Ascii.eqb a "_"%char.

Definition underscoreOK (l : list Ascii.ascii) : bool :=
  let l := match l with
           | a :: r => if Ascii.eqb a "-"%char || Ascii.eqb a "+"%char then r else l
           | [] => [] end in
  let '(saw, hex, rest) :=
    match l with
    | z :: b :: r =>
        if Ascii.eqb z "0"%char &&
           ((lowerVal b =? 98) || (lowerVal b =? 111) || (lowerVal b =? 120))%Z
        then ("0"%char, (lowerVal b =? 120)%Z, r)
        else ("^"%char, false, l)
    | _ => ("^"%char, false, l)
    end in
  (fix go (saw : Ascii.ascii) (l : list Ascii.ascii) : bool :=
     match l with
     | [] => negb (Ascii.eqb saw "_"%char)
     | a :: r =>
         let k := Z.of_nat (Ascii.nat_of_ascii a) in
         let lk := lowerVal a in
         if (((48 <=? k) && (k <=? 57)) || (hex && (97 <=? lk) && (lk <=? 102)))%Z
         then go "0"%char r
         else if isUnderscore a then
           if negb (Ascii.eqb saw "0"%char) then false else go "_"%char r
         else if Ascii.eqb saw "_"%char then false
         else go "!"%char r
     end) saw rest.

Definition ParseUint0 (x : string) : option Z :=
  let l0 := lchars x in
  match l0 with
  | [] => None
  | _ =>
      let '(base, l) :=
        match l0 with
        | z :: b :: r =>
            if Ascii.eqb z "0"%char then
              if (lowerVal b =? 98)%Z then (2%Z, r)
              else if (lowerVal b =? 111)%Z then (8%Z, r)
              else if (lowerVal b =? 120)%Z then (16%Z, r)
              else (8%Z, b :: r)
            else (10%Z, l0)
        | [z] => if Ascii.eqb z "0"%char then (8%Z, []) else (10%Z, l0)
        | [] => (10%Z, [])
        end in
      let base := match l0 with
                  | [z; _] => if Ascii.eqb z "0"%char then 8%Z else base
                  | _ => base end in
      let l := match l0 with
               | [z; b] => if Ascii.eqb z "0"%char then [b] else l
               | _ => l end in
      match (fix go (l : list Ascii.ascii) (n : Z) (us : bool) : option (Z * bool) :=
               match l with
               | [] => Some (n, us)
               | a :: r =>
                   if isUnderscore a then go r n true else
                   match digitOfBase a with
                   | Some d =>
                       if (base <=? d)%Z then None else
                       let n1 := (n * base + d)%Z in
                       if (2 ^ 64 <=? n1)%Z then None else go r n1 us
                   | None => None
                   end
               end) l 0%Z false with
      | Some (n, us) => if us && negb (underscoreOK l0) then None else Some n
      | None => None
      end
  end.

(** ** The go/ast nodes the generator inspects *)

(** [ast.Expr]: identifiers, [*X], [X.Sel], [[Len]Elt] (Len nil for a
    slice), basic literals, struct and interface types; every other node
    kind is [OtherExpr]. *)
Inductive Expr : Type :=
| Ident (Name : string)
| StarExpr (X : Expr)
| SelectorExpr (X : Expr) (Sel : string)
| ArrayType (Len : option Expr) (Elt : Expr)
| BasicLit (Value : string)
| StructType (Fields : list Field)
| InterfaceType
| OtherExpr (kind : string)
(** [ast.Field]: its names, its type and its tag literal (with backquotes). *)
with Field : Type :=
| mkField (Names : list string) (FType : Expr) (Tag : option string).

Definition Field_Names (f : Field) : list string := let 'mkField n _ _ := f in n.
Definition Field_Type (f : Field) : Expr := let 'mkField _ ty _ := f in ty.
Definition Field_Tag (f : Field) : option string := let 'mkField _ _ tg := f in tg.

(** [format.Node] on the type expressions of method signatures. *)
Fixpoint formatExpr (x : Expr) : string :=
  match x with
  | Ident n => n
  | StarExpr y => "*" ++ formatExpr y
  | SelectorExpr y sel => formatExpr y ++ "." ++ sel
  | ArrayType None elt => "[]" ++ formatExpr elt
  | ArrayType (Some l) elt => "[" ++ formatExpr l ++ "]" ++ formatExpr elt
  | BasicLit v => v
  | StructType _ => "struct{...}"
  | InterfaceType => "interface{}"
  | OtherExpr k => k
  end.

(** [ast.Spec] of a [GenDecl] and [ast.Decl] of a file.  [Results] is the
    [*ast.FieldList] of results, nil ([None]) for a function without any. *)
Inductive Spec : Type :=
| TypeSpec (Name : string) (SpecType : Expr)
| OtherSpec.

Inductive Decl : Type :=
| GenDecl (Specs : list Spec)
| FuncDecl (Recv : option (list Field)) (Name : string)
           (Params : list Field) (Results : option (list Field)).

(** [ast.ImportSpec]: the optional local name and the quoted path literal. *)
Record ImportSpec : Type := mkImportSpec {
  ImportName : option string;
  ImportPath : string
}.

(** [ast.File]: the package name, the declarations in order, the imports. *)
Record File : Type := mkFile {
  FileName : string;
  Decls : list Decl;
  Imports : list ImportSpec
}.

(** ** [type astStruct struct] and [type astResult struct] *)
Module Raw.
Record astStruct : Type := mkAstStruct {
  name : string;
  obj : option (list Field);
  packName : string;
  typ : option Expr;
  implFunc : bool;
  isRef : bool
}.
Definition set_implFunc (a : astStruct) (b : bool) : astStruct :=
  mkAstStruct (name a) (obj a) (packName a) (typ a) b (isRef a).
Definition set_isRef (a : astStruct) (b : bool) : astStruct :=
  mkAstStruct (name a) (obj a) (packName a) (typ a) (implFunc a) b.

Record astResult : Type := mkAstResult {
  objs : list astStruct;
  funcs : list string;
  resPackName : string
}.
End Raw.
Import Raw (astStruct, astResult).

(** [func isSpecificFunc(funcDecl, in, out []string) bool]; a nil result
    list is dereferenced ([types.List]) and panics ([None]). *)
Definition checkFieldList (types : option (list Field)) (args : list string) : option bool :=
  match types with
  | None => None
  | Some list0 =>
      if negb (Nat.eqb (length list0) (length args)) then Some false
      else Some (forallb (fun p => String.eqb (formatExpr (Field_Type (fst p))) (snd p))
                         (combine list0 args))
  end.

Definition isSpecificFunc (params : list Field) (results : option (list Field))
    (inp out : list string) : option bool :=
  match checkFieldList (Some params) inp with
  | None => None
  | Some false => Some false
  | Some true => checkFieldList results out
  end.

(** [func isFuncDecl(funcDecl *ast.FuncDecl) bool] *)
Definition isFuncDecl (fname : string) (params : list Field) (results : option (list Field)) : option bool :=
  if String.eqb fname "SizeSSZ" then isSpecificFunc params results [] ["int"]
  else if String.eqb fname "MarshalSSZTo" then isSpecificFunc params results ["[]byte"] ["[]byte"; "error"]
  else if String.eqb fname "UnmarshalSSZ" then isSpecificFunc params results ["[]byte"] ["error"]
  else if String.eqb fname "HashTreeRootWith" then isSpecificFunc params results ["*ssz.Hasher"] ["error"]
  else Some false.

(** [func decodeASTStruct(file *ast.File) *astResult]: the type
    declarations in order (interfaces skipped) and the receivers [*T] with
    four matching methods in this file.  [funcRefs] is a Go map, so the
    order of [funcs] is unspecified; here it is the map's key order. *)
(** The raw item of one [*ast.TypeSpec]: a struct, an alias (any other
    type but an interface), or nothing for an interface. *)
Definition declObjs (packName : string) (sp : Spec) : list astStruct :=
  match sp with
  | TypeSpec n (StructType fs) => [Raw.mkAstStruct n (Some fs) packName None false false]
  | TypeSpec n InterfaceType => []
  | TypeSpec n ty => [Raw.mkAstStruct n None packName (Some ty) false false]
  | OtherSpec => []
  end.

(** One iteration of the loop over [file.Decls]. *)
Definition declStep (packName : string) (st : list astStruct * gmap string nat)
    (dec : Decl) : outcome (list astStruct * gmap string nat) :=
  let '(objs, funcRefs) := st in
  match dec with
  | GenDecl specs => Ok (app objs (concat (map (declObjs packName) specs)), funcRefs)
  | FuncDecl None _ _ _ => Ok (objs, funcRefs)
  | FuncDecl (Some []) _ _ _ => Panic "index out of range"
  | FuncDecl (Some (f0 :: _)) fname params results =>
      match Field_Type f0 with
      | StarExpr (Ident objName) =>
          match isFuncDecl fname params results with
          | None => Panic "invalid memory address or nil pointer dereference"
          | Some true =>
              Ok (objs, <[objName := S (default 0 (funcRefs !! objName))]> funcRefs)
          | Some false => Ok (objs, funcRefs)
          end
      | _ => Ok (objs, funcRefs)
      end
  end.

Definition decodeASTStruct (file : File) : outcome astResult :=
  let packName := FileName file in
  let* '(objs, funcRefs) := foldM (declStep packName) (Decls file) ([], ∅) in
  Ok (Raw.mkAstResult objs
        (map fst (filter (fun kv => snd kv = 4) (map_to_list funcRefs)))
        packName).

(** [type astImport struct] and [func decodeASTImports] *)
Record astImport : Type := mkAstImport { alias : string; path : string }.

Definition trimQuotes (a : string) : string := Trim a dq.

Definition decodeASTImports (file : File) : list astImport :=
  flat_map (fun i =>
    match ImportName i with
    | Some "_" => []
    | Some n => [mkAstImport n (trimQuotes (ImportPath i))]
    | None => [mkAstImport "" (trimQuotes (ImportPath i))]
    end) (Imports file).

(** [getRawItemByName]: the first raw item with this name (package ignored). *)
Definition getRawItemByName (raw : list astStruct) (nm : string) : option astStruct :=
  find (fun it => String.eqb (Raw.name it) nm) raw.

(** [func isExportedField(str string) bool]: [str[0] <= 90]; indexing an
    empty name panics ([None]). *)
Definition isExportedField (str : string) : option bool :=
  match str with
  | String a _ => Some (Nat.leb (Ascii.nat_of_ascii a) 90)
  | EmptyString => None
  end.

(** ** Bound annotations of the array dimensions

    Modelled from the spec: [SSZDimension] and its accessors, the result of
    [extractSSZDimensions] (its file is not part of the sources).  The spec
    says each dimension's annotation declares the dimension either fixed
    (a Vector of a given length) or bounded-variable (a List with a given
    maximum), and a bit-list annotation marks a dimension as a bitlist. *)
Inductive DimKind := VectorDim (len : nat) | ListDim (max : nat).

Record SSZDimension : Type := mkSSZDimension {
  dimKind : DimKind;
  dimBitlist : bool
}.

Definition IsVector (d : SSZDimension) : bool :=
  match dimKind d with VectorDim _ => true | ListDim _ => false end.
Definition IsList (d : SSZDimension) : bool :=
  match dimKind d with VectorDim _ => false | ListDim _ => true end.
Definition IsBitlist (d : SSZDimension) : bool := dimBitlist d.
Definition VectorLen (d : SSZDimension) : nat :=
  match dimKind d with VectorDim n => n | ListDim _ => 0 end.
Definition ListLen (d : SSZDimension) : nat :=
  match dimKind d with VectorDim _ => 0 | ListDim n => n end.

Abbreviation registry := (gmap string Value).

(** ** The model builder: [encodeItem], [parseASTStructType] and
    [parseASTFieldType], over the read-only [e.raw] and threading the
    registry [e.objs].  The recursion through named types is unbounded in
    Go, so it runs on fuel.  Error texts leave out their numeric
    arguments. *)
(** [if tag, ok := getTags(tags, "ssz"); ok && tag == "-"]: a field tagged
    [ssz:"-"] is omitted. *)
Definition omittedTag (tags : string) : bool :=
  match getTags tags "ssz" with Some "-" => true | _ => false end.

Section Builder.
Variable extractSSZDimensions : string -> outcome (list SSZDimension).

Definition wrapErr {A} (pre : string) (r : outcome A) : outcome A :=
  match r with Err msg => Err (pre ++ msg) | _ => r end.

Definition basicValue (t0 : Type_) (s0 : Z) : Value :=
  set_s (set_t zeroValue t0) s0.

(** The literal length of a fixed-size array: [None] for a slice. *)
Definition arrayLen (nm : string) (len : option Expr) : outcome (option Z) :=
  match len with
  | None => Ok None
  | Some (BasicLit v) =>
      match ParseUint0 v with
      | Some a => Ok (Some a)
      | None => Err ("Could not parse array length for field " ++ nm)
      end
  | Some _ => Err ("failed to parse field " ++ nm ++
                   ". byte array definition not understood by go/ast")
  end.

(** The part of one loop iteration over [dims] that precedes the switch on
    the element type: set the kind and size from the dimension, then check
    a literal array length against it. *)
Definition dimStep (nm : string) (d : SSZDimension) (len : option Expr)
    (collection : Value) : outcome Value :=
  let col1 := if IsVector d
              then set_s (set_t collection TypeVector) (Z.of_nat (VectorLen d))
              else collection in
  let col2 := if IsList d
              then set_s (set_m (set_t col1 TypeList) (Z.of_nat (ListLen d)))
                         (Z.of_nat (ListLen d))
              else col1 in
  let* astSize := arrayLen nm len in
  let col3 := match astSize with Some _ => set_c col2 true | None => col2 end in
  match astSize with
  | None => Ok col3
  | Some a =>
      if negb (Type_eqb (t col3) TypeVector) then
        Err ("unexpected type for fixed size array, name=" ++ nm ++
             ", type=" ++ Type_String (t col3))
      else if negb (Z.eqb (s col3) a) then
        Err ("Unexpected mismatch between ssz-size and array fixed size, name=" ++ nm)
      else Ok col3
  end.

(** The [case *ast.Ident] of the element switch when the name is [byte]. *)
Definition byteStep (d : SSZDimension) (collection : Value) : Value :=
  let col4 := set_t collection TypeBytes in
  let col5 := if IsVector d then set_fixed col4 true else col4 in
  if IsBitlist d then set_t col5 TypeBitList else col5.

Definition isByteIdent (x : Expr) : bool :=
  match x with Ident n => String.eqb n "byte" | _ => false end.

(** The loop of [parseASTStructType] over [typ.Fields.List]: [pf] parses
    one field type ([parseASTFieldType]). *)
Fixpoint structFields
    (pf : string -> string -> Expr -> registry -> outcome (option Value * registry))
    (fs : list Field) (acc : list Value) (objs : registry)
    : outcome (list Value * registry) :=
  match fs with
  | [] => Ok (acc, objs)
  | f :: fs' =>
      match Field_Names f with
      | [fname] =>
          match isExportedField fname with
          | None => Panic "index out of range"
          | Some false => structFields pf fs' acc objs
          | Some true =>
              if HasPrefix fname "XXX_" then structFields pf fs' acc objs else
              let tags := match Field_Tag f with Some tg => tg | None => "" end in
              let* r := pf fname tags (Field_Type f) objs in
              match fst r with
              | None => structFields pf fs' acc (snd r)
              | Some elem => structFields pf fs' (app acc [set_name elem fname]) (snd r)
              end
          end
      | _ => structFields pf fs' acc objs
      end
  end.

(** The loop of the [*ast.ArrayType] case over [dims]; [collection] is
    the node the loop currently writes, [(len, elt)] the current
    [collectionExpr], [pf] parses an element type ([parseASTFieldType]).
    When the element is an array the loop continues on a fresh
    [collection.e]; otherwise it stays on the same node and array. *)
Fixpoint arrayLoop (pf : Expr -> registry -> outcome (option Value * registry))
    (nm : string) (dims : list SSZDimension) (len : option Expr) (elt : Expr)
    (collection : Value) (objs : registry) : outcome (Value * registry) :=
  match dims with
  | [] => Ok (collection, objs)
  | d :: ds =>
      let* col := dimStep nm d len collection in
      match elt with
      | ArrayType len' elt' =>
          (* [collection.e = &Value{}; collection = collection.e] *)
          let* r := arrayLoop pf nm ds len' elt' zeroValue objs in
          Ok (set_e col (Some (fst r)), snd r)
      | _ =>
          if isByteIdent elt then arrayLoop pf nm ds len elt (byteStep d col) objs
          else
            let* r := pf elt objs in
            arrayLoop pf nm ds len elt (set_e col (fst r)) (snd r)
      end
  end.

Fixpoint encodeItem (fuel : nat) (raw : list astStruct) (objs : registry)
    (nm tags : string) {struct fuel} : outcome (Value * registry) :=
  match fuel with
  | 0 => NoFuel
  | S n =>
      match objs !! nm with
      | Some v => Ok (copy v, objs)
      | None =>
          match getRawItemByName raw nm with
          | None => Err ("could not find struct with name '" ++ nm ++ "'")
          | Some rw =>
              let* r := wrapErr ("failed to encode " ++ nm ++ ": ")
                (if Raw.implFunc rw then
                   let size := fst (getTagsInt tags "ssz-size") in
                   Ok (set_noPtr (set_s (set_t zeroValue TypeReference) size)
                                 (match Raw.obj rw with None => true | Some _ => false end),
                       objs)
                 else match Raw.obj rw with
                      | Some fs => parseASTStructType n raw objs nm fs
                      | None =>
                          match Raw.typ rw with
                          | None => Panic "ast type '<nil>' not expected"
                          | Some ty =>
                              let* r0 := parseASTFieldType n raw objs nm tags ty in
                              match fst r0 with
                              | Some v0 => Ok (v0, snd r0)
                              | None => Panic "invalid memory address or nil pointer dereference"
                              end
                          end
                      end) in
              let v := set_obj (set_name (fst r) nm) nm in
              Ok (copy v, <[nm := v]> (snd r))
          end
      end
  end

with parseASTStructType (fuel : nat) (raw : list astStruct) (objs : registry)
    (nm : string) (fs : list Field) {struct fuel} : outcome (Value * registry) :=
  match fuel with
  | 0 => NoFuel
  | S n =>
      let* r := structFields
                  (fun fname tags ty objs => parseASTFieldType n raw objs fname tags ty)
                  fs [] objs in
      Ok (set_o (set_t (set_name zeroValue nm) TypeContainer) (fst r), snd r)
  end

with parseASTFieldType (fuel : nat) (raw : list astStruct) (objs : registry)
    (nm tags : string) (expr : Expr) {struct fuel} : outcome (option Value * registry) :=
  match fuel with
  | 0 => NoFuel
  | S n =>
      if omittedTag tags then Ok (None, objs) else
      match expr with
      | StarExpr x =>
          match x with
          | Ident elemName =>
              let* r := encodeItem n raw objs elemName tags in
              Ok (Some (fst r), snd r)
          | SelectorExpr (Ident refName) sel =>
              let* r := encodeItem n raw objs sel tags in
              Ok (Some (set_ref (fst r) refName), snd r)
          | SelectorExpr _ _ => Panic "interface conversion: ast.Expr is not *ast.Ident"
          | _ => Err "cannot handle the element expression"
          end
      | ArrayType len0 elt0 =>
          let* dims := extractSSZDimensions tags in
          let* r := arrayLoop (fun ty objs => parseASTFieldType n raw objs nm tags ty)
                      nm dims len0 elt0 zeroValue objs in
          Ok (Some (fst r), snd r)
      | Ident tn =>
          if String.eqb tn "uint64" then Ok (Some (basicValue TypeUint 8), objs)
          else if String.eqb tn "uint32" then Ok (Some (basicValue TypeUint 4), objs)
          else if String.eqb tn "uint16" then Ok (Some (basicValue TypeUint 2), objs)
          else if String.eqb tn "uint8" then Ok (Some (basicValue TypeUint 1), objs)
          else if String.eqb tn "bool" then Ok (Some (basicValue TypeBool 1), objs)
          else
            match encodeItem n raw objs tn tags with
            | Ok r => Ok (Some (fst r), snd r)
            | Err _ => Err ("type " ++ tn ++ " not found")
            | Panic msg => Panic msg
            | NoFuel => NoFuel
            end
      | SelectorExpr (Ident pkg) sel =>
          if String.eqb sel "Bitlist" then
            let '(maxSize, ok) := getTagsInt tags "ssz-max" in
            if negb ok then Err ("bitlist " ++ pkg ++ " does not have ssz-max tag")
            else Ok (Some (set_s (set_m (set_t zeroValue TypeBitList) maxSize) maxSize), objs)
          else if HasPrefix sel "Bitvector" then
            match extractSSZDimensions tags with
            | Err msg => Err ("failed to parse ssz-size tag for bitvector " ++ pkg ++ ", err=" ++ msg)
            | Panic msg => Panic msg
            | NoFuel => NoFuel
            | Ok dims =>
                match last dims with
                | None => Err ("did not find any ssz tags for the bitvector named " ++ pkg)
                | Some tailDim =>
                    if negb (IsVector tailDim) then
                      Err ("bitvector tag parse failed (no ssz-size for last dim) " ++ pkg)
                    else Ok (Some (set_s (set_fixed (set_t zeroValue TypeBytes) true)
                                         (Z.of_nat (VectorLen tailDim))), objs)
                end
            end
          else
            let* r := encodeItem n raw objs sel tags in
            Ok (Some (set_noPtr (set_ref (fst r) pkg) true), snd r)
      | SelectorExpr _ _ => Panic "interface conversion: ast.Expr is not *ast.Ident"
      | _ => Panic "ast type not expected"
      end
  end.
End Builder.

(** ** [func (e *env) generateIR() error] *)
Record env : Type := mkEnv {
  envRaw : list astStruct;
  envObjs : registry;
  envOrder : list (string * list string);
  envImports : list astImport
}.

Section GenerateIR.
Variable extractSSZDimensions : string -> outcome (list SSZDimension).

(** [checkObjByPackage]: the first raw item with this package and name. *)
Definition checkObjByPackage (raw : list astStruct) (pack nm : string) : option astStruct :=
  find (fun it => String.eqb (Raw.name it) nm && String.eqb (Raw.packName it) pack) raw.

(** [addStructs]: a name already registered in the same package is an error. *)
Definition addStructs (raw : list astStruct) (res : astResult) (isRef : bool)
    : outcome (list astStruct) :=
  foldM (fun raw i =>
    match checkObjByPackage raw (Raw.packName i) (Raw.name i) with
    | Some _ => Err ("two structs share the same name " ++ Raw.name i)
    | None => Ok (app raw [Raw.set_isRef i isRef])
    end) (Raw.objs res) raw.

(** [v.implFunc = true] on the item [checkObjByPackage] found. *)
Fixpoint markImplFunc (raw : list astStruct) (pack nm : string) : list astStruct :=
  match raw with
  | [] => []
  | it :: rest =>
      if String.eqb (Raw.name it) nm && String.eqb (Raw.packName it) pack
      then Raw.set_implFunc it true :: rest
      else it :: markImplFunc rest pack nm
  end.

(** [checkImplFunc] *)
Definition checkImplFunc (raw : list astStruct) (res : astResult) : outcome (list astStruct) :=
  foldM (fun raw nm =>
    match checkObjByPackage raw (Raw.resPackName res) nm with
    | None => Err ("cannot find " ++ nm ++ " struct")
    | Some _ => Ok (markImplFunc raw (Raw.resPackName res) nm)
    end) (Raw.funcs res) raw.

(** [addImports] *)
Definition addImports (imports : list astImport) (news : list astImport)
    : outcome (list astImport) :=
  fold_left (fun acc i =>
    let* imports := acc in
    match find (fun j => String.eqb (path j) (path i)) imports with
    | Some j =>
        if String.eqb (alias i) (alias j) then Ok imports
        else Err ("the same package is imported twice by different files of path "
                  ++ path j ++ " and " ++ path i ++ " with different aliases: "
                  ++ alias j ++ " and " ++ alias i)
    | None => Ok (app imports [i])
    end) news (Ok imports).

Definition contains (i : string) (j : list string) : bool :=
  existsb (String.eqb i) j.

(** The raw registry of [generateIR]: the source files' declarations, then
    the include files' ones, then the receivers implementing the four
    methods.  [files] and [include] are Go maps; the lists give the
    iteration order. *)
Definition buildRaw (files include : list (string * File))
    : outcome (list astStruct * list (string * list string) * list astResult) :=
  let* r1 := foldM (fun '(raw, order, results) nf =>
    let* res := decodeASTStruct (snd nf) in
    let* raw := addStructs raw res false in
    Ok (raw, app order [(fst nf, map Raw.name (Raw.objs res))], app results [res]))
    files ([], [], []) in
  let* r2 := foldM (fun '(raw, order, results) nf =>
    let* res := decodeASTStruct (snd nf) in
    let* raw := addStructs raw res true in
    Ok (raw, order, app results [res]))
    include r1 in
  let '(raw, order, results) := r2 in
  let* raw := foldM checkImplFunc results raw in
  Ok (raw, order, results).

Definition generateIR (fuel : nat) (files include : list (string * File))
    (targets : list string) : outcome env :=
  let* imports := fold_left (fun acc nf =>
                    let* imps := acc in addImports imps (decodeASTImports (snd nf)))
                    files (Ok []) in
  let* '(raw, order, _) := buildRaw files include in
  let* objs := fold_left (fun acc it =>
    let* objs := acc in
    let valid := match targets with [] => true | _ => contains (Raw.name it) targets end in
    if valid then
      if Raw.isRef it then Ok objs
      else let* r := encodeItem extractSSZDimensions fuel raw objs (Raw.name it) "" in
           Ok (snd r)
    else Ok objs) raw (Ok ∅) in
  Ok (mkEnv raw objs order imports).
End GenerateIR.

(** ** [func (e *env) print(order []string, experimental bool)]: which named
    types receive the four generated procedures (and the imports they
    need); the text rendering is not modelled.  [detectImports] reads
    [i.e.ref] of a list or vector field, which panics on a nil element. *)
Definition detectImports (v : Value) : option (list string) :=
  fold_left (fun acc i =>
    match acc with
    | None => None
    | Some refs =>
        let r := match t i with
                 | TypeReference => Some (if noPtr i then "" else ref i)
                 | TypeContainer => Some (ref i)
                 | TypeList | TypeVector =>
                     match e i with Some el => Some (ref el) | None => None end
                 | _ => Some (ref i)
                 end in
        match r with
        | None => None
        | Some r => if String.eqb r "" then Some refs else Some (app refs [r])
        end
    end) (o v) (Some []).

Definition appendWithoutRepeated (xs ys : list string) : list string :=
  fold_left (fun acc j => if existsb (String.eqb j) acc then acc else app acc [j]) ys xs.

(** [func isBasicType(v *Value) bool] *)
Definition isBasicType (v : Value) : bool :=
  Type_eqb (t v) TypeUint || Type_eqb (t v) TypeBool || Type_eqb (t v) TypeBytes.

(** One iteration of [print]'s loop over [order]. *)
Definition printStep (excludeTypeNames : gmap string bool) (objs : registry)
    (st : list (string * Value) * list string) (nm : string)
    : outcome (list (string * Value) * list string) :=
  let '(out, imports) := st in
  if default false (excludeTypeNames !! nm) then Ok (out, imports) else
  match objs !! nm with
  | None => Ok (out, imports)
  | Some ob =>
      match detectImports ob with
      | None => Panic "invalid memory address or nil pointer dereference"
      | Some refs =>
          let imports := appendWithoutRepeated imports refs in
          match isFixed ob with
          | None => Panic "is fixed not implemented"
          | Some fx =>
              if fx && isBasicType ob then Ok (out, imports)
              else Ok (app out [(nm, ob)], imports)
          end
      end
  end.

(** The objects printed: (name, IR) pairs in order, and the imports. *)
Definition print (excludeTypeNames : gmap string bool) (objs : registry)
    (order : list string) : outcome (list (string * Value) * list string) :=
  foldM (printStep excludeTypeNames objs) order ([], []).

(** ** Vocabulary of the statements *)

(** The name under which a struct field enters its container: a single
    name, exported ([isExportedField]), without the [XXX_] prefix and not
    omitted by [ssz:"-"]. *)
Definition keptField (f : Field) : option string :=
  match Field_Names f with
  | [n] =>
      match isExportedField n with
      | Some true =>
          if HasPrefix n "XXX_" then None
          else if omittedTag (match Field_Tag f with Some tg => tg | None => "" end)
          then None else Some n
      | _ => None
      end
  | _ => None
  end.

Fixpoint keptFields (fs : list Field) : list string :=
  match fs with
  | [] => []
  | f :: fs' => match keptField f with
                | Some n => n :: keptFields fs'
                | None => keptFields fs'
                end
  end.

(** The number of nested array levels of an array type whose innermost
    element is [byte]; [None] for any other type. *)
Fixpoint byteArrayRank (x : Expr) : option nat :=
  match x with
  | ArrayType _ elt =>
      if isByteIdent elt then Some 1 else option_map S (byteArrayRank elt)
  | _ => None
  end.

(** The node reached from [v] by following the element link [k] times. *)
Fixpoint descend (k : nat) (v : Value) : option Value :=
  match k with
  | 0 => Some v
  | S k' => match e v with Some x => descend k' x | None => None end
  end.

(** What [print] emits for the name [nm]: nothing when the name is
    excluded, absent from the registry, or a fixed-size basic alias;
    otherwise the name with its model. *)
Definition emitted (excludeTypeNames : gmap string bool) (objs : registry)
    (nm : string) : option (string * Value) :=
  if default false (excludeTypeNames !! nm) then None else
  match objs !! nm with
  | None => None
  | Some ob => if default false (isFixed ob) && isBasicType ob then None else Some (nm, ob)
  end.

(** Whether a declaration is a method on the receiver [*T] with one of the
    four signatures [isFuncDecl] recognises. *)
Definition implMethod (T : string) (dec : Decl) : bool :=
  match dec with
  | FuncDecl (Some (f0 :: _)) fname params results =>
      match Field_Type f0 with
      | StarExpr (Ident objName) =>
          String.eqb objName T &&
          match isFuncDecl fname params results with Some true => true | _ => false end
      | _ => false
      end
  | _ => false
  end.

(** The number of such methods a file declares, counted with repetitions. *)
Definition methodCount (f : File) (T : string) : nat :=
  length (filter (fun d => implMethod T d = true) (Decls f)).

(** The names of those methods, in declaration order. *)
Definition implMethodNames (f : File) (T : string) : list string :=
  flat_map (fun d => match d with
                     | FuncDecl _ fname _ _ => if implMethod T d then [fname] else []
                     | GenDecl _ => []
                     end) (Decls f).

(** The four method names [isFuncDecl] recognises. *)
Definition sszMethods : list string :=
  ["SizeSSZ"; "MarshalSSZTo"; "UnmarshalSSZ"; "HashTreeRootWith"].

(** The key [checkObjByPackage] looks raw items up by. *)
Definition rawKey (it : astStruct) : string * string := (Raw.name it, Raw.packName it).

(** The raw items with the items whose key satisfies [c] marked as
    implementing the four methods. *)
Definition markKeys (c : string * string -> bool) (raw : list astStruct) : list astStruct :=
  map (fun it => Raw.set_implFunc it (Raw.implFunc it || c (rawKey it))) raw.

(** ** The [*Value] graph as a heap

    Where the sharing of nodes matters, a [*Value] is an index into a heap
    of cells; [new] is Go's [&Value{...}] (and [new(Value)]), appending a
    cell.  A cell holds the scalar fields of the node in [node] (whose own
    [o] and [e] are unused) and its pointers [o] ([co]) and [e] ([ce]).
    The registry [e.objs] maps a name to a pointer.  The builder is the one
    of [Section Builder], with every node built in place on the heap. *)
Module Heap.

Abbreviation loc := nat.

Record Cell : Type := mkCell { node : Value; co : list loc; ce : option loc }.

Abbreviation heap := (list Cell).

Abbreviation registry := (gmap string loc).

Definition setNode (f : Value -> Value) (cl : Cell) : Cell := mkCell (f (node cl)) (co cl) (ce cl).
Definition setCo (os : list loc) (cl : Cell) : Cell := mkCell (node cl) os (ce cl).
Definition setCe (oe : option loc) (cl : Cell) : Cell := mkCell (node cl) (co cl) oe.

(** [&Value{...}]: a fresh cell holding [v] with nil pointers. *)
Definition new (h : heap) (v : Value) : heap * loc :=
  (app h [mkCell v [] None], length h).

(** A write through the pointer [l] ([l.f = ...]).  The builder only
    writes through pointers it allocated, so the nil case does not arise. *)
Definition modify (h : heap) (l : loc) (f : Cell -> Cell) : heap :=
  match h !! l with Some cl => <[l := f cl]> h | None => h end.

(** [for indx := range v.o { vv.o[indx] = v.o[indx].copy() }] *)
Fixpoint copyList (cp : heap -> loc -> outcome (heap * loc)) (h : heap) (xs : list loc)
    : outcome (heap * list loc) :=
  match xs with
  | [] => Ok (h, [])
  | x :: xs' =>
      let* '(h1, y) := cp h x in
      let* '(h2, ys) := copyList cp h1 xs' in
      Ok (h2, y :: ys)
  end.

(** [if v.e != nil { vv.e = v.e.copy() }] *)
Definition copyOpt (cp : heap -> loc -> outcome (heap * loc)) (h : heap) (ox : option loc)
    : outcome (heap * option loc) :=
  match ox with
  | None => Ok (h, None)
  | Some x => let* '(h1, y) := cp h x in Ok (h1, Some y)
  end.

(** [func (v *Value) copy() *Value]: [vv := new(Value); *vv = *v], then a
    fresh slice [vv.o] of copies of the fields and a copy of [v.e].  The
    recursion follows the pointers; it runs on fuel. *)
Fixpoint copy (fuel : nat) (h : heap) (v : loc) {struct fuel} : outcome (heap * loc) :=
  match fuel with
  | 0 => NoFuel
  | S f =>
      match h !! v with
      | None => Panic "invalid memory address or nil pointer dereference"
      | Some cl =>
          let '(h1, vv) := (app h [cl], length h) in
          let* '(h2, os) := copyList (copy f) h1 (co cl) in
          let* '(h3, oe) := copyOpt (copy f) h2 (ce cl) in
          Ok (<[vv := mkCell (node cl) os oe]> h3, vv)
      end
  end.

(** ** Reading the heap back *)
Fixpoint allSome {A} (xs : list (option A)) : option (list A) :=
  match xs with
  | [] => Some []
  | None :: _ => None
  | Some x :: xs' => option_map (cons x) (allSome xs')
  end.

(** The tree of [Value]s reachable from [l], unfolded to depth [fuel]. *)
Fixpoint tree_of (fuel : nat) (h : heap) (l : loc) : option Value :=
  match fuel with
  | 0 => None
  | S f =>
      match h !! l with
      | None => None
      | Some cl =>
          match allSome (map (tree_of f h) (co cl)),
                match ce cl with
                | None => Some None
                | Some x => option_map Some (tree_of f h x)
                end with
          | Some os, Some oe => Some (set_e (set_o (node cl) os) oe)
          | _, _ => None
          end
      end
  end.

(** The cells reachable from [l] through [o] and [e]. *)
Inductive reach (h : heap) : loc -> loc -> Prop :=
| reach_here l : reach h l l
| reach_o l cl x k : h !! l = Some cl -> In x (co cl) -> reach h x k -> reach h l k
| reach_e l cl x k : h !! l = Some cl -> ce cl = Some x -> reach h x k -> reach h l k.

(** Every pointer of a cell is below [n]. *)
Definition ptrsBelow (n : nat) (cl : Cell) : bool :=
  forallb (fun x => Nat.ltb x n) (co cl) &&
  match ce cl with Some x => Nat.ltb x n | None => true end.

(** No cell points outside the heap. *)
Definition closedb (h : heap) : bool := forallb (ptrsBelow (length h)) h.

(** The same, cell by cell. *)
Definition closed (h : heap) : Prop :=
  forall l cl, h !! l = Some cl -> ptrsBelow (length h) cl = true.

(** The invariant of the builder: no pointer of the heap or of the
    registry dangles. *)
Definition inv (h : heap) (objs : registry) : Prop :=
  closed h /\ forall k l, objs !! k = Some l -> l < length h.

(** Every registry entry points into the heap. *)
Definition regValidb (h : heap) (objs : registry) : bool :=
  forallb (fun kv => Nat.ltb (snd kv) (length h)) (map_to_list objs).

(** ** The builder on the heap *)
Section HeapBuilder.
Variable extractSSZDimensions : string -> outcome (list SSZDimension).

(** The loop of [parseASTStructType] over [typ.Fields.List], appending to
    the field slice of the container [v]. *)
Fixpoint structFields
    (pf : string -> string -> Expr -> heap -> registry -> outcome (option loc * (heap * registry)))
    (v : loc) (fs : list Field) (h : heap) (objs : registry) : outcome (heap * registry) :=
  match fs with
  | [] => Ok (h, objs)
  | f :: fs' =>
      match Field_Names f with
      | [fname] =>
          match isExportedField fname with
          | None => Panic "index out of range"
          | Some false => structFields pf v fs' h objs
          | Some true =>
              if HasPrefix fname "XXX_" then structFields pf v fs' h objs else
              let tags := match Field_Tag f with Some tg => tg | None => "" end in
              let* '(oelem, (h1, objs1)) := pf fname tags (Field_Type f) h objs in
              match oelem with
              | None => structFields pf v fs' h1 objs1
              | Some elem =>
                  (* [elem.name = name; v.o = append(v.o, elem)] *)
                  let h2 := modify h1 elem (setNode (fun x => set_name x fname)) in
                  let h3 := modify h2 v (fun cl => setCo (app (co cl) [elem]) cl) in
                  structFields pf v fs' h3 objs1
              end
          end
      | _ => structFields pf v fs' h objs
      end
  end.

(** The loop of the [*ast.ArrayType] case over [dims], writing the node
    [collection]. *)
Fixpoint arrayLoop (pf : Expr -> heap -> registry -> outcome (option loc * (heap * registry)))
    (nm : string) (dims : list SSZDimension) (len : option Expr) (elt : Expr)
    (collection : loc) (h : heap) (objs : registry) : outcome (heap * registry) :=
  match dims with
  | [] => Ok (h, objs)
  | d :: ds =>
      match h !! collection with
      | None => Panic "invalid memory address or nil pointer dereference"
      | Some cl =>
          let* col := dimStep nm d len (node cl) in
          let h := <[collection := setNode (fun _ => col) cl]> h in
          match elt with
          | ArrayType len' elt' =>
              (* [collection.e = &Value{}; collection = collection.e] *)
              let '(h1, l') := new h zeroValue in
              arrayLoop pf nm ds len' elt' l' (modify h1 collection (setCe (Some l'))) objs
          | _ =>
              if isByteIdent elt then
                arrayLoop pf nm ds len elt collection
                  (modify h collection (setNode (byteStep d))) objs
              else
                let* '(element, (h1, objs1)) := pf elt h objs in
                arrayLoop pf nm ds len elt collection (modify h1 collection (setCe element)) objs1
          end
      end
  end.

Definition newSome (h : heap) (objs : registry) (v : Value)
    : outcome (option loc * (heap * registry)) :=
  let '(h1, l) := new h v in Ok (Some l, (h1, objs)).

Fixpoint encodeItem (fuel : nat) (raw : list astStruct) (h : heap) (objs : registry)
    (nm tags : string) {struct fuel} : outcome (loc * (heap * registry)) :=
  match fuel with
  | 0 => NoFuel
  | S n =>
      match objs !! nm with
      | Some v =>
          let* '(h1, vv) := copy n h v in Ok (vv, (h1, objs))
      | None =>
          match getRawItemByName raw nm with
          | None => Err ("could not find struct with name '" ++ nm ++ "'")
          | Some rw =>
              let* '(v, (h1, objs1)) := wrapErr ("failed to encode " ++ nm ++ ": ")
                (if Raw.implFunc rw then
                   let size := fst (getTagsInt tags "ssz-size") in
                   let '(h1, v) := new h (set_noPtr (set_s (set_t zeroValue TypeReference) size)
                                   (match Raw.obj rw with None => true | Some _ => false end)) in
                   Ok (v, (h1, objs))
                 else match Raw.obj rw with
                      | Some fs => parseASTStructType n raw h objs nm fs
                      | None =>
                          match Raw.typ rw with
                          | None => Panic "ast type '<nil>' not expected"
                          | Some ty =>
                              let* '(ov, st) := parseASTFieldType n raw h objs nm tags ty in
                              match ov with
                              | Some v => Ok (v, st)
                              | None => Panic "invalid memory address or nil pointer dereference"
                              end
                          end
                      end) in
              (* [v.name = name; v.obj = name; e.objs[name] = v; return v.copy()] *)
              let h2 := modify h1 v (setNode (fun x => set_obj (set_name x nm) nm)) in
              let objs2 := <[nm := v]> objs1 in
              let* '(h3, vv) := copy n h2 v in
              Ok (vv, (h3, objs2))
          end
      end
  end

with parseASTStructType (fuel : nat) (raw : list astStruct) (h : heap) (objs : registry)
    (nm : string) (fs : list Field) {struct fuel} : outcome (loc * (heap * registry)) :=
  match fuel with
  | 0 => NoFuel
  | S n =>
      let '(h1, v) := new h (set_t (set_name zeroValue nm) TypeContainer) in
      let* '(h2, objs2) := structFields
                  (fun fname tags ty h objs => parseASTFieldType n raw h objs fname tags ty)
                  v fs h1 objs in
      Ok (v, (h2, objs2))
  end

with parseASTFieldType (fuel : nat) (raw : list astStruct) (h : heap) (objs : registry)
    (nm tags : string) (expr : Expr) {struct fuel} : outcome (option loc * (heap * registry)) :=
  match fuel with
  | 0 => NoFuel
  | S n =>
      if omittedTag tags then Ok (None, (h, objs)) else
      match expr with
      | StarExpr x =>
          match x with
          | Ident elemName =>
              let* '(v, st) := encodeItem n raw h objs elemName tags in Ok (Some v, st)
          | SelectorExpr (Ident refName) sel =>
              let* '(v, (h1, objs1)) := encodeItem n raw h objs sel tags in
              (* [v.ref = ref] *)
              Ok (Some v, (modify h1 v (setNode (fun x => set_ref x refName)), objs1))
          | SelectorExpr _ _ => Panic "interface conversion: ast.Expr is not *ast.Ident"
          | _ => Err "cannot handle the element expression"
          end
      | ArrayType len0 elt0 =>
          let* dims := extractSSZDimensions tags in
          let '(h1, outer) := new h zeroValue in
          let* '(h2, objs2) := arrayLoop (fun ty h objs => parseASTFieldType n raw h objs nm tags ty)
                                 nm dims len0 elt0 outer h1 objs in
          Ok (Some outer, (h2, objs2))
      | Ident tn =>
          if String.eqb tn "uint64" then newSome h objs (basicValue TypeUint 8)
          else if String.eqb tn "uint32" then newSome h objs (basicValue TypeUint 4)
          else if String.eqb tn "uint16" then newSome h objs (basicValue TypeUint 2)
          else if String.eqb tn "uint8" then newSome h objs (basicValue TypeUint 1)
          else if String.eqb tn "bool" then newSome h objs (basicValue TypeBool 1)
          else
            match encodeItem n raw h objs tn tags with
            | Ok (v, st) => Ok (Some v, st)
            | Err _ => Err ("type " ++ tn ++ " not found")
            | Panic msg => Panic msg
            | NoFuel => NoFuel
            end
      | SelectorExpr (Ident pkg) sel =>
          if String.eqb sel "Bitlist" then
            let '(maxSize, ok) := getTagsInt tags "ssz-max" in
            if negb ok then Err ("bitlist " ++ pkg ++ " does not have ssz-max tag")
            else newSome h objs (set_s (set_m (set_t zeroValue TypeBitList) maxSize) maxSize)
          else if HasPrefix sel "Bitvector" then
            match extractSSZDimensions tags with
            | Err msg => Err ("failed to parse ssz-size tag for bitvector " ++ pkg ++ ", err=" ++ msg)
            | Panic msg => Panic msg
            | NoFuel => NoFuel
            | Ok dims =>
                match last dims with
                | None => Err ("did not find any ssz tags for the bitvector named " ++ pkg)
                | Some tailDim =>
                    if negb (IsVector tailDim) then
                      Err ("bitvector tag parse failed (no ssz-size for last dim) " ++ pkg)
                    else newSome h objs (set_s (set_fixed (set_t zeroValue TypeBytes) true)
                                               (Z.of_nat (VectorLen tailDim)))
                end
            end
          else
            let* '(v, (h1, objs1)) := encodeItem n raw h objs sel tags in
            (* [vv.ref = name; vv.noPtr = true] *)
            Ok (Some v, (modify h1 v (setNode (fun x => set_noPtr (set_ref x pkg) true)), objs1))
      | SelectorExpr _ _ => Panic "interface conversion: ast.Expr is not *ast.Ident"
      | _ => Panic "ast type not expected"
      end
  end.
End HeapBuilder.

End Heap.

(** ** The remaining functions of main.go *)

(** [strings.Join(elems, sep)] for a one-byte separator. *)
Fixpoint Join (l : list string) (ch : Ascii.ascii) : string :=
  match l with
  | [] => ""
  | [x] => x
  | x :: r => x ++ String ch (Join r ch)
  end.

Section CommandLine.
(** [strings.TrimSpace] (Unicode white space at both ends). *)
Variable TrimSpace : string -> string.

(** [func decodeList(input string) []string] *)
Definition decodeList (input : string) : list string :=
  if String.eqb input "" then [] else Split (TrimSpace input) ","%char.
End CommandLine.

(** [func (v *Value) objRef() string] *)
Definition objRef (v : Value) : string :=
  if String.eqb (ref v) "" then obj v else ref v ++ "." ++ obj v.

(** [func uintVToName(v *Value) string] *)
Definition uintVToName (v : Value) : outcome string :=
  if negb (Type_eqb (t v) TypeUint) then Panic "not expected" else
  if (s v =? 8)%Z then Ok "Uint64"
  else if (s v =? 4)%Z then Ok "Uint32"
  else if (s v =? 2)%Z then Ok "Uint16"
  else if (s v =? 1)%Z then Ok "Uint8"
  else Panic ("unknown uint size. field name=" ++ name v).

(** The nodes of a [Value] tree: the node, its fields' nodes, its
    element's nodes. *)
Fixpoint nodes (v : Value) : list Value :=
  match v with
  | mkValue _ _ _ _ o0 e0 _ _ _ _ _ =>
      v :: app (flat_map nodes o0) (match e0 with Some x => nodes x | None => [] end)
  end.

(** *** Imports of the generated file *)

(** [func (a *astImport) getFullName() string] *)
Definition getFullName (a : astImport) : string :=
  if String.eqb (alias a) "" then dqs ++ path a ++ dqs
  else alias a ++ " " ++ dqs ++ path a ++ dqs.

Definition slash : Ascii.ascii := "/"%char.

Fixpoint takeUntil (ch : Ascii.ascii) (l : list Ascii.ascii) : list Ascii.ascii :=
  match l with
  | a :: r => if Ascii.eqb a ch then [] else a :: takeUntil ch r
  | [] => []
  end.

(** [filepath.Base] on a slash-separated path: [.] for the empty path,
    trailing slashes removed, the last element, [/] for a path of slashes. *)
Definition Base (p : string) : string :=
  if String.eqb p "" then "." else
  match takeUntil slash (dropChar slash (rev (lchars p))) with
  | [] => "/"
  | x => string_of_list_ascii (rev x)
  end.

(** [func (a *astImport) match(name string) bool] *)
Definition astImport_match (a : astImport) (nm : string) : bool :=
  if String.eqb (alias a) "" then String.eqb (Base (path a)) nm
  else String.eqb (alias a) nm.

(** [func (e *env) findImport(name string) string] over [e.imports] *)
Definition findImport (imports : list astImport) (nm : string) : string :=
  match find (fun i => astImport_match i nm) imports with
  | Some i => getFullName i
  | None => ""
  end.

(** [func (e *env) buildImports(imports []string) ([]string, error)]; the
    error it returns is always nil. *)
Definition buildImports (envImports : list astImport) (imports : list string) : list string :=
  fold_left (fun res i =>
    let imp := findImport envImports i in
    if String.eqb imp "" then res else app res [imp]) imports [].

(** *** Output files *)

(** The result of [print] as returned to its callers: [ok] is false
    ([None]) when no object is printed ([len(objs) == 0]).  The hash of the
    sources and the template text are not modelled. *)
Definition printResult (excludeTypeNames : gmap string bool) (objs : registry)
    (order : list string) : outcome (option (list (string * Value) * list string)) :=
  let* '(out, imports) := print excludeTypeNames objs order in
  match out with
  | [] => Ok None
  | _ => Ok (Some (out, imports))
  end.

(** [e.order[k]] on the map [e.order], given as its entries. *)
Definition lookupOrder (order : list (string * list string)) (k : string) : list string :=
  match find (fun p => String.eqb (fst p) k) order with
  | Some p => snd p
  | None => []
  end.

(** [func (e *env) generateOutputEncodings(output string, experimental bool)]:
    [e.order] is a Go map, given as its entries in iteration order; the
    keys are sorted by [sort.Strings] (byte-wise ascending). *)
Definition generateOutputEncodings (excludeTypeNames : gmap string bool) (objs : registry)
    (order : list (string * list string)) (output : string)
    : outcome (option (gmap string (list (string * Value) * list string))) :=
  let keys := merge_sort String.le (map fst order) in
  let orders := fold_left (fun acc k => app acc (lookupOrder order k)) keys [] in
  let* r := printResult excludeTypeNames objs orders in
  match r with
  | None => Ok None
  | Some res => Ok (Some {[output := res]})
  end.

(** [filepath.Ext]: the suffix from the last dot of the final element. *)
Definition Ext (p : string) : string :=
  (fix go (l acc : list Ascii.ascii) : string :=
     match l with
     | [] => ""
     | a :: r =>
         if Ascii.eqb a slash then ""
         else if Ascii.eqb a "."%char then string_of_list_ascii (a :: acc)
         else go r (a :: acc)
     end) (rev (lchars p)) [].

(** [strings.TrimSuffix] *)
Definition TrimSuffix (x suffix : string) : string :=
  if HasSuffix x suffix
  then String.substring 0 (String.length x - String.length suffix) x
  else x.

Definition encodingPrefix : string := "_encoding.go".

(** The output file of a source file in [generateEncodings]. *)
Definition outputName (nm : string) : string :=
  TrimSuffix nm (Ext nm) ++ encodingPrefix.

(** [func (e *env) generateEncodings(experimental bool)]: one output per
    entry of [e.order] whose [print] has something to print. *)
Definition generateEncodings (excludeTypeNames : gmap string bool) (objs : registry)
    (order : list (string * list string))
    : outcome (gmap string (list (string * Value) * list string)) :=
  foldM (fun outs p =>
    let* r := printResult excludeTypeNames objs (snd p) in
    match r with
    | Some res => Ok (<[outputName (fst p) := res]> outs)
    | None => Ok outs
    end) order ∅.

(** ** Vocabulary of the statements on the remaining functions *)

(** A registry whose every entry carries its key as [name] and [obj]. *)
Definition selfNamed (objs : registry) : Prop :=
  forall k v, objs !! k = Some v -> name v = k /\ obj v = k.

(** A [Uint] node of one of the four sizes [uintVToName] knows, at every
    node of a tree. *)
Definition uintSizeOK (u : Value) : bool :=
  negb (Type_eqb (t u) TypeUint) ||
  ((s u =? 8) || (s u =? 4) || (s u =? 2) || (s u =? 1))%Z.

(** The imports of the source files, as [decodeASTImports] reads them. *)
Definition sourceImports (files : list (string * File)) : list astImport :=
  flat_map (fun nf => decodeASTImports (snd nf)) files.

(** A struct tag [`k1:"v1" k2:"v2" ...`] and its items. *)
Definition tagItem (kv : string * string) : string :=
  fst kv ++ ":" ++ dqs ++ snd kv ++ dqs.

Definition structTag (kvs : list (string * string)) : string :=
  String bq (Join (map tagItem kvs) space ++ String bq EmptyString).

(** A key or value written in a tag without a space, colon, double quote
    or backquote. *)
Definition plainTagText (x : string) : bool :=
  forallb (fun a => negb (Ascii.eqb a space || Ascii.eqb a colon ||
                          Ascii.eqb a dq || Ascii.eqb a bq)) (lchars x).

Definition uintsOK (v : Value) : bool := forallb uintSizeOK (nodes v).

Definition regGrows (raw : list astStruct) (objs objs' : registry) : Prop :=
  (forall k x, objs !! k = Some x -> objs' !! k = Some x) /\
  (forall k x, objs' !! k = Some x ->
     objs !! k = Some x \/
     (name x = k /\ obj x = k /\ exists it, getRawItemByName raw k = Some it)).

Definition regUints (objs : registry) : Prop :=
  forall k x, objs !! k = Some x -> uintsOK x = true.

(** The loop of [generateIR] over [e.raw]. *)
Definition irStep ext fuel raw (targets : list string) (objs : registry) (it : astStruct)
    : outcome registry :=
  let valid := match targets with [] => true | _ => contains (Raw.name it) targets end in
  if valid then
    if Raw.isRef it then Ok objs
    else let* r := encodeItem ext fuel raw objs (Raw.name it) "" in Ok (snd r)
  else Ok objs.

Definition countChar (ch : Ascii.ascii) (x : string) : nat :=
  length (List.filter (fun a => Ascii.eqb a ch) (lchars x)).

Definition tagLoop (field : string) : list string -> option string :=
  fix go (tags : list string) : option string :=
     match tags with
     | [] => None
     | tag :: rest =>
         if negb (Contains tag colon) then None else
         match Split tag colon with
         | [tagName; vals] =>
             if negb (HasPrefix vals dqs) || negb (HasSuffix vals dqs) then None
             else if negb (String.eqb tagName field) then go rest
             else Some (Trim vals dq)
         | _ => None
         end
     end.

Definition importStep (imports : list astImport) (i : astImport) : outcome (list astImport) :=
  match find (fun j => String.eqb (path j) (path i)) imports with
  | Some j =>
      if String.eqb (alias i) (alias j) then Ok imports
      else Err ("the same package is imported twice by different files of path "
                ++ path j ++ " and " ++ path i ++ " with different aliases: "
                ++ alias j ++ " and " ++ alias i)
  | None => Ok (app imports [i])
  end.

Definition encStep excl objs (outs : gmap string (list (string * Value) * list string))
    (p : string * list string) :=
  let* r := printResult excl objs (snd p) in
  match r with
  | Some res => Ok (<[outputName (fst p) := res]> outs)
  | None => Ok outs
  end.

(** ** Sample inputs *)

(** A sample registry with the container [Foo] holding one [uint64]. *)
Definition fooValue : Value :=
  set_name (set_o (set_t zeroValue TypeContainer) [set_name (basicValue TypeUint 8) "A"]) "Foo".

(** A dimension extractor for the samples: one vector dimension per
    [ssz-size] tag, else one list dimension per [ssz-max] tag. *)
Definition sampleDims (tags : string) : outcome (list SSZDimension) :=
  match getTagsInt tags "ssz-size" with
  | (n, true) => Ok [mkSSZDimension (VectorDim (Z.to_nat n)) false]
  | _ => match getTagsInt tags "ssz-max" with
         | (n, true) => Ok [mkSSZDimension (ListDim (Z.to_nat n)) false]
         | _ => Err "no ssz-size or ssz-max tag"
         end
  end.

(** A struct tag holding the single key [k] with value [v]. *)
Definition tagOf (k v : string) : string :=
  String bq (k ++ ":" ++ dqs ++ v ++ dqs ++ String bq EmptyString).

(** The fields of a sample struct [Foo]: a basic field, a byte vector, a
    list, an unexported field and a pointer to the struct [Bar]. *)
Definition fooFields : list Field :=
  [ mkField ["A"] (Ident "uint64") None;
    mkField ["B"] (ArrayType (Some (BasicLit "4")) (Ident "byte")) (Some (tagOf "ssz-size" "4"));
    mkField ["C"] (ArrayType None (Ident "uint64")) (Some (tagOf "ssz-max" "10"));
    mkField ["d"] (Ident "uint64") None;
    mkField ["E"] (StarExpr (Ident "Bar")) None ].

Definition barRaw : astStruct :=
  Raw.mkAstStruct "Bar" (Some [mkField ["X"] (Ident "bool") None]) "p" None false false.

(** A struct [Baz] with a basic field and a pointer to [Bar], declared
    next to [Bar]. *)
Definition bazRaw : astStruct :=
  Raw.mkAstStruct "Baz"
    (Some [mkField ["A"] (Ident "uint64") None; mkField ["E"] (StarExpr (Ident "Bar")) None])
    "p" None false false.

(** A struct tag omitting its field ([ssz:"-"]) that also declares a
    vector dimension of length 5. *)
Definition omitSize5Tag : string :=
  String bq ("ssz:" ++ dqs ++ "-" ++ dqs ++ " ssz-size:" ++ dqs ++ "5" ++ dqs ++
             String bq EmptyString).

(** A struct [Foo] of package [a] declared in one file, and its four
    methods declared in another file of the same package. *)
Definition fooDeclFile : File :=
  mkFile "a" [GenDecl [TypeSpec "Foo" (StructType [mkField ["A"] (Ident "uint64") None])]] [].

Definition recvFoo : option (list Field) := Some [mkField ["f"] (StarExpr (Ident "Foo")) None].

Definition fooMethodsFile : File :=
  mkFile "a"
    [FuncDecl recvFoo "SizeSSZ" [] (Some [mkField [] (Ident "int") None]);
     FuncDecl recvFoo "MarshalSSZTo" [mkField ["buf"] (ArrayType None (Ident "byte")) None]
       (Some [mkField [] (ArrayType None (Ident "byte")) None; mkField [] (Ident "error") None]);
     FuncDecl recvFoo "UnmarshalSSZ" [mkField ["buf"] (ArrayType None (Ident "byte")) None]
       (Some [mkField [] (Ident "error") None]);
     FuncDecl recvFoo "HashTreeRootWith"
       [mkField ["hh"] (StarExpr (SelectorExpr (Ident "ssz") "Hasher")) None]
       (Some [mkField [] (Ident "error") None])]
    [].

(** Two packages declaring a struct [Foo]: package [a] (a source file)
    also declares [Bar], whose field [F] points to [b.Foo]; package [b]
    (an include file) declares its own [Foo] with other fields. *)
Definition pkgAFile : File :=
  mkFile "a"
    [GenDecl [TypeSpec "Foo" (StructType [mkField ["A"] (Ident "uint64") None]);
              TypeSpec "Bar" (StructType
                [mkField ["F"] (StarExpr (SelectorExpr (Ident "b") "Foo")) None])]]
    [mkImportSpec None (String dq ("example.com/b" ++ String dq EmptyString))].

Definition pkgBFile : File :=
  mkFile "b"
    [GenDecl [TypeSpec "Foo" (StructType [mkField ["X"] (Ident "bool") None;
                                          mkField ["Y"] (Ident "bool") None])]]
    [].

Definition trimSpaces (x : string) : string := Trim x space.
Definition aliasFile : File :=
  mkFile "a" [] [mkImportSpec (Some "bb") (String dq ("example.com/b" ++ String dq EmptyString))].
Definition sampleOrder : list (string * list string) := [("a.go", ["Foo"]); ("b.go", ["Bar"])].
Definition fooRegistry : registry := {["Foo" := fooValue]}.

(** A struct [Foo] whose field [F] has the two-level type [[][]byte] but
    whose tag gives a single ([ssz-size]) dimension. *)
Definition bytesVecFile : File :=
  mkFile "a" [GenDecl [TypeSpec "Foo" (StructType
    [mkField ["F"] (ArrayType None (ArrayType None (Ident "byte"))) (Some (tagOf "ssz-size" "4"))])]]
    [].

(* ================================================================= *)
(** * Theorems *)

(** ** Loops with early return *)

Lemma fold_obind_stuck {A B} (f : A -> B -> outcome A) (l : list B) (m : outcome A) :
  (forall y, m <> Ok y) ->
  fold_left (fun acc x => let* y := acc in f y x) l m = m.
Proof.
  revert m. induction l as [|x l IH]; intros m Hm; [reflexivity|].
  cbn [fold_left]. replace (let* y := m in f y x) with m.
  - apply IH; auto.
  - destruct m as [y| | |]; [destruct (Hm y eq_refl)|reflexivity..].
Qed.

Lemma foldM_cons {A B} (f : A -> B -> outcome A) x l a :
  foldM f (x :: l) a = let* y := f a x in foldM f l y.
Proof.
  unfold foldM. cbn [fold_left obind].
  destruct (f a x) as [y| | |]; [reflexivity|apply fold_obind_stuck; discriminate..].
Qed.

Lemma foldM_app {A B} (f : A -> B -> outcome A) l1 l2 a :
  foldM f (app l1 l2) a = let* y := foldM f l1 a in foldM f l2 y.
Proof.
  revert a. induction l1 as [|x l1 IH]; intros a; [reflexivity|].
  cbn [app]. rewrite !foldM_cons.
  destruct (f a x) as [y| | |]; cbn [obind]; [apply IH|reflexivity..].
Qed.

(** An invariant of the loop state holds after a loop that succeeds. *)
Lemma foldM_inv {A B} (P : A -> Prop) (f : A -> B -> outcome A) l a a' :
  P a ->
  (forall y x y', P y -> In x l -> f y x = Ok y' -> P y') ->
  foldM f l a = Ok a' -> P a'.
Proof.
  revert a. induction l as [|x l IH]; intros a Ha Hstep H.
  - cbn in H. injection H as <-. exact Ha.
  - rewrite foldM_cons in H.
    destruct (f a x) as [y| | |] eqn:Hf; cbn [obind] in H; try discriminate.
    apply (IH y); auto.
    + apply (Hstep a x y Ha (or_introl eq_refl) Hf).
    + intros y0 x0 y1 Hy Hx. apply Hstep; auto. right. exact Hx.
Qed.

(** ** The classifier [isFixed] *)

Lemma isFixed_container_true n ob s0 fs e0 c0 m0 r0 np fx :
  isFixed (mkValue n ob s0 TypeContainer fs e0 c0 m0 r0 np fx) = Some true <->
  Forall (fun f => isFixed f = Some true) fs.
Proof.
  induction fs as [|f fs IH]; simpl in *.
  - split; auto.
  - destruct (isFixed f) as [[|]|] eqn:Hf.
    + rewrite IH. split; intros H.
      * constructor; auto.
      * inversion H; auto.
    + split; intros H; [discriminate | inversion H; congruence].
    + split; intros H; [discriminate | inversion H; congruence].
Qed.

Lemma isFixed_container_false n ob s0 fs e0 c0 m0 r0 np fx :
  isFixed (mkValue n ob s0 TypeContainer fs e0 c0 m0 r0 np fx) = Some false <->
  exists pre f post, fs = app pre (f :: post) /\
    Forall (fun g => isFixed g = Some true) pre /\ isFixed f = Some false.
Proof.
  induction fs as [|f fs IH]; simpl in *.
  - split; [discriminate|]. intros (pre & f & post & Heq & _).
    destruct pre; discriminate.
  - destruct (isFixed f) as [[|]|] eqn:Hf.
    + rewrite IH. split.
      * intros (pre & g & post & Heq & Hpre & Hg).
        exists (f :: pre), g, post. rewrite Heq. repeat split; auto.
      * intros (pre & g & post & Heq & Hpre & Hg).
        destruct pre as [|p pre]; simpl in Heq; injection Heq as Hp Hfs; subst.
        -- congruence.
        -- inversion Hpre; subst. exists pre, g, post; auto.
    + split; auto. intros _. exists [], f, fs. auto.
    + split; [discriminate|]. intros (pre & g & post & Heq & Hpre & Hg).
      destruct pre as [|p pre]; simpl in Heq; injection Heq as Hp Hfs; subst.
      * congruence.
      * inversion Hpre; congruence.
Qed.

(** C1: the fixed-size classifier returns [true] for uint and bool nodes and
    [false] for list and bitlist nodes; a vector node is classified as its
    element; a container node returns [true] iff every field is fixed (and
    [false] iff the first field that is not fixed returns [false]); a bytes
    node returns its fixed-width flag; a reference node returns whether its
    bound width [s] is nonzero. *)
Theorem isFixed_kinds (v : Value) :
  ((t v = TypeUint \/ t v = TypeBool) -> isFixed v = Some true) /\
  ((t v = TypeList \/ t v = TypeBitList) -> isFixed v = Some false) /\
  (forall el, t v = TypeVector -> e v = Some el -> isFixed v = isFixed el) /\
  (t v = TypeContainer ->
     (isFixed v = Some true <-> Forall (fun f => isFixed f = Some true) (o v)) /\
     (isFixed v = Some false <->
        exists pre f post, o v = app pre (f :: post) /\
          Forall (fun g => isFixed g = Some true) pre /\ isFixed f = Some false)) /\
  (t v = TypeBytes -> isFixed v = Some (fixed v)) /\
  (t v = TypeReference -> isFixed v = Some (negb (s v =? 0)%Z)).
Proof.
  destruct v as [n ob s0 t0 o0 e0 c0 m0 r0 np fx]; cbn [t o e s fixed].
  repeat split; intros.
  - destruct H as [-> | ->]; reflexivity.
  - destruct H as [-> | ->]; reflexivity.
  - subst. reflexivity.
  - subst. apply (isFixed_container_true n ob s0 o0 e0 c0 m0 r0 np fx); auto.
  - subst. apply (isFixed_container_true n ob s0 o0 e0 c0 m0 r0 np fx); auto.
  - subst. apply (isFixed_container_false n ob s0 o0 e0 c0 m0 r0 np fx); auto.
  - subst. apply (isFixed_container_false n ob s0 o0 e0 c0 m0 r0 np fx); auto.
  - subst. destruct fx; reflexivity.
  - subst. simpl. destruct (s0 =? 0)%Z; reflexivity.
Qed.

(** C10: on a node all of whose reachable nodes have one of the eight
    defined kinds and whose vectors carry an element, [isFixed] returns a
    boolean; on a node of the undefined sentinel kind it panics. *)
Theorem isFixed_total_or_panic (v : Value) :
  (wellFormed v = true -> exists b, isFixed v = Some b) /\
  (t v = TypeUndefined -> isFixed v = None).
Proof.
  split.
  2:{ destruct v as [n ob s0 t0 o0 e0 c0 m0 r0 np fx]; cbn [t]; intros Ht; subst t0; reflexivity. }
  induction v as [n ob s0 t0 o0 e0 c0 m0 r0 np fx Ho He] using Value_ind'.
  simpl. intros Hwf.
  apply andb_prop in Hwf as [Hwf He0].
  apply andb_prop in Hwf as [Hwf Ho0].
  apply andb_prop in Hwf as [Hdef Hvec].
  destruct t0; simpl in *; try discriminate; eauto;
    try (destruct fx; eauto; fail); try (destruct (Z.eqb s0 0); eauto; fail).
  - destruct e0 as [x|]; [eauto | simpl in Hvec; congruence].
  - rewrite forallb_forall in Ho0.
    clear He He0 Hdef Hvec.
    induction o0 as [|f fs IH]; [eauto|].
    inversion Ho; subst.
    destruct (H1 (Ho0 f (or_introl eq_refl))) as [b Hb]. rewrite Hb.
    destruct b; [|eauto].
    apply IH; auto. intros x Hx. apply Ho0. right; exact Hx.
Qed.

(** ** The builder *)

Lemma copy_id (v : Value) : copy v = v.
Proof.
  induction v as [n ob s0 t0 o0 e0 c0 m0 r0 np fx Ho He] using Value_ind'.
  simpl. f_equal.
  - induction Ho as [|x l Hx _ IH]; simpl; congruence.
  - destruct e0 as [x|]; [f_equal; apply He; reflexivity | reflexivity].
Qed.

Ltac outcome_cases :=
  repeat match goal with
  | H : context [match ?x with _ => _ end] |- _ =>
      lazymatch x with
      | context [match _ with _ => _ end] => fail
      | _ => destruct x eqn:?
      end
  end.

(** C9: once a name is in the registry, resolving it returns a copy of the
    cached node whatever the tags of the use site: two resolutions with any
    two tag strings return the same value and leave the registry as it is. *)
Theorem encodeItem_cached_ignores_tags ext fuel (raw : list astStruct)
    (objs : registry) (nm tags1 tags2 : string) (v : Value) :
  objs !! nm = Some v ->
  encodeItem ext (S fuel) raw objs nm tags1 = Ok (v, objs) /\
  encodeItem ext (S fuel) raw objs nm tags2 = Ok (v, objs).
Proof.
  intros Hv. simpl. rewrite Hv, copy_id. auto.
Qed.

Lemma encodeItem_cached_ignores_tags_witness :
  (<["Foo" := basicValue TypeUint 8]> (∅ : registry)) !! "Foo" = Some (basicValue TypeUint 8) /\
  encodeItem sampleDims 1 [] (<["Foo" := basicValue TypeUint 8]> ∅) "Foo" "" =
    Ok (basicValue TypeUint 8, <["Foo" := basicValue TypeUint 8]> ∅) /\
  encodeItem sampleDims 1 [] (<["Foo" := basicValue TypeUint 8]> ∅) "Foo" (tagOf "ssz-size" "32") =
    Ok (basicValue TypeUint 8, <["Foo" := basicValue TypeUint 8]> ∅).
Proof.
  assert (H : (<["Foo" := basicValue TypeUint 8]> (∅ : registry)) !! "Foo" = Some (basicValue TypeUint 8))
    by (apply lookup_insert_eq).
  split; [exact H|].
  exact (encodeItem_cached_ignores_tags sampleDims 0 [] _ "Foo" "" (tagOf "ssz-size" "32") _ H).
Defined.

Lemma parseASTFieldType_none ext fuel raw (objs objs' : registry) nm tags ty :
  parseASTFieldType ext fuel raw objs nm tags ty = Ok (None, objs') ->
  omittedTag tags = true.
Proof.
  destruct fuel as [|n]; simpl; [discriminate|].
  destruct (omittedTag tags) eqn:Ho; auto.
  intros H. destruct ty; simpl in H; unfold obind in H; outcome_cases; congruence.
Qed.

Lemma parseASTFieldType_none_iff ext fuel raw (objs objs' : registry) nm tags ty r :
  parseASTFieldType ext fuel raw objs nm tags ty = Ok (r, objs') ->
  (r = None <-> omittedTag tags = true).
Proof.
  intros H. split; intros Hr.
  - subst. eapply parseASTFieldType_none; eauto.
  - destruct fuel as [|n]; simpl in H; [discriminate|].
    rewrite Hr in H. congruence.
Qed.

Lemma structFields_names pf fs acc (objs objs' : registry) vs :
  (forall fn tg ty ob r ob', pf fn tg ty ob = Ok (r, ob') ->
     (r = None <-> omittedTag tg = true)) ->
  structFields pf fs acc objs = Ok (vs, objs') ->
  map name vs = app (map name acc) (keptFields fs).
Proof.
  intros Hpf. revert acc objs.
  induction fs as [|f fs IH]; intros acc objs H; simpl in H.
  - injection H as <- <-. simpl. rewrite app_nil_r. reflexivity.
  - destruct f as [ns ty tg]. cbn [keptFields]. unfold keptField.
    cbn [Field_Names Field_Tag Field_Type] in *.
    destruct ns as [|n [|n2 ns]]; simpl in *; try (eapply IH; eauto; fail).
    destruct (isExportedField n) as [[|]|] eqn:Hex; try discriminate;
      try (eapply IH; eauto; fail).
    destruct (HasPrefix n "XXX_"); [eapply IH; eauto|].
    destruct (pf n (match tg with Some tg0 => tg0 | None => "" end) ty objs)
      as [[r ob']| | |] eqn:Hp; simpl in H; try discriminate.
    pose proof (Hpf _ _ _ _ _ _ Hp) as Hiff.
    destruct r as [elem|].
    + assert (Hom : omittedTag (match tg with Some tg0 => tg0 | None => "" end) = false).
      { destruct (omittedTag _) eqn:Ho; auto.
        destruct Hiff as [_ Hb]. specialize (Hb eq_refl). discriminate. }
      rewrite Hom. simpl in H. rewrite (IH _ _ H).
      rewrite map_app. simpl. rewrite <- app_assoc. reflexivity.
    + rewrite (proj1 Hiff eq_refl). eapply IH; eauto.
Qed.

(** C7: the container built from a struct lists its fields in declaration
    order, keeping exactly the single-name exported fields without the
    [XXX_] prefix and not tagged [ssz:"-"]; any other successful build of
    the same declaration (other fuel, raw items or registry state) yields
    the same field sequence. *)
Theorem parseASTStructType_field_order ext fuel raw (objs objs' : registry) nm fs v :
  parseASTStructType ext fuel raw objs nm fs = Ok (v, objs') ->
  t v = TypeContainer /\ map name (o v) = keptFields fs /\
  (forall fuel2 raw2 (objs2 objs2' : registry) v2,
     parseASTStructType ext fuel2 raw2 objs2 nm fs = Ok (v2, objs2') ->
     map name (o v2) = map name (o v)).
Proof.
  assert (Hgen : forall fuel raw (objs objs' : registry) v,
            parseASTStructType ext fuel raw objs nm fs = Ok (v, objs') ->
            t v = TypeContainer /\ map name (o v) = keptFields fs).
  { clear. intros fuel raw objs objs' v H.
    destruct fuel as [|n]; simpl in H; [discriminate|].
    destruct (structFields _ fs [] objs) as [[vs ob]| | |] eqn:Hs; simpl in H;
      try discriminate.
    injection H as <- <-. simpl. split; auto.
    rewrite (structFields_names _ _ _ _ _ _
               (fun fn tg ty ob0 r ob' Hp => parseASTFieldType_none_iff _ _ _ _ _ _ _ _ _ Hp)
               Hs).
    reflexivity. }
  intros H. destruct (Hgen _ _ _ _ _ H) as [Ht Hn].
  repeat split; auto.
  intros fuel2 raw2 objs2 objs2' v2 H2.
  destruct (Hgen _ _ _ _ _ H2) as [_ Hn2]. congruence.
Qed.

Lemma parseASTStructType_field_order_witness :
  exists v objs',
    parseASTStructType sampleDims 10 [barRaw] ∅ "Foo" fooFields = Ok (v, objs') /\
    keptFields fooFields = ["A"; "B"; "C"; "E"] /\
    (t v = TypeContainer /\ map name (o v) = keptFields fooFields /\
     (forall fuel2 raw2 (objs2 objs2' : registry) v2,
        parseASTStructType sampleDims fuel2 raw2 objs2 "Foo" fooFields = Ok (v2, objs2') ->
        map name (o v2) = map name (o v))).
Proof.
  assert (H : exists v objs',
             parseASTStructType sampleDims 10 [barRaw] ∅ "Foo" fooFields = Ok (v, objs'))
    by (eexists; eexists; reflexivity).
  destruct H as (v & objs' & H).
  exists v, objs'. split; [exact H|]. split; [reflexivity|].
  exact (parseASTStructType_field_order sampleDims 10 [barRaw] ∅ objs' "Foo" fooFields v H).
Defined.

(** ** Literal array lengths *)

Lemma dimStep_lit nm d lit a col col' :
  ParseUint0 lit = Some a ->
  dimStep nm d (Some (BasicLit lit)) col = Ok col' ->
  IsVector d = true /\ Z.of_nat (VectorLen d) = a /\
  t col' = TypeVector /\ s col' = a /\ c col' = true.
Proof.
  intros Hp H. unfold dimStep, arrayLen in H. rewrite Hp in H.
  destruct d as [[k|k] bl]; cbn in H.
  - destruct (Z.eqb (Z.of_nat k) a) eqn:E; cbn in H; [|discriminate].
    injection H as <-. apply Z.eqb_eq in E. cbn. auto.
  - discriminate.
Qed.

Lemma dimStep_lit_err nm d lit a col :
  ParseUint0 lit = Some a ->
  (IsVector d = false \/ Z.of_nat (VectorLen d) <> a) ->
  exists msg, dimStep nm d (Some (BasicLit lit)) col = Err msg.
Proof.
  intros Hp Hd. unfold dimStep, arrayLen. rewrite Hp.
  destruct d as [[k|k] bl]; cbn in *.
  - destruct Hd as [Hd|Hd]; [discriminate|].
    apply Z.eqb_neq in Hd. rewrite Hd. cbn. eauto.
  - eauto.
Qed.

Lemma set_e_fields v x :
  t (set_e v x) = t v /\ s (set_e v x) = s v /\ c (set_e v x) = c v.
Proof. destruct v; auto. Qed.

Lemma byteStep_fields d v : s (byteStep d v) = s v /\ c (byteStep d v) = c v.
Proof.
  destruct v; unfold byteStep; cbn.
  destruct (IsVector d), (IsBitlist d); auto.
Qed.

Lemma arrayLoop_cons pf nm d ds len elt col (objs : registry) :
  arrayLoop pf nm (d :: ds) len elt col objs =
  let* col := dimStep nm d len col in
  match elt with
  | ArrayType len' elt' =>
      let* r := arrayLoop pf nm ds len' elt' zeroValue objs in
      Ok (set_e col (Some (fst r)), snd r)
  | _ =>
      if isByteIdent elt then arrayLoop pf nm ds len elt (byteStep d col) objs
      else
        let* r := pf elt objs in
        arrayLoop pf nm ds len elt (set_e col (fst r)) (snd r)
  end.
Proof. reflexivity. Qed.

(** Every iteration of the dimension loop over a literal array length
    re-checks that length, so a successful run ends on a node of that
    length, marked as a literal array, of vector kind unless the element is
    [byte]. *)
Lemma arrayLoop_lit pf nm d ds lit a elt col (objs objs' : registry) v :
  ParseUint0 lit = Some a ->
  arrayLoop pf nm (d :: ds) (Some (BasicLit lit)) elt col objs = Ok (v, objs') ->
  s v = a /\ c v = true /\ (isByteIdent elt = false -> t v = TypeVector).
Proof.
  intros Hp. revert d col objs.
  induction ds as [|d' ds IH]; intros d col objs H;
    rewrite arrayLoop_cons in H;
    destruct (dimStep nm d (Some (BasicLit lit)) col) as [col'| | |] eqn:Hd;
    cbn [obind] in H; try discriminate;
    destruct (dimStep_lit _ _ _ _ _ _ Hp Hd) as (_ & _ & Ht & Hs & Hc).
  - destruct elt as [| | |len' elt'| | | |].
    all: try (cbn [isByteIdent] in H;
              destruct (pf _ objs) as [[r ob]| | |]; cbn [obind] in H; try discriminate;
              cbn [arrayLoop] in H; injection H as <- <-;
              destruct (set_e_fields col' r) as (-> & -> & ->); auto; fail).
    + cbn [isByteIdent] in *. destruct (String.eqb _ "byte") eqn:Eb.
      * cbn [arrayLoop] in H. injection H as <- <-.
        destruct (byteStep_fields d col') as [-> ->].
        split; [auto|split; [auto|intros; discriminate]].
      * destruct (pf _ objs) as [[r ob]| | |]; cbn [obind] in H; try discriminate.
        cbn [arrayLoop] in H. injection H as <- <-.
        destruct (set_e_fields col' r) as (-> & -> & ->); auto.
    + cbn [arrayLoop obind fst snd] in H. injection H as <- <-.
      destruct col'; cbn in *; subst; repeat split; auto.
  - destruct elt as [| | |len' elt'| | | |].
    all: try (cbn [isByteIdent] in H;
              destruct (pf _ objs) as [[r ob]| | |]; cbn [obind] in H; try discriminate;
              exact (IH _ _ _ H); fail).
    + cbn [isByteIdent] in *. destruct (String.eqb _ "byte") eqn:Eb.
      * exact (IH _ _ _ H).
      * destruct (pf _ objs) as [[r ob]| | |]; cbn [obind] in H; try discriminate.
        exact (IH _ _ _ H).
    + destruct (arrayLoop pf nm (d' :: ds) len' elt' zeroValue objs) as [[r ob]| | |];
        cbn [obind] in H; try discriminate.
      injection H as <- <-. destruct col'; cbn in *; auto.
Qed.

Lemma parseASTFieldType_array ext n raw (objs : registry) nm tags len elt :
  parseASTFieldType ext (S n) raw objs nm tags (ArrayType len elt) =
  if omittedTag tags then Ok (None, objs) else
  let* dims := ext tags in
  let* r := arrayLoop (fun ty objs => parseASTFieldType ext n raw objs nm tags ty)
              nm dims len elt zeroValue objs in
  Ok (Some (fst r), snd r).
Proof. reflexivity. Qed.

Lemma dimStep_keeps nm d len col col' :
  dimStep nm d len col = Ok col' -> e col' = e col /\ fixed col' = fixed col.
Proof.
  intros H. unfold dimStep in H.
  destruct (arrayLen nm len) as [[a|]| | |]; cbn [obind] in H; try discriminate.
  - destruct (negb _); [discriminate|]. destruct (negb _); [discriminate|].
    injection H as <-. destruct col, (IsVector d), (IsList d); split; reflexivity.
  - injection H as <-. destruct col, (IsVector d), (IsList d); split; reflexivity.
Qed.

(** With a literal length and a [byte] element, the dimension loop stays on
    one node and ends on a fixed node of kind [Bytes] ([BitList] when the
    last dimension is a bitlist dimension). *)
Lemma arrayLoop_lit_byte pf nm d ds lit a elt col (objs objs' : registry) v :
  ParseUint0 lit = Some a -> isByteIdent elt = true ->
  arrayLoop pf nm (d :: ds) (Some (BasicLit lit)) elt col objs = Ok (v, objs') ->
  exists dl, last (d :: ds) = Some dl /\
    t v = (if IsBitlist dl then TypeBitList else TypeBytes) /\ fixed v = true /\ e v = e col.
Proof.
  intros Hp Hb. destruct elt as [n| | | | | | |]; try discriminate Hb.
  revert d col objs.
  induction ds as [|d' ds IH]; intros d col objs H;
    rewrite arrayLoop_cons in H;
    destruct (dimStep nm d (Some (BasicLit lit)) col) as [col'| | |] eqn:Hd;
    cbn [obind] in H; try discriminate;
    destruct (dimStep_lit _ _ _ _ _ _ Hp Hd) as (Hv & _);
    destruct (dimStep_keeps _ _ _ _ _ Hd) as [He _];
    cbv beta iota in H; rewrite Hb in H.
  - cbn [arrayLoop] in H. injection H as <- <-. exists d. split; [reflexivity|].
    unfold byteStep. rewrite Hv. rewrite <- He.
    destruct (IsBitlist d), col'; repeat split; reflexivity.
  - destruct (IH d' (byteStep d col') objs H) as (dl & Hl & Ht & Hf & Hev).
    exists dl. split; [exact Hl|]. split; [exact Ht|]. split; [exact Hf|].
    rewrite Hev, <- He. unfold byteStep. destruct (IsVector d), (IsBitlist d), col'; reflexivity.
Qed.

(** C5 (counterexample): a literal array field tagged [ssz:"-"] is omitted
    without any check, although its [ssz-size] (5) disagrees with its
    literal length (4). *)
Lemma parseASTFieldType_omitted_array_counterexample :
  sampleDims omitSize5Tag = Ok [mkSSZDimension (VectorDim 5) false] /\
  parseASTFieldType sampleDims 1 [] ∅ "F" omitSize5Tag
    (ArrayType (Some (BasicLit "4")) (Ident "byte")) = Ok (None, ∅).
Proof. split; vm_compute; reflexivity. Qed.

(** C5 (amended): for an array field with literal length [a] that is not
    omitted by [ssz:"-"], whose tags give the dimensions [dims]: if the
    first dimension is not a vector dimension, or is one of another length,
    building the field fails with an error; and a successful build with at
    least one dimension yields a node of size [a] marked as a literal
    array, of vector kind unless the element type is [byte], in which case
    it is a fixed node of kind [Bytes] ([BitList] when the last dimension is
    a bitlist dimension) without element node (each further dimension on
    the same array re-checks [a]). *)
Theorem parseASTFieldType_array_literal ext n raw (objs : registry) nm tags lit elt dims a :
  omittedTag tags = false ->
  ext tags = Ok dims ->
  ParseUint0 lit = Some a ->
  (forall d, hd_error dims = Some d ->
     IsVector d = false \/ Z.of_nat (VectorLen d) <> a ->
     exists msg, parseASTFieldType ext (S n) raw objs nm tags
                   (ArrayType (Some (BasicLit lit)) elt) = Err msg) /\
  (forall v objs', dims <> [] ->
     parseASTFieldType ext (S n) raw objs nm tags
       (ArrayType (Some (BasicLit lit)) elt) = Ok (Some v, objs') ->
     s v = a /\ c v = true /\ (isByteIdent elt = false -> t v = TypeVector) /\
     (isByteIdent elt = true -> exists dl, last dims = Some dl /\
        t v = (if IsBitlist dl then TypeBitList else TypeBytes) /\
        fixed v = true /\ e v = None)).
Proof.
  intros Hom Hext Hp. rewrite parseASTFieldType_array, Hom, Hext. cbn [obind].
  split.
  - intros d Hd Hbad. destruct dims as [|d0 ds]; [discriminate|].
    injection Hd as ->. rewrite arrayLoop_cons.
    destruct (dimStep_lit_err nm d lit a zeroValue Hp Hbad) as [msg ->].
    cbn. eauto.
  - intros v objs' Hne H. destruct dims as [|d ds]; [congruence|].
    destruct (arrayLoop _ nm (d :: ds) _ elt zeroValue objs) as [[r ob]| | |] eqn:Hl;
      cbn [obind] in H; try discriminate.
    injection H as <- <-. cbn [fst].
    destruct (arrayLoop_lit _ _ _ _ _ _ _ _ _ _ _ Hp Hl) as (Hs & Hc & Hvec).
    split; [exact Hs|]. split; [exact Hc|]. split; [exact Hvec|].
    intros Hb. exact (arrayLoop_lit_byte _ _ _ _ _ _ _ _ _ _ _ Hp Hb Hl).
Qed.

Lemma parseASTFieldType_array_literal_witness :
  (exists v objs',
     parseASTFieldType sampleDims 3 [] ∅ "F" (tagOf "ssz-size" "4")
       (ArrayType (Some (BasicLit "4")) (Ident "byte")) = Ok (Some v, objs') /\
     s v = 4%Z /\ c v = true /\
     exists dl, last [mkSSZDimension (VectorDim 4) false] = Some dl /\
       t v = (if IsBitlist dl then TypeBitList else TypeBytes) /\ fixed v = true /\ e v = None) /\
  (exists msg, parseASTFieldType sampleDims 3 [] ∅ "F" (tagOf "ssz-size" "5")
                 (ArrayType (Some (BasicLit "4")) (Ident "byte")) = Err msg).
Proof.
  assert (H3 : ParseUint0 "4" = Some 4%Z) by (vm_compute; reflexivity).
  split.
  - assert (H1 : omittedTag (tagOf "ssz-size" "4") = false) by (vm_compute; reflexivity).
    assert (H2 : sampleDims (tagOf "ssz-size" "4") = Ok [mkSSZDimension (VectorDim 4) false])
      by (vm_compute; reflexivity).
    assert (H4 : exists v objs',
               parseASTFieldType sampleDims 3 [] ∅ "F" (tagOf "ssz-size" "4")
                 (ArrayType (Some (BasicLit "4")) (Ident "byte")) = Ok (Some v, objs'))
      by (eexists; eexists; reflexivity).
    destruct H4 as (v & objs' & H4). exists v, objs'. split; [exact H4|].
    destruct (proj2 (parseASTFieldType_array_literal sampleDims 2 [] ∅ "F" (tagOf "ssz-size" "4")
                       "4" (Ident "byte") _ 4%Z H1 H2 H3) v objs' ltac:(discriminate) H4)
      as (Hs & Hc & _ & Hb).
    split; [exact Hs|]. split; [exact Hc|]. exact (Hb eq_refl).
  - assert (H1 : omittedTag (tagOf "ssz-size" "5") = false) by (vm_compute; reflexivity).
    assert (H2 : sampleDims (tagOf "ssz-size" "5") = Ok [mkSSZDimension (VectorDim 5) false])
      by (vm_compute; reflexivity).
    apply (proj1 (parseASTFieldType_array_literal sampleDims 2 [] ∅ "F" (tagOf "ssz-size" "5")
                    "4" (Ident "byte") _ 4%Z H1 H2 H3) (mkSSZDimension (VectorDim 5) false)).
    + reflexivity.
    + right. cbn. lia.
Defined.

(** ** Byte sequences *)

(** With one dimension per nested array level, the innermost level of an
    array of [byte] is a single node of kind [Bytes] (or [BitList] for a
    bitlist dimension) without element node, fixed exactly for a vector
    dimension. *)
Lemma arrayLoop_bytes pf nm dims len elt (objs objs' : registry) v :
  byteArrayRank (ArrayType len elt) = Some (length dims) ->
  arrayLoop pf nm dims len elt zeroValue objs = Ok (v, objs') ->
  exists dl w, last dims = Some dl /\ descend (length dims - 1) v = Some w /\
    t w = (if IsBitlist dl then TypeBitList else TypeBytes) /\
    e w = None /\ fixed w = IsVector dl.
Proof.
  revert len elt objs v.
  induction dims as [|d ds IH]; intros len elt objs v Hr H.
  - cbn in Hr. destruct (isByteIdent elt); [discriminate|].
    destruct (byteArrayRank elt); discriminate.
  - rewrite arrayLoop_cons in H.
    destruct (dimStep nm d len zeroValue) as [col'| | |] eqn:Hd;
      cbn [obind] in H; try discriminate.
    destruct (dimStep_keeps _ _ _ _ _ Hd) as [He Hf].
    cbn [byteArrayRank] in Hr.
    destruct (isByteIdent elt) eqn:Eb.
    + injection Hr as Hl. destruct ds; [|discriminate].
      destruct elt; cbn [isByteIdent] in Eb; try discriminate.
      cbn [arrayLoop] in H. injection H as <- <-.
      exists d, (byteStep d col'). cbn. repeat split.
      * unfold byteStep. destruct col', (IsVector d), (IsBitlist d); reflexivity.
      * unfold byteStep. destruct col', (IsVector d), (IsBitlist d); exact He.
      * unfold byteStep. destruct col', (IsVector d), (IsBitlist d); cbn in *; auto.
    + assert (Hr' : byteArrayRank elt = Some (length ds)).
      { destruct (byteArrayRank elt); cbn in Hr; congruence. }
      destruct elt as [| | |len' elt'| | | |]; try discriminate.
      destruct (arrayLoop pf nm ds len' elt' zeroValue objs) as [[r ob]| | |] eqn:Hl;
        cbn [obind] in H; try discriminate.
      injection H as <- <-.
      destruct (IH _ _ _ _ Hr' Hl) as (dl & w & Hlast & Hw & Ht & Hew & Hfw).
      destruct ds as [|d' ds].
      { cbn in Hr'. destruct (isByteIdent elt'); [discriminate|].
        destruct (byteArrayRank elt'); discriminate. }
      exists dl, w. split; [exact Hlast|].
      split; [|auto].
      cbn [length]. replace (S (S (length ds)) - 1) with (S (S (length ds) - 1)) by lia.
      cbn [descend fst]. destruct col'; cbn. exact Hw.
Qed.

(** C6 (divergence): a field of type [[][]byte] whose tag gives a single
    [ssz-size] dimension raises no error: the model build succeeds, the
    field becomes a vector node whose element (the inner [[]byte] level) is
    an undefined node instead of a [Bytes] node, and printing the type then
    panics in [isFixed]. *)
Theorem generateIR_byte_rank_mismatch :
  exists env,
    generateIR sampleDims 20 [("a.go", bytesVecFile)] [] [] = Ok env /\
    option_map (fun v => map (fun f => (t f, option_map t (e f))) (o v)) (envObjs env !! "Foo")
      = Some [(TypeVector, Some TypeUndefined)] /\
    option_map isFixed (envObjs env !! "Foo") = Some None /\
    print ∅ (envObjs env) ["Foo"] = Panic "is fixed not implemented".
Proof.
  eexists. split; [reflexivity|]. vm_compute. split; [reflexivity|]. split; reflexivity.
Qed.

(** X17: when the tags give one dimension per nested array level of an
    array type whose innermost element is [byte], a successful build ends,
    at the innermost level, on a single node of kind [Bytes] ([BitList] for
    a bitlist dimension) with no element node, fixed exactly when the last
    dimension is a vector dimension. *)
Theorem parseASTFieldType_byte_collapse ext n raw (objs objs' : registry) nm tags len elt dims v :
  omittedTag tags = false ->
  ext tags = Ok dims ->
  byteArrayRank (ArrayType len elt) = Some (length dims) ->
  parseASTFieldType ext (S n) raw objs nm tags (ArrayType len elt) = Ok (Some v, objs') ->
  exists dl w, last dims = Some dl /\ descend (length dims - 1) v = Some w /\
    t w = (if IsBitlist dl then TypeBitList else TypeBytes) /\
    e w = None /\ fixed w = IsVector dl.
Proof.
  intros Hom Hext Hr H.
  rewrite parseASTFieldType_array, Hom, Hext in H. cbn [obind] in H.
  destruct (arrayLoop _ nm dims len elt zeroValue objs) as [[r ob]| | |] eqn:Hl;
    cbn [obind] in H; try discriminate.
  injection H as <- <-. exact (arrayLoop_bytes _ _ _ _ _ _ _ _ Hr Hl).
Qed.

Lemma parseASTFieldType_byte_collapse_witness :
  omittedTag (tagOf "ssz-size" "32") = false /\
  sampleDims (tagOf "ssz-size" "32") = Ok [mkSSZDimension (VectorDim 32) false] /\
  byteArrayRank (ArrayType None (Ident "byte")) = Some 1 /\
  exists v objs',
    parseASTFieldType sampleDims 3 [] ∅ "F" (tagOf "ssz-size" "32")
      (ArrayType None (Ident "byte")) = Ok (Some v, objs') /\
    exists dl w, last [mkSSZDimension (VectorDim 32) false] = Some dl /\
      descend 0 v = Some w /\
      t w = (if IsBitlist dl then TypeBitList else TypeBytes) /\
      e w = None /\ fixed w = IsVector dl.
Proof.
  assert (H1 : omittedTag (tagOf "ssz-size" "32") = false) by (vm_compute; reflexivity).
  assert (H2 : sampleDims (tagOf "ssz-size" "32") = Ok [mkSSZDimension (VectorDim 32) false])
    by (vm_compute; reflexivity).
  assert (H3 : byteArrayRank (ArrayType None (Ident "byte")) = Some 1) by reflexivity.
  split; [exact H1|]. split; [exact H2|]. split; [exact H3|].
  assert (H4 : exists v objs',
             parseASTFieldType sampleDims 3 [] ∅ "F" (tagOf "ssz-size" "32")
               (ArrayType None (Ident "byte")) = Ok (Some v, objs'))
    by (eexists; eexists; reflexivity).
  destruct H4 as (v & objs' & H4). exists v, objs'. split; [exact H4|].
  exact (parseASTFieldType_byte_collapse sampleDims 2 [] ∅ objs' "F" (tagOf "ssz-size" "32")
           None (Ident "byte") _ v H1 H2 H3 H4).
Defined.

(** ** The emitted procedure sets *)

Lemma printStep_ok excl objs nm out0 imps0 :
  (exists imps1, printStep excl objs (out0, imps0) nm =
                 Ok (app out0 (option_list (emitted excl objs nm)), imps1)) \/
  (forall x, printStep excl objs (out0, imps0) nm <> Ok x).
Proof.
  unfold printStep, emitted.
  destruct (default false (excl !! nm)).
  { left. exists imps0. cbn [option_list from_option]. rewrite app_nil_r. reflexivity. }
  destruct (objs !! nm) as [ob|].
  2:{ left. exists imps0. cbn [option_list from_option]. rewrite app_nil_r. reflexivity. }
  destruct (detectImports ob) as [refs|]; [|right; discriminate].
  destruct (isFixed ob) as [fx|]; [|right; discriminate].
  cbn [default from_option id]. left. eexists.
  destruct (fx && isBasicType ob); cbn [option_list from_option]; rewrite ?app_nil_r; reflexivity.
Qed.

Lemma printStep_fold_out excl objs order out0 imps0 out imps :
  foldM (printStep excl objs) order (out0, imps0) = Ok (out, imps) ->
  out = app out0 (omap (emitted excl objs) order).
Proof.
  revert out0 imps0. induction order as [|nm order IH]; intros out0 imps0 H.
  - cbn in H. injection H as <- <-. rewrite app_nil_r. reflexivity.
  - rewrite foldM_cons in H.
    destruct (printStep_ok excl objs nm out0 imps0) as [[imps1 Hs]|Hs].
    + rewrite Hs in H. cbn [obind] in H. rewrite (IH _ _ H). rewrite <- app_assoc.
      f_equal. cbn [omap list_omap]. destruct (emitted excl objs nm); reflexivity.
    + destruct (printStep excl objs (out0, imps0) nm) as [y| | |];
        [destruct (Hs y eq_refl)|discriminate..].
Qed.

(** C8 (counterexample): a container type listed in the excluded names
    gets no procedures although it is not a fixed-size basic alias. *)
Lemma print_excluded_counterexample :
  isFixed fooValue = Some true /\ isBasicType fooValue = false /\
  print (<["Foo" := true]> ∅) (<["Foo" := fooValue]> ∅) ["Foo"] = Ok ([], []).
Proof. vm_compute. auto. Qed.

(** C8 (amended): the procedure sets [print] emits are, in the order of
    [order], one per name that is not excluded ([--exclude-objs]), has a
    model in the registry, and whose model is not a fixed-size basic alias
    (a fixed [uint], [bool] or [Bytes] node); each comes with that model. *)
Theorem print_emits excl (objs : registry) order out imps :
  print excl objs order = Ok (out, imps) ->
  out = omap (emitted excl objs) order.
Proof.
  intros H. exact (printStep_fold_out _ _ _ _ _ _ _ H).
Qed.

Lemma print_emits_witness :
  print ∅ (<["Foo" := fooValue]> (<["U" := basicValue TypeUint 8]> ∅)) ["Foo"; "U"; "Bar"] =
    Ok ([("Foo", fooValue)], []) /\
  [("Foo", fooValue)] =
    omap (emitted ∅ (<["Foo" := fooValue]> (<["U" := basicValue TypeUint 8]> ∅))) ["Foo"; "U"; "Bar"].
Proof.
  assert (H : print ∅ (<["Foo" := fooValue]> (<["U" := basicValue TypeUint 8]> ∅))
                ["Foo"; "U"; "Bar"] = Ok ([("Foo", fooValue)], [])) by (vm_compute; reflexivity).
  split; [exact H|]. exact (print_emits _ _ _ _ _ H).
Defined.

(** ** Struct names shared across packages *)

(** C4 (divergence): a source package [a] and an include package [b] both
    declaring [Foo] pass the duplicate check, and the model is built; the
    field [F] of [a.Bar], which points to [b.Foo], receives the model of
    [a.Foo] (field [A]) instead of [b.Foo]'s fields [X] and [Y]. *)
Theorem generateIR_cross_package_duplicate :
  exists env,
    generateIR sampleDims 20 [("a.go", pkgAFile)] [("b.go", pkgBFile)] [] = Ok env /\
    option_map (fun v => map (fun f => (name f, ref f, map name (o f))) (o v))
      (envObjs env !! "Bar") = Some [("F", "b", ["A"])].
Proof. eexists. split; [reflexivity|]. vm_compute. reflexivity. Qed.

(** ** Types implementing the four methods *)

Lemma implMethod_func T f0 rs fname params results :
  implMethod T (FuncDecl (Some (f0 :: rs)) fname params results) =
  match Field_Type f0 with
  | StarExpr (Ident objName) =>
      String.eqb objName T &&
      match isFuncDecl fname params results with Some true => true | _ => false end
  | _ => false
  end.
Proof. reflexivity. Qed.

Lemma declStep_count p decls objs0 fr0 objs fr T :
  foldM (declStep p) decls (objs0, fr0) = Ok (objs, fr) ->
  default 0 (fr !! T) =
    default 0 (fr0 !! T) + length (filter (fun d => implMethod T d = true) decls).
Proof.
  revert objs0 fr0. induction decls as [|dec decls IH]; intros objs0 fr0 H.
  - cbn in H. injection H as <- <-. cbn. lia.
  - rewrite foldM_cons in H. rewrite filter_cons.
    destruct dec as [specs|[[|f0 rs]|] fname params results]; cbn [declStep obind] in H;
      try discriminate.
    + rewrite (IH _ _ H). reflexivity.
    + destruct (Field_Type f0) as [| x | | | | | |] eqn:Hf;
        try (rewrite (IH _ _ H), implMethod_func, Hf;
             destruct (decide (false = true)); [discriminate|reflexivity]).
      destruct x as [objName| | | | | | |];
        try (rewrite (IH _ _ H), implMethod_func, Hf;
             destruct (decide (false = true)); [discriminate|reflexivity]).
      rewrite implMethod_func, Hf.
      destruct (isFuncDecl fname params results) as [[|]|]; try discriminate.
      * rewrite (IH _ _ H).
        destruct (String.eqb_spec objName T) as [->|Hne]; cbn [andb].
        -- rewrite lookup_insert_eq. cbn [default from_option id].
           destruct (decide (true = true)) as [_|Hc]; [cbn [length]; lia|congruence].
        -- rewrite lookup_insert_ne by congruence.
           destruct (decide (false = true)); [discriminate|reflexivity].
      * rewrite (IH _ _ H). rewrite andb_false_r.
        destruct (decide (false = true)); [discriminate|reflexivity].
    + rewrite (IH _ _ H). reflexivity.
Qed.

Lemma declObjs_fresh p sp it :
  In it (declObjs p sp) -> Raw.implFunc it = false /\ Raw.packName it = p.
Proof.
  destruct sp as [n ty|]; [|cbn; intros []].
  destruct ty; cbn; intros Hin; try destruct Hin as [<-|[]]; auto; contradiction.
Qed.

Lemma declStep_objs p decls objs0 fr0 objs fr :
  foldM (declStep p) decls (objs0, fr0) = Ok (objs, fr) ->
  Forall (fun it => Raw.implFunc it = false /\ Raw.packName it = p) objs0 ->
  Forall (fun it => Raw.implFunc it = false /\ Raw.packName it = p) objs.
Proof.
  intros H H0.
  refine (foldM_inv (fun st => Forall (fun it => Raw.implFunc it = false /\ Raw.packName it = p)
                                      (fst st)) (declStep p) decls (objs0, fr0) (objs, fr)
                    H0 _ H).
  intros [ob f] dec [ob' f'] Hy _ Hs. cbn [fst] in *.
  destruct dec as [specs|[[|f0 rs]|] fname params results]; cbn [declStep] in Hs;
    try discriminate.
  - injection Hs as <- <-. apply Forall_app. split; [exact Hy|].
    apply Forall_forall. intros it Hin.
    apply list_elem_of_In, in_concat in Hin as (l & Hl & Hin).
    apply in_map_iff in Hl as (sp & <- & _).
    exact (declObjs_fresh _ _ _ Hin).
  - destruct (Field_Type f0) as [| [] | | | | | |]; try (injection Hs as <- <-; exact Hy).
    destruct (isFuncDecl fname params results) as [[|]|]; try discriminate;
      injection Hs as <- <-; exact Hy.
  - injection Hs as <- <-. exact Hy.
Qed.

(** What [decodeASTStruct] reports of a file: its package, the receivers
    with exactly four recognised methods in this file, and fresh raw
    items of that package. *)
Lemma decodeASTStruct_spec f res :
  decodeASTStruct f = Ok res ->
  Raw.resPackName res = FileName f /\
  (forall T, In T (Raw.funcs res) <-> methodCount f T = 4) /\
  Forall (fun it => Raw.implFunc it = false /\ Raw.packName it = FileName f) (Raw.objs res).
Proof.
  unfold decodeASTStruct. intros H.
  destruct (foldM (declStep (FileName f)) (Decls f) ([], ∅)) as [[objs fr]| | |] eqn:Hf;
    cbn [obind] in H; try discriminate.
  injection H as <-. cbn. split; [reflexivity|]. split.
  - intros T. pose proof (declStep_count _ _ _ _ _ _ T Hf) as Hc.
    rewrite lookup_empty in Hc. cbn [default from_option] in Hc. unfold methodCount.
    rewrite in_map_iff. split.
    + intros [[k c] [Hk Hin]]. cbn in Hk. subst k.
      apply list_elem_of_In, list_elem_of_filter in Hin as [Hc4 Hin]. cbn in Hc4. subst c.
      apply elem_of_map_to_list in Hin. rewrite Hin in Hc. cbn in Hc. lia.
    + intros H4. destruct (fr !! T) as [k|] eqn:E; cbn in Hc; [|lia].
      exists (T, k). split; [reflexivity|].
      apply list_elem_of_In, list_elem_of_filter. split; [cbn; lia|].
      apply elem_of_map_to_list. exact E.
  - apply (declStep_objs _ _ _ _ _ _ Hf). constructor.
Qed.

Lemma rawKey_set_implFunc it b : rawKey (Raw.set_implFunc it b) = rawKey it.
Proof. destruct it; reflexivity. Qed.

Lemma set_implFunc_same it : Raw.set_implFunc it (Raw.implFunc it) = it.
Proof. destruct it; reflexivity. Qed.

Lemma markKeys_none c raw :
  (forall it, In it raw -> c (rawKey it) = false) -> markKeys c raw = raw.
Proof.
  induction raw as [|it raw IH]; intros Hc; [reflexivity|].
  cbn. rewrite (Hc it (or_introl eq_refl)), orb_false_r, set_implFunc_same.
  f_equal. apply IH. intros x Hx. apply Hc. right. exact Hx.
Qed.

Lemma markKeys_keys c raw : map rawKey (markKeys c raw) = map rawKey raw.
Proof.
  induction raw as [|it raw IH]; [reflexivity|]. cbn. rewrite rawKey_set_implFunc. f_equal. exact IH.
Qed.

Lemma markKeys_compose c1 c2 raw :
  markKeys c2 (markKeys c1 raw) = markKeys (fun k => c1 k || c2 k) raw.
Proof.
  unfold markKeys. rewrite map_map. apply map_ext. intros it.
  rewrite rawKey_set_implFunc. destruct it; cbn. rewrite orb_assoc. reflexivity.
Qed.

Lemma markKeys_ext c1 c2 raw : (forall k, c1 k = c2 k) -> markKeys c1 raw = markKeys c2 raw.
Proof.
  intros Hc. unfold markKeys. apply map_ext. intros it. rewrite Hc. reflexivity.
Qed.

(** With one raw item per key, [markImplFunc] marks exactly the item of
    key [(n, p)]. *)
Lemma markImplFunc_keys raw p n :
  NoDup (map rawKey raw) ->
  markImplFunc raw p n = markKeys (fun k => String.eqb k.1 n && String.eqb k.2 p) raw.
Proof.
  induction raw as [|it rest IH]; intros Hnd; [reflexivity|].
  cbn [map] in Hnd. apply NoDup_cons in Hnd as [Hnin Hnd].
  cbn [markImplFunc]. unfold markKeys at 1. cbn [map].
  change (String.eqb (rawKey it).1 n && String.eqb (rawKey it).2 p)
    with (String.eqb (Raw.name it) n && String.eqb (Raw.packName it) p).
  destruct (String.eqb (Raw.name it) n && String.eqb (Raw.packName it) p) eqn:E.
  - rewrite orb_true_r. f_equal. symmetry.
    refine (markKeys_none (fun k => String.eqb k.1 n && String.eqb k.2 p) rest _).
    intros x Hx. destruct (String.eqb (rawKey x).1 n && String.eqb (rawKey x).2 p) eqn:Ex;
      [|reflexivity].
    exfalso. apply Hnin. apply list_elem_of_In, in_map_iff. exists x. split; [|exact Hx].
    apply andb_true_iff in E as [E1 E2]. apply andb_true_iff in Ex as [Ex1 Ex2].
    apply String.eqb_eq in E1, E2, Ex1, Ex2.
    destruct x, it; unfold rawKey in *; cbn in *; congruence.
  - rewrite orb_false_r, set_implFunc_same. f_equal. apply IH; exact Hnd.
Qed.

(** The loop of [checkImplFunc] over the names [ns] of package [p]. *)
Lemma markLoop_keys p ns raw raw' :
  NoDup (map rawKey raw) ->
  foldM (fun raw nm =>
    match checkObjByPackage raw p nm with
    | None => Err ("cannot find " ++ nm ++ " struct")
    | Some _ => Ok (markImplFunc raw p nm)
    end) ns raw = Ok raw' ->
  raw' = markKeys (fun k => String.eqb k.2 p && existsb (String.eqb k.1) ns) raw.
Proof.
  revert raw. induction ns as [|n ns IH]; intros raw Hnd H.
  - cbn in H. injection H as <-. symmetry. apply markKeys_none.
    intros it _. apply andb_false_r.
  - rewrite foldM_cons in H.
    destruct (checkObjByPackage raw p n); cbn [obind] in H; [|discriminate].
    rewrite (markImplFunc_keys _ _ _ Hnd) in H.
    rewrite (IH _ (eq_ind_r (fun l => NoDup l) Hnd (markKeys_keys _ _)) H).
    rewrite markKeys_compose. apply markKeys_ext. intros [k1 k2]. cbn.
    destruct (String.eqb k1 n), (String.eqb k2 p), (existsb (String.eqb k1) ns); reflexivity.
Qed.

Lemma checkImplFunc_keys raw res raw' :
  NoDup (map rawKey raw) ->
  checkImplFunc raw res = Ok raw' ->
  raw' = markKeys (fun k => String.eqb k.2 (Raw.resPackName res) &&
                            existsb (String.eqb k.1) (Raw.funcs res)) raw.
Proof. unfold checkImplFunc. apply markLoop_keys. Qed.

Lemma checkImplFuncs_keys results raw raw' :
  NoDup (map rawKey raw) ->
  foldM checkImplFunc results raw = Ok raw' ->
  raw' = markKeys (fun k => existsb (fun res => String.eqb k.2 (Raw.resPackName res) &&
                                     existsb (String.eqb k.1) (Raw.funcs res)) results) raw.
Proof.
  revert raw. induction results as [|res results IH]; intros raw Hnd H.
  - cbn in H. injection H as <-. symmetry. apply markKeys_none. reflexivity.
  - rewrite foldM_cons in H.
    destruct (checkImplFunc raw res) as [raw1| | |] eqn:Hc; cbn [obind] in H; try discriminate.
    rewrite (checkImplFunc_keys _ _ _ Hnd Hc) in H.
    rewrite (IH _ (eq_ind_r (fun l => NoDup l) Hnd (markKeys_keys _ _)) H).
    rewrite markKeys_compose. apply markKeys_ext. intros k. reflexivity.
Qed.

Lemma checkObjByPackage_none raw p n :
  checkObjByPackage raw p n = None -> (n, p) ∉ map rawKey raw.
Proof.
  unfold checkObjByPackage. intros H Hin.
  apply list_elem_of_In, in_map_iff in Hin as (it & Hk & Hit).
  pose proof (find_none _ _ H it Hit) as Hf. cbn in Hf.
  unfold rawKey in Hk. injection Hk as Hn Hp. rewrite Hn, Hp, !String.eqb_refl in Hf.
  discriminate.
Qed.

(** [addStructs] appends the new items, marked [isRef], keeping one raw
    item per key. *)
Lemma addStructs_spec raw res b raw' :
  NoDup (map rawKey raw) ->
  addStructs raw res b = Ok raw' ->
  raw' = app raw (map (fun i => Raw.set_isRef i b) (Raw.objs res)) /\
  NoDup (map rawKey raw').
Proof.
  unfold addStructs. generalize (Raw.objs res) as l. intros l. revert raw.
  induction l as [|i l IH]; intros raw Hnd H.
  - cbn in H. injection H as <-. rewrite app_nil_r. auto.
  - rewrite foldM_cons in H.
    destruct (checkObjByPackage raw (Raw.packName i) (Raw.name i)) eqn:Hc;
      cbn [obind] in H; [discriminate|].
    assert (Hnd' : NoDup (map rawKey (app raw [Raw.set_isRef i b]))).
    { rewrite map_app. apply NoDup_app. split; [exact Hnd|]. split.
      - intros k Hk Hk'. cbn in Hk'. apply list_elem_of_singleton in Hk'. subst k.
        apply (checkObjByPackage_none _ _ _ Hc). destruct i; exact Hk.
      - apply NoDup_singleton. }
    destruct (IH _ Hnd' H) as [-> Hnd''].
    split; [|exact Hnd'']. rewrite <- app_assoc. reflexivity.
Qed.

(** One of the two loops of [buildRaw]: each file is decoded and its items
    are added. *)
Lemma buildLoop_spec (b : bool)
    (F : list astStruct * list (string * list string) * list astResult -> string * File ->
         outcome (list astStruct * list (string * list string) * list astResult))
    l raw order results raw' order' results' :
  (forall raw order results nf st',
     F (raw, order, results) nf = Ok st' ->
     exists res raw1 order1, decodeASTStruct (snd nf) = Ok res /\
       addStructs raw res b = Ok raw1 /\ st' = (raw1, order1, app results [res])) ->
  foldM F l (raw, order, results) = Ok (raw', order', results') ->
  NoDup (map rawKey raw) -> Forall (fun it => Raw.implFunc it = false) raw ->
  NoDup (map rawKey raw') /\ Forall (fun it => Raw.implFunc it = false) raw' /\
  exists rs, results' = app results rs /\
    Forall2 (fun nf res => decodeASTStruct (snd nf) = Ok res) l rs.
Proof.
  intros HF. revert raw order results.
  induction l as [|nf l IH]; intros raw order results H Hnd Hf.
  - cbn in H. injection H as <- <- <-. split; [exact Hnd|]. split; [exact Hf|].
    exists []. rewrite app_nil_r. auto.
  - rewrite foldM_cons in H.
    destruct (F (raw, order, results) nf) as [st'| | |] eqn:Hs; cbn [obind] in H;
      try discriminate.
    destruct (HF _ _ _ _ _ Hs) as (res & raw1 & order1 & Hd & Ha & ->).
    destruct (addStructs_spec _ _ _ _ Hnd Ha) as [-> Hnd1].
    destruct (decodeASTStruct_spec _ _ Hd) as (_ & _ & Hfresh).
    assert (Hf1 : Forall (fun it => Raw.implFunc it = false)
                    (app raw (map (fun i => Raw.set_isRef i b) (Raw.objs res)))).
    { apply Forall_app. split; [exact Hf|]. apply Forall_fmap.
      eapply Forall_impl; [exact Hfresh|]. intros it [Hi _]. destruct it; exact Hi. }
    destruct (IH _ _ _ H Hnd1 Hf1) as (Hnd' & Hf' & rs & -> & Hrs).
    split; [exact Hnd'|]. split; [exact Hf'|].
    exists (res :: rs). split; [rewrite <- app_assoc; reflexivity|].
    constructor; assumption.
Qed.

Lemma existsb_eqb_In (a : string) l : existsb (String.eqb a) l = true <-> In a l.
Proof.
  rewrite existsb_exists. split.
  - intros (x & Hx & E). apply String.eqb_eq in E. subst. exact Hx.
  - intros Hin. exists a. split; [exact Hin|apply String.eqb_refl].
Qed.

(** The raw items [buildRaw] returns: one per decoded type, each marked as
    implementing the methods exactly when some decoded file of its package
    lists it among its receivers with four recognised methods. *)
Lemma buildRaw_spec files include raw order results :
  buildRaw files include = Ok (raw, order, results) ->
  Forall2 (fun nf res => decodeASTStruct (snd nf) = Ok res) (app files include) results /\
  forall it, In it raw ->
    (Raw.implFunc it = true <->
     exists res, In res results /\ Raw.resPackName res = Raw.packName it /\
                 In (Raw.name it) (Raw.funcs res)).
Proof.
  unfold buildRaw. intros H.
  destruct (foldM _ files ([], [], [])) as [[[raw1 order1] res1]| | |] eqn:H1;
    cbn [obind] in H; try discriminate.
  destruct (foldM _ include (raw1, order1, res1)) as [[[raw2 order2] res2]| | |] eqn:H2;
    cbn [obind] in H; try discriminate.
  destruct (foldM checkImplFunc res2 raw2) as [raw3| | |] eqn:H3;
    cbn [obind] in H; try discriminate.
  injection H as <- <- <-.
  apply (buildLoop_spec false) in H1 as (Hnd1 & Hf1 & rs1 & Hrs1 & Hdec1).
  2:{ intros raw order results nf st' Hs.
      destruct (decodeASTStruct (snd nf)) as [res| | |] eqn:Hd; cbn [obind] in Hs;
        try discriminate.
      destruct (addStructs raw res false) as [raw0| | |] eqn:Ha; cbn [obind] in Hs;
        try discriminate.
      injection Hs as <-. eauto 6. }
  2: constructor.
  2: constructor.
  apply (buildLoop_spec true) in H2 as (Hnd2 & Hf2 & rs2 & Hrs2 & Hdec2).
  2:{ intros raw order results nf st' Hs.
      destruct (decodeASTStruct (snd nf)) as [res| | |] eqn:Hd; cbn [obind] in Hs;
        try discriminate.
      destruct (addStructs raw res true) as [raw0| | |] eqn:Ha; cbn [obind] in Hs;
        try discriminate.
      injection Hs as <-. eauto 6. }
  2: exact Hnd1.
  2: exact Hf1.
  subst res1 res2. cbn [app]. split; [apply Forall2_app; assumption|].
  rewrite (checkImplFuncs_keys _ _ _ Hnd2 H3).
  intros it Hit. unfold markKeys in Hit. apply in_map_iff in Hit as (it0 & <- & Hin0).
  rewrite Forall_forall in Hf2.
  rewrite (Hf2 it0 (proj2 (list_elem_of_In _ _) Hin0)).
  destruct it0 as [n0 ob0 p0 ty0 impl0 ref0]. cbn. rewrite existsb_exists.
  split.
  - intros (res & Hres & E). apply andb_true_iff in E as [E1 E2].
    apply String.eqb_eq in E1. apply existsb_eqb_In in E2. eauto.
  - intros (res & Hres & Ep & Hn). exists res. split; [exact Hres|].
    apply andb_true_iff. split; [apply String.eqb_eq; congruence|].
    apply existsb_eqb_In. exact Hn.
Qed.

Lemma parseASTStructType_container ext fuel raw (objs objs' : registry) nm fs v :
  parseASTStructType ext fuel raw objs nm fs = Ok (v, objs') -> t v = TypeContainer.
Proof.
  destruct fuel as [|n]; cbn [parseASTStructType]; [discriminate|].
  destruct (structFields _ fs [] objs) as [[vs ob]| | |]; cbn [obind]; try discriminate.
  intros H. injection H as <- <-. reflexivity.
Qed.

Lemma Forall2_decoded_exists (Q : astResult -> Prop) (l : list (string * File)) rs :
  Forall2 (fun nf res => decodeASTStruct (snd nf) = Ok res) l rs ->
  (exists res, In res rs /\ Q res) <->
  (exists nf res, In nf l /\ decodeASTStruct (snd nf) = Ok res /\ Q res).
Proof.
  induction 1 as [|nf res l rs Hd Hall IH]; cbn.
  - split; [intros (? & [] & _)|intros (? & ? & [] & _)].
  - split.
    + intros (r & [<-|Hr] & Hq); [eauto 6|].
      destruct (proj1 IH (ex_intro _ r (conj Hr Hq))) as (nf' & r' & ? & ? & ?). eauto 6.
    + intros (nf' & r & [<-|Hn] & Hd' & Hq).
      * rewrite Hd in Hd'. injection Hd' as <-. eauto.
      * destruct (proj2 IH (ex_intro _ nf' (ex_intro _ r (conj Hn (conj Hd' Hq)))))
          as (r' & ? & ?). eauto.
Qed.

Lemma Forall2_in_left {X Y} (R : X -> Y -> Prop) l rs x :
  Forall2 R l rs -> In x l -> exists y, In y rs /\ R x y.
Proof.
  induction 1 as [|a b l rs Hab _ IH]; cbn; [intros []|].
  intros [<-|Hx]; [eauto|]. destruct (IH Hx) as (y & Hy & Hr). eauto.
Qed.

Lemma implMethodNames_length f T : length (implMethodNames f T) = methodCount f T.
Proof.
  unfold implMethodNames, methodCount. induction (Decls f) as [|d ds IH]; [reflexivity|].
  rewrite filter_cons. cbn [flat_map]. destruct d as [specs|recv fname params results].
  - rewrite decide_False by discriminate. exact IH.
  - destruct (implMethod T (FuncDecl recv fname params results)) eqn:E.
    + rewrite decide_True by reflexivity. cbn. f_equal. exact IH.
    + rewrite decide_False by discriminate. exact IH.
Qed.

Lemma isFuncDecl_name fname params results :
  isFuncDecl fname params results = Some true -> In fname sszMethods.
Proof.
  unfold isFuncDecl, sszMethods.
  destruct (String.eqb fname "SizeSSZ") eqn:E1; [apply String.eqb_eq in E1; subst; cbn; auto|].
  destruct (String.eqb fname "MarshalSSZTo") eqn:E2; [apply String.eqb_eq in E2; subst; cbn; auto|].
  destruct (String.eqb fname "UnmarshalSSZ") eqn:E3; [apply String.eqb_eq in E3; subst; cbn; auto|].
  destruct (String.eqb fname "HashTreeRootWith") eqn:E4; [apply String.eqb_eq in E4; subst; cbn; auto|].
  discriminate.
Qed.

Lemma implMethodNames_incl f T : incl (implMethodNames f T) sszMethods.
Proof.
  unfold implMethodNames. induction (Decls f) as [|d ds IH]; [intros m []|].
  destruct d as [specs|recv fname params results]; cbn [flat_map]; [exact IH|].
  destruct (implMethod T (FuncDecl recv fname params results)) eqn:Ei; [|exact IH].
  intros m [<-|Hm]; [|exact (IH m Hm)].
  unfold implMethod in Ei. destruct recv as [[|f0 rs]|]; try discriminate.
  destruct (Field_Type f0) as [| [] | | | | | |]; try discriminate.
  apply andb_true_iff in Ei as [_ Ei].
  destruct (isFuncDecl fname params results) as [[|]|] eqn:Ef; try discriminate.
  exact (isFuncDecl_name _ _ _ Ef).
Qed.

(** A file declaring no recognised method twice on [*T] has four of them
    exactly when it has each of the four names. *)
Lemma methodCount_four f T :
  NoDup (implMethodNames f T) ->
  methodCount f T = 4 <-> forall m, In m sszMethods -> In m (implMethodNames f T).
Proof.
  intros Hnd. apply NoDup_ListNoDup in Hnd.
  pose proof (implMethodNames_incl f T) as Hin.
  assert (Hs : List.NoDup sszMethods).
  { unfold sszMethods. repeat constructor; cbn; intuition discriminate. }
  rewrite <- implMethodNames_length. split.
  - intros Hl. eapply List.NoDup_length_incl; [exact Hnd|cbn; lia|exact Hin].
  - intros Hall. pose proof (List.NoDup_incl_length Hnd Hin) as H1.
    pose proof (List.NoDup_incl_length Hs Hall) as H2. cbn in H1, H2. lia.
Qed.

Lemma generateIR_buildRaw ext fuel files include targets env :
  generateIR ext fuel files include targets = Ok env ->
  exists order results, buildRaw files include = Ok (envRaw env, order, results).
Proof.
  unfold generateIR. intros H.
  destruct (fold_left _ files (Ok [])) as [imps| | |]; cbn [obind] in H; try discriminate.
  destruct (buildRaw files include) as [[[raw order] results]| | |] eqn:Hb;
    cbn [obind] in H; try discriminate.
  destruct (fold_left _ raw (Ok ∅)) as [objs| | |]; cbn [obind] in H; try discriminate.
  injection H as <-. cbn. eauto.
Qed.

(** C3 (counterexample): the struct [Foo] is declared in a file without
    any of the four methods; another file of its package declares all four
    on [*Foo]; the model of [Foo] is a [Reference] node. *)
Lemma generateIR_methods_elsewhere_counterexample :
  methodCount fooDeclFile "Foo" = 0 /\ methodCount fooMethodsFile "Foo" = 4 /\
  exists env,
    generateIR sampleDims 20 [("a.go", fooDeclFile); ("b.go", fooMethodsFile)] [] [] = Ok env /\
    option_map t (envObjs env !! "Foo") = Some TypeReference.
Proof.
  split; [reflexivity|]. split; [reflexivity|].
  eexists. split; [reflexivity|]. vm_compute. reflexivity.
Qed.

(** C3 (amended): after a successful [generateIR], and for source files in
    which, as Go requires, no method is declared twice on one receiver, a
    raw type is marked as implementing the four methods exactly when some
    single file of its package (source or include) declares on its pointer
    receiver all four methods [SizeSSZ() int],
    [MarshalSSZTo([]byte) ([]byte, error)], [UnmarshalSSZ([]byte) error] and
    [HashTreeRootWith] taking a [*ssz.Hasher] and returning [error], with
    these exact signatures; this need not be the declaring file.  Building
    a type that is not yet in the registry then gives a [Reference] node for
    a marked type, a [Container] for an unmarked struct, and for an unmarked
    non-struct the node of its underlying type expression. *)
Theorem generateIR_reference_capture ext fuel files include targets env :
  (forall nf T, In nf (app files include) -> NoDup (implMethodNames (snd nf) T)) ->
  generateIR ext fuel files include targets = Ok env ->
  (forall it, In it (envRaw env) ->
     (Raw.implFunc it = true <->
      exists nf, In nf (app files include) /\ FileName (snd nf) = Raw.packName it /\
                 forall m, In m sszMethods -> In m (implMethodNames (snd nf) (Raw.name it)))) /\
  (forall n (objs objs' : registry) nm tags rw v,
     getRawItemByName (envRaw env) nm = Some rw -> objs !! nm = None ->
     encodeItem ext (S n) (envRaw env) objs nm tags = Ok (v, objs') ->
     (Raw.implFunc rw = true -> t v = TypeReference) /\
     (Raw.implFunc rw = false -> Raw.obj rw <> None -> t v = TypeContainer) /\
     (Raw.implFunc rw = false -> Raw.obj rw = None ->
        exists ty v0 objs1, Raw.typ rw = Some ty /\
          parseASTFieldType ext n (envRaw env) objs nm tags ty = Ok (Some v0, objs1) /\
          t v = t v0)).
Proof.
  intros Hgo H. split.
  - destruct (generateIR_buildRaw _ _ _ _ _ _ H) as (order & results & Hb).
    destruct (buildRaw_spec _ _ _ _ _ Hb) as [Hdec Hmark].
    intros it Hit. rewrite (Hmark it Hit).
    rewrite (Forall2_decoded_exists
               (fun res => Raw.resPackName res = Raw.packName it /\
                           In (Raw.name it) (Raw.funcs res)) _ _ Hdec).
    split.
    + intros (nf & res & Hnf & Hd & Hp & Hn).
      destruct (decodeASTStruct_spec _ _ Hd) as (Hpk & Hfun & _).
      exists nf. split; [exact Hnf|]. split; [congruence|].
      apply (methodCount_four _ _ (Hgo nf _ Hnf)). apply Hfun. exact Hn.
    + intros (nf & Hnf & Hp & Hc).
      destruct (Forall2_in_left _ _ _ _ Hdec Hnf) as (res & _ & Hd).
      destruct (decodeASTStruct_spec _ _ Hd) as (Hpk & Hfun & _).
      exists nf, res. split; [exact Hnf|]. split; [exact Hd|].
      split; [congruence|]. apply Hfun.
      apply (methodCount_four _ _ (Hgo nf _ Hnf)). exact Hc.
  - intros n objs objs' nm tags rw v Hrw Hnone Henc.
    cbn [encodeItem] in Henc. rewrite Hnone, Hrw in Henc.
    destruct (Raw.implFunc rw) eqn:Hi.
    + cbn [wrapErr obind] in Henc. injection Henc as Hv _. subst v.
      split; [reflexivity|]. split; intros; discriminate.
    + destruct (Raw.obj rw) as [fs|] eqn:Ho.
      * destruct (parseASTStructType ext n (envRaw env) objs nm fs) as [[r ob]| | |] eqn:Hp;
          cbn [wrapErr obind] in Henc; try discriminate.
        injection Henc as Hv _. subst v.
        split; [discriminate|]. split; [|discriminate].
        intros _ _. destruct r; cbn.
        exact (parseASTStructType_container _ _ _ _ _ _ _ _ Hp).
      * destruct (Raw.typ rw) as [ty|] eqn:Hty; cbn [wrapErr obind] in Henc;
          [|discriminate].
        destruct (parseASTFieldType ext n (envRaw env) objs nm tags ty)
          as [[[v0|] ob]| | |] eqn:Hp; cbn [wrapErr obind fst snd] in Henc; try discriminate.
        injection Henc as Hv _. subst v.
        split; [discriminate|]. split; [intros _ Hc; congruence|].
        intros _ _. exists ty, v0, ob. split; [reflexivity|]. split; [exact Hp|].
        destruct v0; reflexivity.
Qed.

Lemma sszMethods_NoDup : NoDup sszMethods.
Proof. apply NoDup_ListNoDup. unfold sszMethods. repeat constructor; cbn; intuition discriminate. Qed.

Lemma fooMethods_names : implMethodNames fooMethodsFile "Foo" = sszMethods.
Proof. reflexivity. Qed.

Lemma generateIR_reference_capture_witness :
  (forall nf T, In nf (app [("a.go", fooDeclFile); ("b.go", fooMethodsFile)] []) ->
     NoDup (implMethodNames (snd nf) T)) /\
  exists env,
    generateIR sampleDims 20 [("a.go", fooDeclFile); ("b.go", fooMethodsFile)] [] [] = Ok env /\
    (forall it, In it (envRaw env) ->
       (Raw.implFunc it = true <->
        exists nf, In nf (app [("a.go", fooDeclFile); ("b.go", fooMethodsFile)] []) /\
                   FileName (snd nf) = Raw.packName it /\
                   forall m, In m sszMethods -> In m (implMethodNames (snd nf) (Raw.name it)))).
Proof.
  assert (Hnd : forall nf T, In nf (app [("a.go", fooDeclFile); ("b.go", fooMethodsFile)] []) ->
                  NoDup (implMethodNames (snd nf) T)).
  { intros nf T Hnf. cbn in Hnf. destruct Hnf as [<-|[<-|[]]].
    - constructor.
    - destruct (String.eqb_spec "Foo" T) as [<-|Hne].
      + cbn [snd]. rewrite fooMethods_names. exact sszMethods_NoDup.
      + assert (E : String.eqb "Foo" T = false) by (apply String.eqb_neq; exact Hne).
        unfold implMethodNames, fooMethodsFile, recvFoo. cbn [snd Decls flat_map].
        rewrite !implMethod_func. cbn [Field_Type]. rewrite E. cbn. constructor. }
  split; [exact Hnd|].
  assert (H : exists env,
    generateIR sampleDims 20 [("a.go", fooDeclFile); ("b.go", fooMethodsFile)] [] [] = Ok env)
    by (eexists; reflexivity).
  destruct H as [env H]. exists env. split; [exact H|].
  exact (proj1 (generateIR_reference_capture _ _ _ _ _ _ Hnd H)).
Defined.

(** ** The heap model: [copy] and the builder *)
Section HeapFacts.
Import Heap.

Lemma ptrsBelow_spec n cl :
  ptrsBelow n cl = true <->
  (forall x, In x (co cl) -> x < n) /\ (forall x, ce cl = Some x -> x < n).
Proof.
  unfold ptrsBelow. rewrite andb_true_iff, List.forallb_forall.
  split.
  - intros [H1 H2]. split.
    + intros x Hx. apply Nat.ltb_lt, H1, Hx.
    + intros x Hx. rewrite Hx in H2. apply Nat.ltb_lt, H2.
  - intros [H1 H2]. split.
    + intros x Hx. apply Nat.ltb_lt, H1, Hx.
    + destruct (ce cl) as [x|]; [apply Nat.ltb_lt, H2; reflexivity|reflexivity].
Qed.

Lemma ptrsBelow_mono n n' cl :
  n <= n' -> ptrsBelow n cl = true -> ptrsBelow n' cl = true.
Proof.
  intros Hn. rewrite !ptrsBelow_spec. intros [H1 H2].
  split; intros x Hx; [specialize (H1 x Hx)|specialize (H2 x Hx)]; lia.
Qed.

Lemma closedb_spec h : closedb h = true <-> closed h.
Proof.
  unfold closedb, closed. rewrite List.forallb_forall. split.
  - intros H l cl Hl. apply H. apply list_elem_of_In.
    eapply list_elem_of_lookup_2. exact Hl.
  - intros H cl Hin. apply list_elem_of_In in Hin.
    destruct (list_elem_of_lookup_1 _ _ Hin) as [i Hi]. exact (H _ _ Hi).
Qed.

Lemma regValidb_spec h objs :
  regValidb h objs = true <-> forall k l, objs !! k = Some l -> l < length h.
Proof.
  unfold regValidb. rewrite List.forallb_forall. split.
  - intros H k l Hk. apply Nat.ltb_lt. apply (H (k, l)).
    apply list_elem_of_In. apply elem_of_map_to_list. exact Hk.
  - intros H [k l] Hin. apply list_elem_of_In, elem_of_map_to_list in Hin.
    apply Nat.ltb_lt. exact (H _ _ Hin).
Qed.

Lemma closed_reach h l k : closed h -> l < length h -> reach h l k -> k < length h.
Proof.
  intros Hc Hl Hr.
  induction Hr as [l|l cl x k Hl' Hx Hr IH|l cl x k Hl' Hx Hr IH]; [exact Hl| |];
    apply IH; destruct (proj1 (ptrsBelow_spec _ _) (Hc _ _ Hl')) as [H1 H2]; auto.
Qed.

Lemma reach_agree h h' l k :
  (forall k, reach h l k -> h' !! k = h !! k) -> reach h' l k -> reach h l k.
Proof.
  intros H Hr. revert H.
  induction Hr as [l|l cl x k Hl Hx Hr IH|l cl x k Hl Hx Hr IH]; intros H.
  - apply reach_here.
  - assert (Hl0 : h !! l = Some cl) by (rewrite <- (H l (reach_here _ _)); exact Hl).
    apply (reach_o _ _ _ _ _ Hl0 Hx). apply IH.
    intros k' Hk'. apply H. exact (reach_o _ _ _ _ _ Hl0 Hx Hk').
  - assert (Hl0 : h !! l = Some cl) by (rewrite <- (H l (reach_here _ _)); exact Hl).
    apply (reach_e _ _ _ _ _ Hl0 Hx). apply IH.
    intros k' Hk'. apply H. exact (reach_e _ _ _ _ _ Hl0 Hx Hk').
Qed.

Lemma tree_agree h h' g : forall l,
  (forall k, reach h l k -> h' !! k = h !! k) -> tree_of g h' l = tree_of g h l.
Proof.
  induction g as [|g IH]; intros l H; [reflexivity|].
  cbn [tree_of]. rewrite (H l (reach_here _ _)).
  destruct (h !! l) as [cl|] eqn:Hl; [|reflexivity].
  rewrite (map_ext_in (tree_of g h') (tree_of g h) (co cl)).
  2:{ intros x Hx. apply IH. intros k Hk. apply H. exact (reach_o _ _ _ _ _ Hl Hx Hk). }
  destruct (ce cl) as [x|] eqn:He; [|reflexivity].
  rewrite (IH x); [reflexivity|].
  intros k Hk. apply H. exact (reach_e _ _ _ _ _ Hl He Hk).
Qed.

(** A heap that keeps the cells below [N] keeps what is reachable from a
    node whose reachable cells are all below [N]. *)
Lemma below_agree N h h' l :
  (forall k, k < N -> h' !! k = h !! k) -> (forall k, reach h l k -> k < N) ->
  (forall k, reach h' l k -> reach h l k) /\ (forall g, tree_of g h' l = tree_of g h l).
Proof.
  intros Hag Hr.
  assert (H : forall k, reach h l k -> h' !! k = h !! k) by (intros k Hk; apply Hag, Hr, Hk).
  split; [intros k; exact (reach_agree _ _ _ _ H)|intros g; exact (tree_agree _ _ _ _ H)].
Qed.

Lemma insert_closed h l cl :
  closed h -> ptrsBelow (length h) cl = true -> closed (<[l:=cl]> h).
Proof.
  intros Hc Hp j c Hj. rewrite length_insert.
  apply list_lookup_insert_Some in Hj as [(-> & <- & _)|(_ & Hj)]; eauto.
Qed.

Lemma snoc_closed h cl :
  closed h -> ptrsBelow (length h) cl = true -> closed (app h [cl]).
Proof.
  intros Hc Hp j c Hj. rewrite length_app. cbn [length].
  apply (ptrsBelow_mono (length h)); [lia|].
  apply lookup_app_Some in Hj as [Hj|(Hge & Hj)]; [eauto|].
  apply list_lookup_singleton_Some in Hj as [_ <-]. exact Hp.
Qed.

Lemma snoc_lookup_lt (h : heap) (cl : Cell) k : k < length h -> (app h [cl]) !! k = h !! k.
Proof. intros Hk. apply lookup_app_l. exact Hk. Qed.

Lemma modify_length h l f : length (modify h l f) = length h.
Proof. unfold modify. destruct (h !! l); [apply length_insert|reflexivity]. Qed.

Lemma modify_lookup_ne h l f k : l <> k -> modify h l f !! k = h !! k.
Proof.
  intros Hne. unfold modify. destruct (h !! l); [|reflexivity].
  apply list_lookup_insert_ne. exact Hne.
Qed.

Lemma modify_closed h l f :
  closed h -> (forall cl, h !! l = Some cl -> ptrsBelow (length h) (f cl) = true) ->
  closed (modify h l f).
Proof.
  intros Hc Hf. unfold modify. destruct (h !! l) as [cl|] eqn:Hl; [|exact Hc].
  apply insert_closed; [exact Hc|]. apply Hf. reflexivity.
Qed.

Lemma Forall2_impl_in {X Y} (P Q : X -> Y -> Prop) xs ys :
  Forall2 P xs ys -> (forall x y, In x xs -> In y ys -> P x y -> Q x y) -> Forall2 Q xs ys.
Proof.
  induction 1 as [|x y xs ys Hp _ IH]; intros H; constructor.
  - apply H; [left; reflexivity|left; reflexivity|exact Hp].
  - apply IH. intros x' y' Hx Hy. apply H; right; assumption.
Qed.

Lemma Forall2_map_eq {X Y Z} (f : X -> Z) (g : Y -> Z) xs ys :
  Forall2 (fun x y => f x = g y) xs ys -> map f xs = map g ys.
Proof. induction 1; cbn; congruence. Qed.

Lemma allSome_map_some {X} (f : X -> option Value) xs :
  (forall x, In x xs -> exists v, f x = Some v) -> exists vs, allSome (map f xs) = Some vs.
Proof.
  induction xs as [|x xs IH]; intros H; cbn; [eauto|].
  destruct (H x (or_introl eq_refl)) as [v ->].
  destruct IH as [vs ->]; [intros y Hy; apply H; right; exact Hy|]. cbn. eauto.
Qed.

(** Writing a cell that is not reachable from [l] keeps what is reachable
    from [l]. *)
Lemma insert_agree (h : heap) j c l :
  (forall k, reach h l k -> k <> j) ->
  (forall k, reach (<[j:=c]> h) l k -> reach h l k) /\
  (forall g, tree_of g (<[j:=c]> h) l = tree_of g h l).
Proof.
  intros Hj.
  assert (H : forall k, reach h l k -> <[j:=c]> h !! k = h !! k)
    by (intros k Hk; apply list_lookup_insert_ne; intros ->; exact (Hj _ Hk eq_refl)).
  split; [intros k; exact (reach_agree _ _ _ _ H)|intros g; exact (tree_agree _ _ _ _ H)].
Qed.

Section CopyLoop.
Variable F : nat.
Variable cp : heap -> loc -> outcome (heap * loc).
Hypothesis cp_spec : forall h l h' l',
  closed h -> l < length h -> cp h l = Ok (h', l') ->
  length h <= length h' /\ (forall k, k < length h -> h' !! k = h !! k) /\ closed h' /\
  (forall k, reach h' l' k -> length h <= k < length h') /\
  (forall g, tree_of g h' l' = tree_of g h l) /\ (exists v, tree_of F h l = Some v).

Lemma copyList_spec xs : forall h h' ys,
  closed h -> (forall x, In x xs -> x < length h) -> copyList cp h xs = Ok (h', ys) ->
  length h <= length h' /\ (forall k, k < length h -> h' !! k = h !! k) /\ closed h' /\
  (forall y k, In y ys -> reach h' y k -> length h <= k < length h') /\
  Forall2 (fun x y => (forall g, tree_of g h' y = tree_of g h x) /\
                      exists v, tree_of F h x = Some v) xs ys.
Proof.
  induction xs as [|x xs IH]; intros h h' ys Hc Hxs Hcp; cbn [copyList] in Hcp.
  - injection Hcp as <- <-. split; [lia|]. split; [reflexivity|]. split; [exact Hc|].
    split; [intros y k []|constructor].
  - destruct (cp h x) as [[h1 y]| | |] eqn:H1; cbn [obind] in Hcp; try discriminate.
    destruct (copyList cp h1 xs) as [[h2 ys']| | |] eqn:H2; cbn [obind] in Hcp;
      try discriminate.
    injection Hcp as <- <-.
    destruct (cp_spec _ _ _ _ Hc (Hxs x (or_introl eq_refl)) H1)
      as (Hl1 & Ha1 & Hc1 & Hr1 & Ht1 & Hs1).
    assert (Hxs' : forall x', In x' xs -> x' < length h1).
    { intros x' Hx'. specialize (Hxs x' (or_intror Hx')). lia. }
    destruct (IH _ _ _ Hc1 Hxs' H2) as (Hl2 & Ha2 & Hc2 & Hr2 & Hf2).
    destruct (below_agree (length h1) h1 h2 y Ha2 (fun k Hk => proj2 (Hr1 k Hk)))
      as [Hry Hty].
    assert (Hold : forall x', x' < length h ->
              forall g, tree_of g h1 x' = tree_of g h x').
    { intros x' Hx'. apply (below_agree (length h)); [exact Ha1|].
      intros k Hk. exact (closed_reach _ _ _ Hc Hx' Hk). }
    split; [lia|]. split.
    { intros k Hk. rewrite Ha2 by lia. apply Ha1. exact Hk. }
    split; [exact Hc2|]. split.
    + intros y0 k [<-|Hy0] Hk.
      * specialize (Hr1 k (Hry k Hk)). lia.
      * specialize (Hr2 y0 k Hy0 Hk). lia.
    + constructor.
      * split; [intros g; rewrite Hty; apply Ht1|exact Hs1].
      * apply (Forall2_impl_in _ _ _ _ Hf2). intros x' y' Hx' _ [Ht Hs].
        specialize (Hxs x' (or_intror Hx')). split.
        -- intros g. rewrite Ht. apply Hold. exact Hxs.
        -- rewrite <- (Hold x' Hxs F). exact Hs.
Qed.

Lemma copyOpt_spec ox h2 h3 oe :
  closed h2 -> (forall x, ox = Some x -> x < length h2) ->
  copyOpt cp h2 ox = Ok (h3, oe) ->
  length h2 <= length h3 /\ (forall k, k < length h2 -> h3 !! k = h2 !! k) /\ closed h3 /\
  (forall y k, oe = Some y -> reach h3 y k -> length h2 <= k < length h3) /\
  match ox, oe with
  | None, None => True
  | Some x, Some y =>
      (forall g, tree_of g h3 y = tree_of g h2 x) /\ exists v, tree_of F h2 x = Some v
  | _, _ => False
  end.
Proof.
  intros Hc Hx H. destruct ox as [x|]; cbn [copyOpt] in H.
  - destruct (cp h2 x) as [[h y]| | |] eqn:H1; cbn [obind] in H; try discriminate.
    injection H as <- <-.
    destruct (cp_spec _ _ _ _ Hc (Hx x eq_refl) H1) as (Hl & Ha & Hc' & Hr & Ht & Hs).
    split; [exact Hl|]. split; [exact Ha|]. split; [exact Hc'|]. split.
    + intros y' k Hy Hk. injection Hy as <-. exact (Hr k Hk).
    + split; [exact Ht|exact Hs].
  - injection H as <- <-. split; [lia|]. split; [reflexivity|]. split; [exact Hc|].
    split; [intros y k Hy; discriminate|exact I].
Qed.
End CopyLoop.

(** [copy] allocates fresh cells only, leaves the old ones untouched, and
    the tree it builds equals the tree it copies. *)
Lemma copy_spec f : forall h l h' l',
  closed h -> l < length h -> copy f h l = Ok (h', l') ->
  length h <= length h' /\ (forall k, k < length h -> h' !! k = h !! k) /\ closed h' /\
  (forall k, reach h' l' k -> length h <= k < length h') /\
  (forall g, tree_of g h' l' = tree_of g h l) /\ (exists v, tree_of f h l = Some v).
Proof.
  induction f as [|f IH]; intros h l h' l' Hc Hl Hcp; [discriminate|].
  cbn [copy] in Hcp.
  destruct (h !! l) as [cl|] eqn:Hcl; [|discriminate].
  destruct (proj1 (ptrsBelow_spec _ _) (Hc _ _ Hcl)) as [Hco Hce].
  assert (Hc1 : closed (app h [cl])) by (apply snoc_closed; [exact Hc|exact (Hc _ _ Hcl)]).
  assert (Hl1 : length (app h [cl]) = S (length h)) by (rewrite length_app; cbn; lia).
  assert (Ha1 : forall k, k < length h -> (app h [cl]) !! k = h !! k)
    by (intros k Hk; apply snoc_lookup_lt, Hk).
  remember (app h [cl]) as h1 eqn:Eh1.
  destruct (copyList (copy f) h1 (co cl)) as [[h2 os]| | |] eqn:H2; cbn [obind] in Hcp;
    try discriminate.
  destruct (copyList_spec f (copy f) IH (co cl) h1 h2 os Hc1
              (fun x Hx => ltac:(specialize (Hco x Hx); lia)) H2)
    as (Hl2 & Ha2 & Hc2 & Hr2 & Hf2).
  destruct (copyOpt (copy f) h2 (ce cl)) as [[h3 oe]| | |] eqn:H3; cbn [obind] in Hcp;
    try discriminate.
  destruct (copyOpt_spec f (copy f) IH (ce cl) h2 h3 oe Hc2
              (fun x Hx => ltac:(specialize (Hce x Hx); lia)) H3)
    as (Hl3 & Ha3 & Hc3 & Hr3 & Hm3).
  injection Hcp as <- <-.
  (* the cells below [length h] are the same in [h], [h2] and [h3] *)
  assert (Hold2 : forall k, k < length h -> h2 !! k = h !! k)
    by (intros k Hk; rewrite Ha2 by lia; apply Ha1, Hk).
  assert (Hold3 : forall k, k < length h -> h3 !! k = h !! k)
    by (intros k Hk; rewrite Ha3 by lia; apply Hold2, Hk).
  assert (Hreach_old : forall x, x < length h -> forall k, reach h x k -> k < length h)
    by (intros x Hx k Hk; exact (closed_reach _ _ _ Hc Hx Hk)).
  (* the copies of the fields, as seen in [h3] *)
  assert (Hos : forall y, In y os ->
            (forall k, reach h3 y k -> length h1 <= k < length h2) /\
            (forall g, tree_of g h3 y = tree_of g h2 y)).
  { intros y Hy.
    destruct (below_agree (length h2) h2 h3 y Ha3 (fun k Hk => proj2 (Hr2 y k Hy Hk)))
      as [Hr Ht].
    split; [intros k Hk; exact (Hr2 y k Hy (Hr k Hk))|exact Ht]. }
  set (cl' := mkCell (node cl) os oe).
  assert (Hcl' : ptrsBelow (length h3) cl' = true).
  { apply ptrsBelow_spec. cbn. split.
    - intros y Hy. destruct (Hos y Hy) as [Hr _]. specialize (Hr y (reach_here _ _)). lia.
    - intros y Hy. specialize (Hr3 y y Hy (reach_here _ _)). lia. }
  assert (Hvv : length h < length h3) by lia.
  assert (Hlk : <[length h := cl']> h3 !! length h = Some cl')
    by (apply list_lookup_insert_eq; exact Hvv).
  (* the children of the new cell do not reach it *)
  assert (Hkids : forall y, (In y os \/ oe = Some y) ->
            (forall k, reach (<[length h := cl']> h3) y k -> length h1 <= k < length h3) /\
            (forall g, tree_of g (<[length h := cl']> h3) y = tree_of g h3 y)).
  { intros y Hy.
    assert (Hb : forall k, reach h3 y k -> length h1 <= k < length h3).
    { intros k Hk. destruct Hy as [Hy|Hy].
      - destruct (Hos y Hy) as [Hr _]. specialize (Hr k Hk). lia.
      - specialize (Hr3 y k Hy Hk). lia. }
    destruct (insert_agree h3 (length h) cl' y
                (fun k Hk => ltac:(specialize (Hb k Hk); lia))) as [Hr Ht].
    split; [intros k Hk; exact (Hb k (Hr k Hk))|exact Ht]. }
  split; [rewrite length_insert; lia|].
  split.
  { intros k Hk. rewrite list_lookup_insert_ne by lia. apply Hold3, Hk. }
  split; [apply insert_closed; assumption|].
  split.
  { intros k Hk. rewrite length_insert.
    inversion Hk as [|l0 c0 x k0 Hl0 Hx Hxk|l0 c0 x k0 Hl0 Hx Hxk]; subst.
    - lia.
    - rewrite Hlk in Hl0. injection Hl0 as <-.
      destruct (Hkids x (or_introl Hx)) as [Hb _]. specialize (Hb k Hxk). lia.
    - rewrite Hlk in Hl0. injection Hl0 as <-.
      destruct (Hkids x (or_intror Hx)) as [Hb _]. specialize (Hb k Hxk). lia. }
  split.
  - intros [|g]; [reflexivity|]. cbn [tree_of]. rewrite Hlk, Hcl. cbn [co ce node cl'].
    rewrite (Forall2_map_eq (tree_of g h) (tree_of g (<[length h := cl']> h3)) (co cl) os).
    2:{ apply (Forall2_impl_in _ _ _ _ Hf2). intros x y Hx Hy [Ht _].
        destruct (Hkids y (or_introl Hy)) as [_ Ht'].
        destruct (Hos y Hy) as [_ Ht''].
        rewrite Ht', Ht'', Ht.
        symmetry. apply (below_agree (length h)); [exact Ha1|].
        exact (Hreach_old x (Hco x Hx)). }
    destruct (ce cl) as [x|] eqn:Hx; destruct oe as [y|]; try contradiction; [|reflexivity].
    destruct Hm3 as [Ht _].
    destruct (Hkids y (or_intror eq_refl)) as [_ Ht'].
    rewrite Ht', Ht.
    rewrite (proj2 (below_agree (length h) h h2 x Hold2 (Hreach_old x (Hce x eq_refl))) g).
    reflexivity.
  - cbn [tree_of]. rewrite Hcl.
    destruct (allSome_map_some (tree_of f h) (co cl)) as [vs ->].
    { intros x Hx. destruct (Forall2_in_left _ _ _ _ Hf2 Hx) as (y & _ & _ & v & Hv).
      exists v. rewrite <- Hv. symmetry.
      apply (below_agree (length h)); [exact Ha1|]. exact (Hreach_old x (Hco x Hx)). }
    destruct (ce cl) as [x|] eqn:Hx; destruct oe as [y|]; try contradiction; [|eauto].
    destruct Hm3 as [_ [v Hv]].
    rewrite (proj2 (below_agree (length h) h h2 x Hold2 (Hreach_old x (Hce x eq_refl))) f) in Hv.
    rewrite Hv. cbn. eauto.
Qed.

Lemma wrapErr_ok {A} pre (r : outcome A) x : wrapErr pre r = Ok x -> r = Ok x.
Proof. destruct r; cbn; congruence. Qed.

Lemma inv_snoc h objs v : inv h objs -> inv (app h [mkCell v [] None]) objs.
Proof.
  intros [Hc Hr]. split.
  - apply snoc_closed; [exact Hc|reflexivity].
  - intros k l Hk. rewrite length_app. specialize (Hr k l Hk). cbn. lia.
Qed.

Lemma newSome_inv h objs v ol h' objs' :
  inv h objs -> newSome h objs v = Ok (ol, (h', objs')) ->
  inv h' objs' /\ length h <= length h' /\ forall l, ol = Some l -> l < length h'.
Proof.
  unfold newSome, new. intros Hi H. injection H as <- <- <-.
  split; [apply inv_snoc, Hi|]. rewrite length_app. cbn [length].
  split; [lia|]. intros l Hl. injection Hl as <-. lia.
Qed.

Lemma inv_modify h objs l f :
  inv h objs -> (forall cl, h !! l = Some cl -> ptrsBelow (length h) (f cl) = true) ->
  inv (modify h l f) objs.
Proof.
  intros [Hc Hr] Hf. split; [apply modify_closed; assumption|].
  rewrite modify_length. exact Hr.
Qed.

Lemma inv_modify_node h objs l g : inv h objs -> inv (modify h l (setNode g)) objs.
Proof.
  intros Hi. apply inv_modify; [exact Hi|]. intros cl Hcl. exact (proj1 Hi _ _ Hcl).
Qed.

Lemma inv_insert_node h objs l cl g :
  inv h objs -> h !! l = Some cl -> inv (<[l := setNode g cl]> h) objs.
Proof.
  intros [Hc Hr] Hcl. split.
  - apply insert_closed; [exact Hc|exact (Hc _ _ Hcl)].
  - rewrite length_insert. exact Hr.
Qed.

Lemma inv_register h objs nm v :
  inv h objs -> v < length h -> inv h (<[nm := v]> objs).
Proof.
  intros [Hc Hr] Hv. split; [exact Hc|].
  intros k l Hk. apply lookup_insert_Some in Hk as [(_ & <-)|(_ & Hk)]; eauto.
Qed.

(** The field loop of [parseASTStructType] keeps the invariant. *)
Lemma structFields_inv pf v fs :
  (forall fname tags ty h objs ol h' objs',
     inv h objs -> pf fname tags ty h objs = Ok (ol, (h', objs')) ->
     inv h' objs' /\ length h <= length h' /\ forall l, ol = Some l -> l < length h') ->
  forall h objs h' objs',
  inv h objs -> structFields pf v fs h objs = Ok (h', objs') -> v < length h ->
  inv h' objs' /\ length h <= length h'.
Proof.
  intros Hpf. induction fs as [|f fs IH]; intros h objs h' objs' Hi Hs Hv;
    cbn [structFields] in Hs.
  - injection Hs as <- <-. split; [exact Hi|lia].
  - destruct (Field_Names f) as [|fname [|? ?]]; try exact (IH _ _ _ _ Hi Hs Hv).
    destruct (isExportedField fname) as [[|]|]; [|exact (IH _ _ _ _ Hi Hs Hv)|discriminate].
    destruct (HasPrefix fname "XXX_"); [exact (IH _ _ _ _ Hi Hs Hv)|].
    destruct (pf _ _ _ h objs) as [[ol [h1 objs1]]| | |] eqn:Hp; cbn [obind] in Hs;
      try discriminate.
    destruct (Hpf _ _ _ _ _ _ _ _ Hi Hp) as (Hi1 & Hl1 & Hol).
    destruct ol as [elem|].
    + specialize (Hol elem eq_refl).
      assert (Hi2 : inv (modify h1 elem (setNode (fun x => set_name x fname))) objs1)
        by (apply inv_modify_node, Hi1).
      assert (Hi3 : inv (modify (modify h1 elem (setNode (fun x => set_name x fname))) v
                        (fun cl => setCo (app (co cl) [elem]) cl)) objs1).
      { apply inv_modify; [exact Hi2|]. intros cl Hcl.
        pose proof (proj1 Hi2 _ _ Hcl) as Hp0. rewrite modify_length in *.
        apply ptrsBelow_spec in Hp0 as [H1 H2]. apply ptrsBelow_spec. cbn. split.
        - intros x Hx. apply in_app_or in Hx as [Hx|[<-|[]]]; [exact (H1 x Hx)|exact Hol].
        - exact H2. }
      destruct (IH _ _ _ _ Hi3 Hs ltac:(rewrite !modify_length; lia)) as [Hi' Hl'].
      rewrite !modify_length in Hl'. split; [exact Hi'|lia].
    + destruct (IH _ _ _ _ Hi1 Hs ltac:(lia)) as [Hi' Hl']. split; [exact Hi'|lia].
Qed.

(** The dimension loop of the [*ast.ArrayType] case keeps the invariant. *)
Lemma arrayLoop_inv pf nm dims :
  (forall ty h objs ol h' objs',
     inv h objs -> pf ty h objs = Ok (ol, (h', objs')) ->
     inv h' objs' /\ length h <= length h' /\ forall l, ol = Some l -> l < length h') ->
  forall len elt collection h objs h' objs',
  inv h objs -> arrayLoop pf nm dims len elt collection h objs = Ok (h', objs') ->
  collection < length h ->
  inv h' objs' /\ length h <= length h'.
Proof.
  intros Hpf. induction dims as [|d ds IH]; intros len elt collection h objs h' objs' Hi Hs Hc;
    cbn [arrayLoop] in Hs.
  - injection Hs as <- <-. split; [exact Hi|lia].
  - destruct (h !! collection) as [cl|] eqn:Hcl; [|discriminate].
    destruct (dimStep nm d len (node cl)) as [col| | |]; cbn [obind] in Hs; try discriminate.
    pose proof (inv_insert_node _ _ _ _ (fun _ => col) Hi Hcl) as Hi0.
    assert (Hl0 : length (<[collection := setNode (fun _ => col) cl]> h) = length h)
      by apply length_insert.
    remember (<[collection := setNode (fun _ => col) cl]> h) as h0 eqn:Eh0.
    destruct elt as [n|x|x sel|len' elt'|v|fs| |k].
    4:{ unfold new in Hs.
        assert (Hi1 : inv (modify (app h0 [mkCell zeroValue [] None]) collection
                             (setCe (Some (length h0)))) objs).
        { apply inv_modify; [apply inv_snoc, Hi0|]. intros cl1 Hcl1.
          pose proof (proj1 (inv_snoc _ _ zeroValue Hi0) _ _ Hcl1) as Hp0.
          apply ptrsBelow_spec in Hp0 as [H1 _]. apply ptrsBelow_spec. cbn.
          rewrite length_app in H1 |- *. cbn [length] in H1 |- *. split; [intros x Hx; apply H1, Hx|].
          intros x Hx. injection Hx as <-. lia. }
        destruct (IH _ _ _ _ _ _ _ Hi1 Hs ltac:(rewrite modify_length, length_app; cbn; lia))
          as [Hi' Hl'].
        rewrite modify_length, length_app in Hl'. cbn [length] in Hl'.
        split; [exact Hi'|lia]. }
    all: destruct (isByteIdent _).
    all: try (destruct (IH _ _ _ _ _ _ _ (inv_modify_node _ _ _ (byteStep d) Hi0)
                          Hs ltac:(rewrite modify_length; lia)) as [Hi' Hl'];
              rewrite modify_length in Hl'; split; [exact Hi'|lia]).
    all: destruct (pf _ h0 objs) as [[ol [h1 objs1]]| | |] eqn:Hp; cbn [obind] in Hs;
      try discriminate.
    all: destruct (Hpf _ _ _ _ _ _ Hi0 Hp) as (Hi1 & Hl1 & Hol).
    all: assert (Hi2 : inv (modify h1 collection (setCe ol)) objs1) by
           (apply inv_modify; [exact Hi1|]; intros cl1 Hcl1;
            pose proof (proj1 Hi1 _ _ Hcl1) as Hp0;
            apply ptrsBelow_spec in Hp0 as [H1 _]; apply ptrsBelow_spec; cbn;
            split; [exact H1|exact Hol]).
    all: destruct (IH _ _ _ _ _ _ _ Hi2 Hs ltac:(rewrite modify_length; lia)) as [Hi' Hl'];
      rewrite modify_length in Hl'; split; [exact Hi'|lia].
Qed.

(** The builder keeps the invariant and only grows the heap; the nodes
    it returns are allocated. *)
Lemma builder_inv ext fuel :
  (forall raw h objs nm tags v h' objs', inv h objs ->
     encodeItem ext fuel raw h objs nm tags = Ok (v, (h', objs')) ->
     inv h' objs' /\ length h <= length h' /\ v < length h') /\
  (forall raw h objs nm fs v h' objs', inv h objs ->
     parseASTStructType ext fuel raw h objs nm fs = Ok (v, (h', objs')) ->
     inv h' objs' /\ length h <= length h' /\ v < length h') /\
  (forall raw h objs nm tags ty ol h' objs', inv h objs ->
     parseASTFieldType ext fuel raw h objs nm tags ty = Ok (ol, (h', objs')) ->
     inv h' objs' /\ length h <= length h' /\ forall l, ol = Some l -> l < length h').
Proof.
  induction fuel as [|n [IHe [IHs IHf]]].
  { split; [|split]; intros; discriminate. }
  split; [|split].
  - intros raw h objs nm tags v h' objs' Hi H. cbn [encodeItem] in H.
    destruct (objs !! nm) as [v0|] eqn:Hn.
    + destruct (copy n h v0) as [[h1 vv]| | |] eqn:Hc; cbn [obind] in H; try discriminate.
      injection H as <- <- <-.
      destruct (copy_spec _ _ _ _ _ (proj1 Hi) (proj2 Hi _ _ Hn) Hc)
        as (Hl1 & _ & Hc1 & Hr1 & _).
      specialize (Hr1 _ (reach_here _ _)).
      split; [split; [exact Hc1|]|lia].
      intros k l Hk. pose proof (proj2 Hi _ _ Hk). lia.
    + destruct (getRawItemByName raw nm) as [rw|]; [|discriminate].
      destruct (wrapErr _ _) as [[v1 [h1 objs1]]| | |] eqn:Hw; cbn [obind] in H;
        try discriminate.
      apply wrapErr_ok in Hw.
      assert (Hb : inv h1 objs1 /\ length h <= length h1 /\ v1 < length h1).
      { destruct (Raw.implFunc rw).
        - unfold new in Hw. injection Hw as <- <- <-.
          split; [apply inv_snoc, Hi|]. rewrite length_app. cbn [length]. lia.
        - destruct (Raw.obj rw) as [fs|].
          + exact (IHs _ _ _ _ _ _ _ _ Hi Hw).
          + destruct (Raw.typ rw) as [ty|]; [|discriminate].
            destruct (parseASTFieldType ext n raw h objs nm tags ty)
              as [[ol [h2 objs2]]| | |] eqn:Hp; cbn [obind] in Hw; try discriminate.
            destruct ol as [v2|]; [|discriminate]. injection Hw as <- <- <-.
            destruct (IHf _ _ _ _ _ _ _ _ _ Hi Hp) as (Hi2 & Hl2 & Hv2).
            split; [exact Hi2|]. split; [exact Hl2|]. apply Hv2. reflexivity. }
      destruct Hb as (Hi1 & Hl1 & Hv1).
      pose proof (inv_modify_node _ _ v1 (fun x => set_obj (set_name x nm) nm) Hi1) as Hi2.
      pose proof (inv_register _ _ nm v1 Hi2 ltac:(rewrite modify_length; exact Hv1)) as Hi3.
      destruct (copy n _ v1) as [[h3 vv]| | |] eqn:Hc; cbn [obind] in H; try discriminate.
      injection H as <- <- <-.
      destruct (copy_spec _ _ _ _ _ (proj1 Hi3) ltac:(rewrite modify_length; exact Hv1) Hc)
        as (Hl3 & _ & Hc3 & Hr3 & _).
      specialize (Hr3 _ (reach_here _ _)). rewrite modify_length in Hl3, Hr3.
      split; [split; [exact Hc3|]|lia].
      intros k l Hk. pose proof (proj2 Hi3 _ _ Hk) as Hk'. rewrite modify_length in Hk'. lia.
  - intros raw h objs nm fs v h' objs' Hi H. cbn [parseASTStructType new] in H.
    destruct (structFields _ _ _ _ _) as [[h2 objs2]| | |] eqn:Hs; cbn [obind] in H;
      try discriminate.
    injection H as <- <- <-.
    destruct (structFields_inv _ _ _
                (fun fname tags ty h objs ol h' objs' Hi Hp =>
                   IHf _ _ _ _ _ _ _ _ _ Hi Hp)
                _ _ _ _ (inv_snoc _ _ _ Hi) Hs
                ltac:(rewrite length_app; cbn [length]; lia)) as [Hi2 Hl2].
    rewrite length_app in Hl2. cbn [length] in Hl2.
    split; [exact Hi2|]. split; lia.
  - intros raw h objs nm tags ty ol h' objs' Hi H. cbn [parseASTFieldType] in H.
    destruct (omittedTag tags).
    { injection H as <- <- <-. split; [exact Hi|]. split; [lia|]. intros; discriminate. }
    destruct ty as [tn|x|x sel|len0 elt0|v|fs| |k]; try discriminate.
    + repeat (destruct (String.eqb _ _); [exact (newSome_inv _ _ _ _ _ _ Hi H)|]).
      destruct (encodeItem ext n raw h objs tn tags) as [[v [h1 objs1]]| | |] eqn:He;
        cbn [obind] in H; try discriminate.
      injection H as <- <- <-.
      destruct (IHe _ _ _ _ _ _ _ _ Hi He) as (Hi1 & Hl1 & Hv1).
      split; [exact Hi1|]. split; [exact Hl1|]. intros l Hl. injection Hl as <-. exact Hv1.
    + destruct x as [elemName|x|x' sel|len0 elt0|v|fs| |k]; try discriminate.
      * destruct (encodeItem ext n raw h objs elemName tags) as [[v [h1 objs1]]| | |] eqn:He;
          cbn [obind] in H; try discriminate.
        injection H as <- <- <-.
        destruct (IHe _ _ _ _ _ _ _ _ Hi He) as (Hi1 & Hl1 & Hv1).
        split; [exact Hi1|]. split; [exact Hl1|]. intros l Hl. injection Hl as <-. exact Hv1.
      * destruct x' as [refName|x'|x'' sel'|len0 elt0|v|fs| |k]; try discriminate.
        destruct (encodeItem ext n raw h objs sel tags) as [[v [h1 objs1]]| | |] eqn:He;
          cbn [obind] in H; try discriminate.
        injection H as <- <- <-.
        destruct (IHe _ _ _ _ _ _ _ _ Hi He) as (Hi1 & Hl1 & Hv1).
        split; [apply inv_modify_node, Hi1|]. rewrite modify_length.
        split; [exact Hl1|]. intros l Hl. injection Hl as <-. exact Hv1.
    + destruct x as [pkg|x|x' sel'|len0 elt0|v|fs| |k]; try discriminate.
      destruct (String.eqb sel "Bitlist").
      { destruct (getTagsInt tags "ssz-max") as [maxSize [|]]; [|discriminate].
        exact (newSome_inv _ _ _ _ _ _ Hi H). }
      destruct (HasPrefix sel "Bitvector").
      { destruct (ext tags) as [dims| | |]; try discriminate.
        destruct (last dims) as [tailDim|]; [|discriminate].
        destruct (negb (IsVector tailDim)); [discriminate|].
        exact (newSome_inv _ _ _ _ _ _ Hi H). }
      destruct (encodeItem ext n raw h objs sel tags) as [[v [h1 objs1]]| | |] eqn:He;
        cbn [obind] in H; try discriminate.
      injection H as <- <- <-.
      destruct (IHe _ _ _ _ _ _ _ _ Hi He) as (Hi1 & Hl1 & Hv1).
      split; [apply inv_modify_node, Hi1|]. rewrite modify_length.
      split; [exact Hl1|]. intros l Hl. injection Hl as <-. exact Hv1.
    + destruct (ext tags) as [dims| | |]; cbn [obind] in H; try discriminate.
      unfold new in H.
      destruct (arrayLoop _ _ _ _ _ _ _ _) as [[h2 objs2]| | |] eqn:Ha; cbn [obind] in H;
        try discriminate.
      injection H as <- <- <-.
      destruct (arrayLoop_inv _ _ _
                  (fun ty h objs ol h' objs' Hi Hp => IHf _ _ _ _ _ _ _ _ _ Hi Hp)
                  _ _ _ _ _ _ _ (inv_snoc _ _ _ Hi) Ha
                  ltac:(rewrite length_app; cbn [length]; lia)) as [Hi2 Hl2].
      rewrite length_app in Hl2. cbn [length] in Hl2.
      split; [exact Hi2|]. split; [lia|]. intros l Hl. injection Hl as <-. lia.
Qed.

(** The copy of an allocated node: fresh cells, disjoint from every older
    cell, holding the same tree; a write into the copy leaves every older
    node's tree, and a write into an older cell leaves the copy's tree. *)
Lemma copy_private f h lreg h' l' :
  closed h -> lreg < length h -> copy f h lreg = Ok (h', l') ->
  length h <= l' /\ length h <= length h' /\ closed h' /\
  (forall k, reach h' lreg k -> k < length h) /\
  (forall k, reach h' l' k -> length h <= k < length h') /\
  (forall g, tree_of g h' l' = tree_of g h' lreg) /\
  (exists v, tree_of f h' l' = Some v) /\
  (forall x k cl g, x < length h -> reach h' l' k ->
     tree_of g (<[k:=cl]> h') x = tree_of g h' x) /\
  (forall k cl g, k < length h -> tree_of g (<[k:=cl]> h') l' = tree_of g h' l').
Proof.
  intros Hc Hl Hcp.
  destruct (copy_spec _ _ _ _ _ Hc Hl Hcp) as (Hlen & Ha & Hc' & Hr & Ht & [v Hv]).
  assert (Hold : forall x, x < length h ->
            (forall k, reach h' x k -> k < length h) /\
            (forall g, tree_of g h' x = tree_of g h x)).
  { intros x Hx.
    destruct (below_agree (length h) h h' x Ha (fun k Hk => closed_reach _ _ _ Hc Hx Hk))
      as [Hr' Ht'].
    split; [intros k Hk; exact (closed_reach _ _ _ Hc Hx (Hr' k Hk))|exact Ht']. }
  pose proof (Hr l' (reach_here _ _)) as Hl'.
  split; [lia|]. split; [exact Hlen|]. split; [exact Hc'|].
  split; [exact (proj1 (Hold lreg Hl))|]. split; [exact Hr|].
  split; [intros g; rewrite Ht; symmetry; apply (proj2 (Hold lreg Hl))|].
  split; [exists v; rewrite Ht; exact Hv|].
  split.
  - intros x k cl g Hx Hk. apply (insert_agree h' k cl x).
    intros k' Hk' ->. pose proof (proj1 (Hold x Hx) _ Hk'). pose proof (Hr _ Hk). lia.
  - intros k cl g Hk. apply (insert_agree h' k cl l').
    intros k' Hk' ->. pose proof (Hr _ Hk'). lia.
Qed.

(** C2: every resolution of a named type ([encodeItem], cached or not)
    returns a private deep copy of the registry node [lreg] of the name.
    All cells reachable from the copy are fresh: they lie at or above
    [n0], the heap size before the copy, while the registry entries and
    everything reachable from [lreg] lie below [n0].  The copy holds the
    same tree as [lreg].  A later write into any cell of the copy (such
    as the per-use [ref] and [noPtr] annotations) leaves the tree of every
    older node unchanged: the registry entries and the copies returned
    earlier.  A write into an older cell leaves the copy unchanged. *)
Theorem encodeItem_private_copy ext fuel raw h objs nm tags l' h' objs' :
  closedb h = true -> regValidb h objs = true ->
  encodeItem ext fuel raw h objs nm tags = Ok (l', (h', objs')) ->
  exists lreg n0,
    objs' !! nm = Some lreg /\ lreg < n0 /\ n0 <= l' /\
    (forall k l, objs' !! k = Some l -> l < n0) /\
    (forall k, reach h' lreg k -> k < n0) /\
    (forall k, reach h' l' k -> n0 <= k < length h') /\
    (forall g, tree_of g h' l' = tree_of g h' lreg) /\
    (exists g v, tree_of g h' l' = Some v) /\
    (forall x k cl g, x < n0 -> reach h' l' k ->
       tree_of g (<[k:=cl]> h') x = tree_of g h' x) /\
    (forall k cl g, k < n0 -> tree_of g (<[k:=cl]> h') l' = tree_of g h' l') /\
    closedb h' = true /\ regValidb h' objs' = true.
Proof.
  intros Hcb Hrb H.
  assert (Hi : inv h objs)
    by (split; [apply closedb_spec, Hcb|apply regValidb_spec, Hrb]).
  destruct fuel as [|n]; [discriminate|].
  destruct (builder_inv ext n) as (_ & IHs & IHf).
  (* the conclusion, from the heap [h2] and registry [objs2] of the copy *)
  assert (Hfinish : forall h2 objs2 lreg,
            inv h2 objs2 -> objs2 !! nm = Some lreg -> copy n h2 lreg = Ok (h', l') ->
            objs' = objs2 ->
            exists lreg n0,
              objs' !! nm = Some lreg /\ lreg < n0 /\ n0 <= l' /\
              (forall k l, objs' !! k = Some l -> l < n0) /\
              (forall k, reach h' lreg k -> k < n0) /\
              (forall k, reach h' l' k -> n0 <= k < length h') /\
              (forall g, tree_of g h' l' = tree_of g h' lreg) /\
              (exists g v, tree_of g h' l' = Some v) /\
              (forall x k cl g, x < n0 -> reach h' l' k ->
                 tree_of g (<[k:=cl]> h') x = tree_of g h' x) /\
              (forall k cl g, k < n0 -> tree_of g (<[k:=cl]> h') l' = tree_of g h' l') /\
              closedb h' = true /\ regValidb h' objs' = true).
  { intros h2 objs2 lreg [Hc2 Hr2] Hn Hcp ->.
    pose proof (Hr2 _ _ Hn) as Hlreg.
    destruct (copy_private _ _ _ _ _ Hc2 Hlreg Hcp)
      as (Hl' & Hlen & Hc' & Hra & Hrb' & Ht & [v Hv] & Hf1 & Hf2).
    exists lreg, (length h2).
    split; [exact Hn|]. split; [exact Hlreg|]. split; [exact Hl'|].
    split; [exact Hr2|]. split; [exact Hra|]. split; [exact Hrb'|].
    split; [exact Ht|]. split; [exists n, v; exact Hv|].
    split; [exact Hf1|]. split; [exact Hf2|].
    split; [apply closedb_spec, Hc'|].
    apply regValidb_spec. intros k l Hk. pose proof (Hr2 _ _ Hk). lia. }
  cbn [encodeItem] in H.
  destruct (objs !! nm) as [v0|] eqn:Hn.
  - destruct (copy n h v0) as [[h1 vv]| | |] eqn:Hc; cbn [obind] in H; try discriminate.
    injection H as <- <- <-.
    exact (Hfinish h objs v0 Hi Hn Hc eq_refl).
  - destruct (getRawItemByName raw nm) as [rw|]; [|discriminate].
    destruct (wrapErr _ _) as [[v1 [h1 objs1]]| | |] eqn:Hw; cbn [obind] in H;
      try discriminate.
    apply wrapErr_ok in Hw.
    assert (Hb : inv h1 objs1 /\ v1 < length h1).
    { destruct (Raw.implFunc rw).
      - unfold new in Hw. injection Hw as <- <- <-.
        split; [apply inv_snoc, Hi|]. rewrite length_app. cbn [length]. lia.
      - destruct (Raw.obj rw) as [fs|].
        + destruct (IHs _ _ _ _ _ _ _ _ Hi Hw) as (Hi1 & _ & Hv1). split; assumption.
        + destruct (Raw.typ rw) as [ty|]; [|discriminate].
          destruct (parseASTFieldType ext n raw h objs nm tags ty)
            as [[ol [h2 objs2]]| | |] eqn:Hp; cbn [obind] in Hw; try discriminate.
          destruct ol as [v2|]; [|discriminate]. injection Hw as <- <- <-.
          destruct (IHf _ _ _ _ _ _ _ _ _ Hi Hp) as (Hi2 & _ & Hv2).
          split; [exact Hi2|]. apply Hv2. reflexivity. }
    destruct Hb as (Hi1 & Hv1).
    pose proof (inv_modify_node _ _ v1 (fun x => set_obj (set_name x nm) nm) Hi1) as Hi2.
    pose proof (inv_register _ _ nm v1 Hi2 ltac:(rewrite modify_length; exact Hv1)) as Hi3.
    destruct (copy n _ v1) as [[h3 vv]| | |] eqn:Hc; cbn [obind] in H; try discriminate.
    injection H as <- <- <-.
    exact (Hfinish _ _ v1 Hi3 (lookup_insert_eq _ _ _) Hc eq_refl).
Qed.

End HeapFacts.

Lemma encodeItem_private_copy_witness :
  exists l' h' objs',
    Heap.encodeItem sampleDims 10 [bazRaw; barRaw] [] ∅ "Baz" "" = Ok (l', (h', objs')) /\
    exists lreg n0,
      objs' !! "Baz" = Some lreg /\ lreg < n0 /\ n0 <= l' /\
      (forall k, Heap.reach h' lreg k -> k < n0) /\
      (forall k, Heap.reach h' l' k -> n0 <= k < length h') /\
      (forall g, Heap.tree_of g h' l' = Heap.tree_of g h' lreg).
Proof.
  assert (Hc : Heap.closedb [] = true) by (vm_compute; reflexivity).
  assert (Hr : Heap.regValidb [] ∅ = true) by (vm_compute; reflexivity).
  assert (H : exists l' h' objs',
            Heap.encodeItem sampleDims 10 [bazRaw; barRaw] [] ∅ "Baz" "" = Ok (l', (h', objs')))
    by (do 3 eexists; reflexivity).
  destruct H as (l' & h' & objs' & H).
  exists l', h', objs'. split; [exact H|].
  destruct (encodeItem_private_copy sampleDims 10 [bazRaw; barRaw] [] ∅ "Baz" "" l' h' objs'
              Hc Hr H)
    as (lreg & n0 & Hn & Hlt & Hle & _ & Hr1 & Hr2 & Ht & _).
  exists lreg, n0. exact (conj Hn (conj Hlt (conj Hle (conj Hr1 (conj Hr2 Ht))))).
Defined.

(** ** Further properties of the generator *)

Lemma forallb_flat_map_nodes (f : Value -> bool) l :
  forallb f (flat_map nodes l) = forallb (fun x => forallb f (nodes x)) l.
Proof. induction l as [|x l IH]; cbn; [reflexivity|]. rewrite forallb_app, IH. reflexivity. Qed.

Lemma uintsOK_unfold v :
  uintsOK v = uintSizeOK v && forallb uintsOK (o v) &&
              match e v with Some x => uintsOK x | None => true end.
Proof.
  destruct v as [n ob s0 t0 o0 e0 c0 m0 r0 np fx]. unfold uintsOK. cbn [nodes forallb o e].
  rewrite forallb_app, forallb_flat_map_nodes. destruct e0; cbn; rewrite ?andb_true_r, ?andb_assoc;
  reflexivity.
Qed.

Lemma uintsOK_shape v v' :
  t v' = t v -> s v' = s v -> o v' = o v -> e v' = e v -> uintsOK v' = uintsOK v.
Proof.
  intros Ht Hs Ho He. rewrite !(uintsOK_unfold v'), (uintsOK_unfold v), Ho, He.
  unfold uintSizeOK. rewrite Ht, Hs. reflexivity.
Qed.

Lemma uintsOK_head v :
  Type_eqb (t v) TypeUint = false -> uintsOK v = forallb uintsOK (o v) &&
              match e v with Some x => uintsOK x | None => true end.
Proof. intros H. rewrite uintsOK_unfold. unfold uintSizeOK. rewrite H. reflexivity. Qed.

Lemma regGrows_refl raw objs : regGrows raw objs objs.
Proof. split; auto. Qed.

Lemma regGrows_trans raw o1 o2 o3 :
  regGrows raw o1 o2 -> regGrows raw o2 o3 -> regGrows raw o1 o3.
Proof.
  intros [A1 B1] [A2 B2]. split; [auto|].
  intros k x Hk. destruct (B2 _ _ Hk) as [H|H]; [|auto]. destruct (B1 _ _ H); auto.
Qed.

Lemma regUints_insert objs nm v :
  regUints objs -> uintsOK v = true -> regUints (<[nm := v]> objs).
Proof.
  intros Hu Hv k x Hk. apply lookup_insert_Some in Hk as [(<- & <-)|(_ & Hk)]; eauto.
Qed.

Lemma structFields_reg raw pf fs :
  (forall fname tags ty objs ov objs', pf fname tags ty objs = Ok (ov, objs') ->
     regGrows raw objs objs' /\
     (regUints objs -> regUints objs' /\ forall v, ov = Some v -> uintsOK v = true)) ->
  forall acc objs vs objs', structFields pf fs acc objs = Ok (vs, objs') ->
  regGrows raw objs objs' /\
  (regUints objs -> forallb uintsOK acc = true -> regUints objs' /\ forallb uintsOK vs = true).
Proof.
  intros Hpf. induction fs as [|f fs IH]; intros acc objs vs objs' Hs; cbn [structFields] in Hs.
  - injection Hs as <- <-. split; [apply regGrows_refl|auto].
  - destruct (Field_Names f) as [|fname [|? ?]]; try exact (IH _ _ _ _ Hs).
    destruct (isExportedField fname) as [[|]|]; [|exact (IH _ _ _ _ Hs)|discriminate].
    destruct (HasPrefix fname "XXX_"); [exact (IH _ _ _ _ Hs)|].
    destruct (pf _ _ _ objs) as [[ov objs1]| | |] eqn:Hp; cbn [obind fst snd] in Hs;
      try discriminate.
    destruct (Hpf _ _ _ _ _ _ Hp) as [Hg1 Hk1].
    destruct ov as [elem|].
    + destruct (IH _ _ _ _ Hs) as [Hg2 Hk2]. split; [exact (regGrows_trans _ _ _ _ Hg1 Hg2)|].
      intros Hgood Hacc. destruct (Hk1 Hgood) as [Hgood1 Hel].
      apply Hk2; [exact Hgood1|]. rewrite forallb_app, Hacc. cbn [forallb andb].
      rewrite (uintsOK_shape elem (set_name elem fname)) by (destruct elem; reflexivity).
      rewrite (Hel elem eq_refl). reflexivity.
    + destruct (IH _ _ _ _ Hs) as [Hg2 Hk2]. split; [exact (regGrows_trans _ _ _ _ Hg1 Hg2)|].
      intros Hgood Hacc. apply Hk2; [apply (Hk1 Hgood)|exact Hacc].
Qed.

Lemma dimStep_shape nm d len col col' :
  dimStep nm d len col = Ok col' ->
  Type_eqb (t col') TypeUint = false /\ o col' = o col /\ e col' = e col.
Proof.
  unfold dimStep. destruct d as [[k|k] bl]; cbn [IsVector IsList dimKind]; intros H.
  all: destruct (arrayLen nm len) as [[a|]| | |]; cbn [obind] in H; try discriminate.
  all: repeat match type of H with context [if ?b then _ else _] => destruct b end.
  all: try discriminate.
  all: injection H as <-; destruct col; cbn; auto.
Qed.

Lemma uintsOK_nonuint v v' :
  Type_eqb (t v') TypeUint = false -> o v' = o v -> e v' = e v ->
  uintsOK v = true -> uintsOK v' = true.
Proof.
  intros Ht Ho He Hv. rewrite uintsOK_head by exact Ht. rewrite Ho, He.
  rewrite uintsOK_unfold in Hv. apply andb_true_iff in Hv as [Hv Hv'].
  apply andb_true_iff in Hv as [_ Hv]. rewrite Hv, Hv'. reflexivity.
Qed.

Lemma byteStep_shape d col :
  Type_eqb (t (byteStep d col)) TypeUint = false /\
  o (byteStep d col) = o col /\ e (byteStep d col) = e col.
Proof. unfold byteStep. destruct (IsBitlist d), (IsVector d); destruct col; cbn; auto. Qed.

Lemma arrayLoop_reg raw pf nm dims :
  (forall ty objs ov objs', pf ty objs = Ok (ov, objs') ->
     regGrows raw objs objs' /\
     (regUints objs -> regUints objs' /\ forall v, ov = Some v -> uintsOK v = true)) ->
  forall len elt col objs v objs', arrayLoop pf nm dims len elt col objs = Ok (v, objs') ->
  regGrows raw objs objs' /\
  (regUints objs -> uintsOK col = true -> regUints objs' /\ uintsOK v = true).
Proof.
  intros Hpf. induction dims as [|d ds IH]; intros len elt col objs v objs' Hs;
    cbn [arrayLoop] in Hs.
  - injection Hs as <- <-. split; [apply regGrows_refl|auto].
  - destruct (dimStep nm d len col) as [col1| | |] eqn:Hd; cbn [obind] in Hs; try discriminate.
    destruct (dimStep_shape _ _ _ _ _ Hd) as (Ht1 & Ho1 & He1).
    assert (Hc1 : uintsOK col = true -> uintsOK col1 = true).
    { intros Hc. rewrite uintsOK_head by exact Ht1. rewrite Ho1, He1.
      rewrite uintsOK_unfold in Hc. apply andb_true_iff in Hc as [Hc Hc'].
      apply andb_true_iff in Hc as [_ Hc]. rewrite Hc, Hc'. reflexivity. }
    assert (He : forall x : option Value, uintsOK col1 = true ->
                   match x with Some y => uintsOK y | None => true end = true ->
                   uintsOK (set_e col1 x) = true).
    { intros x Hc Hx. rewrite uintsOK_head by (destruct col1; exact Ht1).
      rewrite uintsOK_head in Hc by exact Ht1. apply andb_true_iff in Hc as [Hc _].
      destruct col1; unfold set_e in *; simpl in Hc |- *. rewrite Hc. exact Hx. }
    destruct elt as [n|x|x sel|len' elt'|lit|fs| |k].
    4:{ destruct (arrayLoop pf nm ds len' elt' zeroValue objs) as [[v1 objs1]| | |] eqn:Ha;
          cbn [obind] in Hs; try discriminate.
        injection Hs as <- <-.
        destruct (IH _ _ _ _ _ _ Ha) as [Hg Hk]. split; [exact Hg|].
        intros Hgood Hc. destruct (Hk Hgood eq_refl) as [Hgood1 Hv1].
        split; [exact Hgood1|]. apply (He (Some v1)); [exact (Hc1 Hc)|exact Hv1]. }
    all: cbn [isByteIdent] in Hs.
    all: try (destruct (String.eqb n "byte");
              [destruct (IH _ _ _ _ _ _ Hs) as [Hg Hk]; split; [exact Hg|];
               intros Hgood Hc; apply (Hk Hgood);
               destruct (byteStep_shape d col1) as (Hb1 & Hb2 & Hb3);
               exact (uintsOK_nonuint _ _ Hb1 Hb2 Hb3 (Hc1 Hc))|]).
    all: destruct (pf _ objs) as [[ov objs1]| | |] eqn:Hp; cbn [obind fst snd] in Hs;
      try discriminate.
    all: destruct (Hpf _ _ _ _ Hp) as [Hg1 Hk1].
    all: destruct (IH _ _ _ _ _ _ Hs) as [Hg2 Hk2].
    all: split; [exact (regGrows_trans _ _ _ _ Hg1 Hg2)|].
    all: intros Hgood Hc; destruct (Hk1 Hgood) as [Hgood1 Hov];
      apply (Hk2 Hgood1); apply He; [exact (Hc1 Hc)|].
    all: destruct ov as [x'|]; [exact (Hov x' eq_refl)|reflexivity].
Qed.
Lemma basicValue_uintsOK t0 s0 :
  (Type_eqb t0 TypeUint = false \/ In s0 [8; 4; 2; 1]%Z) -> uintsOK (basicValue t0 s0) = true.
Proof.
  intros H. unfold uintsOK, basicValue. cbn. unfold uintSizeOK. cbn.
  destruct H as [->|H]; [reflexivity|].
  destruct t0; cbn; [reflexivity|..|reflexivity|reflexivity|reflexivity|reflexivity|reflexivity|reflexivity|reflexivity];
  repeat destruct H as [<-|H]; try reflexivity; destruct H.
Qed.

Lemma builder_registry ext fuel :
  (forall raw objs nm tags v objs',
     encodeItem ext fuel raw objs nm tags = Ok (v, objs') ->
     regGrows raw objs objs' /\ objs' !! nm = Some v /\ (regUints objs -> regUints objs')) /\
  (forall raw objs nm fs v objs',
     parseASTStructType ext fuel raw objs nm fs = Ok (v, objs') ->
     regGrows raw objs objs' /\ (regUints objs -> regUints objs' /\ uintsOK v = true)) /\
  (forall raw objs nm tags ty ov objs',
     parseASTFieldType ext fuel raw objs nm tags ty = Ok (ov, objs') ->
     regGrows raw objs objs' /\
     (regUints objs -> regUints objs' /\ forall v, ov = Some v -> uintsOK v = true)).
Proof.
  induction fuel as [|n [IHe [IHs IHf]]].
  { split; [|split]; intros; discriminate. }
  (* a resolution through [encodeItem] at a use site *)
  assert (Huse : forall raw objs nm tags v objs' (g : Value -> Value),
            (forall v, uintsOK (g v) = uintsOK v) ->
            encodeItem ext n raw objs nm tags = Ok (v, objs') ->
            regGrows raw objs objs' /\
            (regUints objs -> regUints objs' /\ forall v', Some (g v) = Some v' -> uintsOK v' = true)).
  { intros raw objs nm tags v objs' g Hg He.
    destruct (IHe _ _ _ _ _ _ He) as (Hgr & Hl & Hk). split; [exact Hgr|].
    intros Hgood. split; [exact (Hk Hgood)|]. intros v' Hv'. injection Hv' as <-.
    rewrite Hg. exact (Hk Hgood _ _ Hl). }
  split; [|split].
  - intros raw objs nm tags v objs' H. cbn [encodeItem] in H.
    destruct (objs !! nm) as [v0|] eqn:Hn.
    + rewrite copy_id in H. injection H as <- <-. split; [apply regGrows_refl|auto].
    + destruct (getRawItemByName raw nm) as [rw|] eqn:Hraw; [|discriminate].
      destruct (wrapErr _ _) as [[v1 objs1]| | |] eqn:Hw; cbn [obind fst snd] in H;
        try discriminate.
      apply wrapErr_ok in Hw. rewrite copy_id in H. injection H as <- <-.
      assert (Hb : regGrows raw objs objs1 /\ (regUints objs -> regUints objs1 /\ uintsOK v1 = true)).
      { destruct (Raw.implFunc rw).
        - injection Hw as <- <-. split; [apply regGrows_refl|]. intros Hg. split; [exact Hg|].
          reflexivity.
        - destruct (Raw.obj rw) as [fs|].
          + exact (IHs _ _ _ _ _ _ Hw).
          + destruct (Raw.typ rw) as [ty|]; [|discriminate].
            destruct (parseASTFieldType ext n raw objs nm tags ty)
              as [[ov objs2]| | |] eqn:Hp; cbn [obind fst snd] in Hw; try discriminate.
            destruct ov as [v2|]; [|discriminate]. injection Hw as <- <-.
            destruct (IHf _ _ _ _ _ _ _ Hp) as [Hg Hk]. split; [exact Hg|].
            intros Hgood. destruct (Hk Hgood) as [Hgood2 Hv2]. split; [exact Hgood2|].
            exact (Hv2 v2 eq_refl). }
      destruct Hb as [[Hm Hkeys] Hk].
      split; [split|split].
      * intros k x Hx. destruct (decide (k = nm)) as [->|Hne]; [congruence|].
        rewrite lookup_insert_ne by congruence. exact (Hm _ _ Hx).
      * intros k x Hx. apply lookup_insert_Some in Hx as [(<- & <-)|(_ & Hx)].
        { right. split; [destruct v1; reflexivity|]. split; [destruct v1; reflexivity|]. eauto. }
        exact (Hkeys _ _ Hx).
      * apply lookup_insert_eq.
      * intros Hgood. destruct (Hk Hgood) as [Hgood1 Hv1].
        apply regUints_insert; [exact Hgood1|].
        rewrite <- Hv1. apply uintsOK_shape; destruct v1; reflexivity.
  - intros raw objs nm fs v objs' H. cbn [parseASTStructType] in H.
    destruct (structFields _ fs [] objs) as [[vs objs1]| | |] eqn:Hs; cbn [obind fst snd] in H;
      try discriminate.
    injection H as <- <-.
    destruct (structFields_reg raw _ fs
                (fun fname tags ty objs ov objs' Hp => IHf _ _ _ _ _ _ _ Hp) _ _ _ _ Hs)
      as [Hg Hk].
    split; [exact Hg|]. intros Hgood. destruct (Hk Hgood eq_refl) as [Hgood1 Hvs].
    split; [exact Hgood1|]. rewrite uintsOK_head by reflexivity. cbn. rewrite Hvs. reflexivity.
  - intros raw objs nm tags ty ov objs' H. cbn [parseASTFieldType] in H.
    destruct (omittedTag tags).
    { injection H as <- <-. split; [apply regGrows_refl|]. intros Hg; split; [exact Hg|].
      discriminate. }
    assert (Hnew : forall v, Ok (Some v, objs) = Ok (ov, objs') -> uintsOK v = true ->
              regGrows raw objs objs' /\
              (regUints objs -> regUints objs' /\ forall v, ov = Some v -> uintsOK v = true)).
    { intros v Hv Hu. injection Hv as <- <-. split; [apply regGrows_refl|].
      intros Hg. split; [exact Hg|]. intros v' Hv'. injection Hv' as <-. exact Hu. }
    destruct ty as [tn|x|x sel|len0 elt0|lit|fs| |k]; try discriminate.
    + destruct (String.eqb tn "uint64");
        [apply (Hnew _ H), basicValue_uintsOK; right; cbn; auto|].
      destruct (String.eqb tn "uint32");
        [apply (Hnew _ H), basicValue_uintsOK; right; cbn; auto|].
      destruct (String.eqb tn "uint16");
        [apply (Hnew _ H), basicValue_uintsOK; right; cbn; auto|].
      destruct (String.eqb tn "uint8");
        [apply (Hnew _ H), basicValue_uintsOK; right; cbn; auto|].
      destruct (String.eqb tn "bool");
        [apply (Hnew _ H), basicValue_uintsOK; left; reflexivity|].
      destruct (encodeItem ext n raw objs tn tags) as [[v objs1]| | |] eqn:He;
        try discriminate.
      injection H as <- <-. exact (Huse _ _ _ _ _ _ (fun v => v) (fun _ => eq_refl) He).
    + destruct x as [elemName|x|x' sel|len0 elt0|lit|fs| |k]; try discriminate.
      * destruct (encodeItem ext n raw objs elemName tags) as [[v objs1]| | |] eqn:He;
          cbn [obind fst snd] in H; try discriminate.
        injection H as <- <-. exact (Huse _ _ _ _ _ _ (fun v => v) (fun _ => eq_refl) He).
      * destruct x' as [refName|x'|x'' sel'|len0 elt0|lit|fs| |k]; try discriminate.
        destruct (encodeItem ext n raw objs sel tags) as [[v objs1]| | |] eqn:He;
          cbn [obind fst snd] in H; try discriminate.
        injection H as <- <-.
        exact (Huse _ _ _ _ _ _ (fun v => set_ref v refName)
                 (fun v => uintsOK_shape v (set_ref v refName) ltac:(destruct v; reflexivity)
                             ltac:(destruct v; reflexivity) ltac:(destruct v; reflexivity)
                             ltac:(destruct v; reflexivity)) He).
    + destruct x as [pkg|x|x' sel'|len0 elt0|lit|fs| |k]; try discriminate.
      destruct (String.eqb sel "Bitlist").
      { destruct (getTagsInt tags "ssz-max") as [maxSize [|]]; [|discriminate].
        apply (Hnew _ H). reflexivity. }
      destruct (HasPrefix sel "Bitvector").
      { destruct (ext tags) as [dims| | |]; try discriminate.
        destruct (last dims) as [tailDim|]; [|discriminate].
        destruct (negb (IsVector tailDim)); [discriminate|].
        apply (Hnew _ H). reflexivity. }
      destruct (encodeItem ext n raw objs sel tags) as [[v objs1]| | |] eqn:He;
        cbn [obind fst snd] in H; try discriminate.
      injection H as <- <-.
      exact (Huse _ _ _ _ _ _ (fun v => set_noPtr (set_ref v pkg) true)
               (fun v => uintsOK_shape v (set_noPtr (set_ref v pkg) true) ltac:(destruct v; reflexivity)
                           ltac:(destruct v; reflexivity) ltac:(destruct v; reflexivity)
                           ltac:(destruct v; reflexivity)) He).
    + destruct (ext tags) as [dims| | |]; cbn [obind] in H; try discriminate.
      destruct (arrayLoop _ _ _ _ _ _ _) as [[v1 objs1]| | |] eqn:Ha; cbn [obind fst snd] in H;
        try discriminate.
      injection H as <- <-.
      destruct (arrayLoop_reg raw _ _ _
                  (fun ty objs ov objs' Hp => IHf _ _ _ _ _ _ _ Hp) _ _ _ _ _ _ Ha) as [Hg Hk].
      split; [exact Hg|]. intros Hgood. destruct (Hk Hgood eq_refl) as [Hgood1 Hv1].
      split; [exact Hgood1|]. intros v Hv. injection Hv as <-. exact Hv1.
Qed.

Lemma generateIR_parts ext fuel files include targets env :
  generateIR ext fuel files include targets = Ok env ->
  foldM (fun imps nf => addImports imps (decodeASTImports (snd nf))) files [] = Ok (envImports env) /\
  (exists results, buildRaw files include = Ok (envRaw env, envOrder env, results)) /\
  foldM (irStep ext fuel (envRaw env) targets) (envRaw env) ∅ = Ok (envObjs env).
Proof.
  unfold generateIR. intros H.
  destruct (fold_left _ files (Ok [])) as [imps| | |] eqn:Hi; cbn [obind] in H; try discriminate.
  destruct (buildRaw files include) as [[[raw order] results]| | |] eqn:Hb;
    cbn [obind] in H; try discriminate.
  destruct (fold_left _ raw (Ok ∅)) as [objs| | |] eqn:Ho; cbn [obind] in H; try discriminate.
  injection H as <-. cbn. split; [exact Hi|]. split; [eauto|]. exact Ho.
Qed.

Lemma getRawItemByName_In raw k it :
  getRawItemByName raw k = Some it -> In it raw /\ Raw.name it = k.
Proof.
  unfold getRawItemByName. intros H. apply find_some in H as [Hin Hk].
  apply String.eqb_eq in Hk. auto.
Qed.

Lemma irStep_fold ext fuel raw targets items objs0 objs :
  foldM (irStep ext fuel raw targets) items objs0 = Ok objs ->
  regGrows raw objs0 objs /\ (regUints objs0 -> regUints objs) /\
  forall it, In it items -> Raw.isRef it = false ->
    (targets = [] \/ In (Raw.name it) targets) -> objs !! Raw.name it <> None.
Proof.
  revert objs0. induction items as [|it items IH]; intros objs0 H.
  - cbn in H. injection H as <-. split; [apply regGrows_refl|]. split; [auto|]. intros ? [].
  - rewrite foldM_cons in H.
    destruct (irStep ext fuel raw targets objs0 it) as [objs1| | |] eqn:Hs; cbn [obind] in H;
      try discriminate.
    destruct (IH _ H) as (Hg2 & Hu2 & Hin2).
    assert (Hstep : regGrows raw objs0 objs1 /\ (regUints objs0 -> regUints objs1) /\
                    (Raw.isRef it = false -> (targets = [] \/ In (Raw.name it) targets) ->
                     objs1 !! Raw.name it <> None)).
    { unfold irStep in Hs.
      assert (Hv : (targets = [] \/ In (Raw.name it) targets) ->
                   match targets with [] => true | _ => contains (Raw.name it) targets end = true).
      { intros [->|Hin]; [reflexivity|]. destruct targets as [|x l]; [destruct Hin|].
        apply existsb_eqb_In. exact Hin. }
      destruct (match targets with [] => true | _ => contains (Raw.name it) targets end) eqn:Hvalid.
      - destruct (Raw.isRef it).
        + injection Hs as <-. split; [apply regGrows_refl|]. split; [auto|]. discriminate.
        + destruct (encodeItem ext fuel raw objs0 (Raw.name it) "") as [[v objs2]| | |] eqn:He;
            cbn [obind snd] in Hs; try discriminate.
          injection Hs as <-.
          destruct (proj1 (builder_registry ext fuel) _ _ _ _ _ _ He) as (Hg & Hl & Hu).
          split; [exact Hg|]. split; [exact Hu|]. intros _ _. rewrite Hl. discriminate.
      - injection Hs as <-. split; [apply regGrows_refl|]. split; [auto|].
        intros _ Ht. specialize (Hv Ht). discriminate. }
    destruct Hstep as (Hg1 & Hu1 & Hin1).
    split; [exact (regGrows_trans _ _ _ _ Hg1 Hg2)|]. split; [auto|].
    intros it' [->|Hit] Href Ht; [|exact (Hin2 _ Hit Href Ht)].
    destruct (objs1 !! Raw.name it') as [x|] eqn:Hx; [|destruct (Hin1 Href Ht eq_refl)].
    rewrite (proj1 Hg2 _ _ Hx). discriminate.
Qed.

(** X9: the registry of a successful model build: every entry is keyed by
    the name it carries, every key names a declared type, and every
    non-reference type selected by the targets has an entry. *)
Theorem generateIR_registry ext fuel files include targets env :
  generateIR ext fuel files include targets = Ok env ->
  selfNamed (envObjs env) /\
  (forall k x, envObjs env !! k = Some x -> exists it, In it (envRaw env) /\ Raw.name it = k) /\
  (forall it, In it (envRaw env) -> Raw.isRef it = false ->
     (targets = [] \/ In (Raw.name it) targets) -> envObjs env !! Raw.name it <> None).
Proof.
  intros H. destruct (generateIR_parts _ _ _ _ _ _ H) as (_ & _ & Ho).
  destruct (irStep_fold _ _ _ _ _ _ _ Ho) as ([_ Hk] & _ & Hin).
  split; [|split; [|exact Hin]].
  - intros k x Hx. destruct (Hk _ _ Hx) as [Hx0|(Hn & Hob & _)]; [|auto].
    rewrite lookup_empty in Hx0. discriminate.
  - intros k x Hx. destruct (Hk _ _ Hx) as [Hx0|(_ & _ & it & Hit)].
    + rewrite lookup_empty in Hx0. discriminate.
    + exists it. exact (getRawItemByName_In _ _ _ Hit).
Qed.

Lemma uintsOK_nodes v u : uintsOK v = true -> In u (nodes v) -> uintSizeOK u = true.
Proof. unfold uintsOK. rewrite forallb_forall. auto. Qed.

(** X10: [uintVToName] never panics on a [Uint] node of a model the build
    registers. *)
Theorem generateIR_uintVToName ext fuel files include targets env :
  generateIR ext fuel files include targets = Ok env ->
  forall k x u, envObjs env !! k = Some x -> In u (nodes x) -> t u = TypeUint ->
  exists nm, uintVToName u = Ok nm.
Proof.
  intros H k x u Hx Hu Ht. destruct (generateIR_parts _ _ _ _ _ _ H) as (_ & _ & Ho).
  destruct (irStep_fold _ _ _ _ _ _ _ Ho) as (_ & Hui & _).
  assert (Hr : regUints ∅) by (intros k' x' Hk'; rewrite lookup_empty in Hk'; discriminate).
  pose proof (uintsOK_nodes _ _ (Hui Hr _ _ Hx) Hu) as Hs.
  unfold uintSizeOK in Hs. unfold uintVToName. rewrite Ht in *. cbn in Hs |- *.
  destruct (s u =? 8)%Z; [eauto|]. destruct (s u =? 4)%Z; [eauto|].
  destruct (s u =? 2)%Z; [eauto|]. destruct (s u =? 1)%Z; [eauto|]. discriminate.
Qed.

(** X6: [encodeItem] only adds entries to the registry: every entry it
    had is kept, every new key is the name of a declared type, and the
    returned model is registered under the requested name. *)
Theorem encodeItem_registry_grows ext fuel raw (objs objs' : registry) nm tags v :
  encodeItem ext fuel raw objs nm tags = Ok (v, objs') ->
  (forall k x, objs !! k = Some x -> objs' !! k = Some x) /\
  (forall k x, objs' !! k = Some x ->
     objs !! k = Some x \/ exists it, getRawItemByName raw k = Some it) /\
  objs' !! nm = Some v.
Proof.
  intros H. destruct (proj1 (builder_registry ext fuel) _ _ _ _ _ _ H) as ([Hm Hk] & Hl & _).
  split; [exact Hm|]. split; [|exact Hl].
  intros k x Hx. destruct (Hk _ _ Hx) as [Hx0|(_ & _ & Hit)]; auto.
Qed.

Lemma encodeItem_self_named_helper ext fuel raw (objs objs' : registry) nm tags v :
  selfNamed objs ->
  encodeItem ext fuel raw objs nm tags = Ok (v, objs') ->
  selfNamed objs' /\ name v = nm /\ obj v = nm.
Proof.
  intros Hs H. destruct (proj1 (builder_registry ext fuel) _ _ _ _ _ _ H) as ([_ Hk] & Hl & _).
  assert (Hs' : selfNamed objs').
  { intros k x Hx. destruct (Hk _ _ Hx) as [Hx0|(Hn & Ho & _)]; [exact (Hs _ _ Hx0)|auto]. }
  split; [exact Hs'|]. exact (Hs' _ _ Hl).
Qed.

(** X7: if every registry entry carries its key as name and object name,
    [encodeItem] keeps it that way, and the model it returns is named after
    the requested type. *)
Theorem encodeItem_self_named ext fuel raw (objs objs' : registry) nm tags v :
  selfNamed objs ->
  encodeItem ext fuel raw objs nm tags = Ok (v, objs') ->
  selfNamed objs' /\ name v = nm /\ obj v = nm.
Proof. exact (encodeItem_self_named_helper ext fuel raw objs objs' nm tags v). Qed.

(** X8: a field of type [pkg.T] or [*pkg.T] (other than the bitfield types)
    gets a model whose [objRef] is ["pkg.T"]; the non-pointer form is also
    marked [noPtr]. *)
Theorem parseASTFieldType_objRef ext fuel raw (objs objs' : registry) nm tags pkg sel
    (star : bool) v :
  selfNamed objs -> pkg <> "" ->
  (star = false -> sel <> "Bitlist" /\ HasPrefix sel "Bitvector" = false) ->
  parseASTFieldType ext fuel raw objs nm tags
    (if star then StarExpr (SelectorExpr (Ident pkg) sel) else SelectorExpr (Ident pkg) sel)
    = Ok (Some v, objs') ->
  objRef v = pkg ++ "." ++ sel /\ (star = false -> noPtr v = true).
Proof.
  intros Hs Hp Hsel H. destruct fuel as [|n]; [discriminate|].
  cbn [parseASTFieldType] in H. destruct (omittedTag tags); [discriminate|].
  destruct star.
  - destruct (encodeItem ext n raw objs sel tags) as [[v0 objs1]| | |] eqn:He;
      cbn [obind fst snd] in H; try discriminate.
    injection H as <- <-.
    pose proof (proj2 (proj2 (encodeItem_self_named_helper _ _ _ _ _ _ _ _ Hs He))) as Hob.
    unfold objRef. destruct v0; cbn in *.
    apply String.eqb_neq in Hp. rewrite Hp. rewrite Hob. split; [reflexivity|discriminate].
  - destruct (Hsel eq_refl) as [Hb1 Hb2]. apply String.eqb_neq in Hb1. rewrite Hb1, Hb2 in H.
    destruct (encodeItem ext n raw objs sel tags) as [[v0 objs1]| | |] eqn:He;
      cbn [obind fst snd] in H; try discriminate.
    injection H as <- <-.
    pose proof (proj2 (proj2 (encodeItem_self_named_helper _ _ _ _ _ _ _ _ Hs He))) as Hob.
    unfold objRef. destruct v0; cbn in *.
    apply String.eqb_neq in Hp. rewrite Hp. rewrite Hob. auto.
Qed.

Lemma app_String a x y : (String a x ++ y)%string = String a (x ++ y).
Proof. reflexivity. Qed.
Lemma app_Empty y : ("" ++ y)%string = y.
Proof. reflexivity. Qed.
Lemma app_Empty_r x : (x ++ "")%string = x.
Proof. induction x as [|a x IH]; [reflexivity|]. rewrite app_String, IH. reflexivity. Qed.
Lemma app_assoc_str x y z : ((x ++ y) ++ z)%string = (x ++ (y ++ z))%string.
Proof. induction x as [|a x IH]; [reflexivity|]. rewrite !app_String, IH. reflexivity. Qed.
Lemma lchars_app x y : lchars (x ++ y) = (lchars x ++ lchars y)%list.
Proof. induction x as [|a x IH]; [reflexivity|]. rewrite app_String. cbn. unfold lchars in IH. rewrite IH. reflexivity. Qed.
Lemma lchars_String a x : lchars (String a x) = a :: lchars x.
Proof. reflexivity. Qed.
Lemma Contains_String a x ch : Contains (String a x) ch = Ascii.eqb a ch || Contains x ch.
Proof. reflexivity. Qed.
Lemma Contains_app x y ch : Contains (x ++ y) ch = Contains x ch || Contains y ch.
Proof. unfold Contains. rewrite lchars_app, existsb_app. reflexivity. Qed.

Lemma Split_cons x ch : exists p ps, Split x ch = p :: ps.
Proof.
  induction x as [|a x IH]; simpl; [eauto|].
  destruct IH as (p & ps & ->). destruct (Ascii.eqb a ch); eauto.
Qed.

Lemma Join_cons2 x y l ch : Join (x :: y :: l) ch = (x ++ String ch (Join (y :: l) ch))%string.
Proof. reflexivity. Qed.

Lemma Join_Split x ch : Join (Split x ch) ch = x.
Proof.
  induction x as [|a x IH]; [reflexivity|]. simpl.
  destruct (Split_cons x ch) as (p & ps & Hs). rewrite Hs in *.
  destruct (Ascii.eqb a ch) eqn:Ha.
  - apply Ascii.eqb_eq in Ha as ->. rewrite Join_cons2, <- IH. reflexivity.
  - destruct ps as [|q ps].
    + simpl in *. rewrite IH. reflexivity.
    + simpl in *. rewrite app_String, IH. reflexivity.
Qed.

Lemma Split_noch x ch : Contains x ch = false -> Split x ch = [x].
Proof.
  induction x as [|a x IH]; [reflexivity|].
  rewrite Contains_String. intros H. apply orb_false_iff in H as [Ha Hx].
  simpl. rewrite Ha, IH by exact Hx. reflexivity.
Qed.

Lemma Split_app x y ch : Split (x ++ String ch y) ch = (Split x ch ++ Split y ch)%list.
Proof.
  induction x as [|a x IH].
  - simpl. rewrite Ascii.eqb_refl. reflexivity.
  - rewrite app_String. simpl. rewrite IH.
    destruct (Split_cons x ch) as (p & ps & ->). simpl.
    destruct (Ascii.eqb a ch); reflexivity.
Qed.

Lemma Join_app l1 l2 ch : l1 <> [] -> l2 <> [] ->
  Join (l1 ++ l2)%list ch = (Join l1 ch ++ String ch (Join l2 ch))%string.
Proof.
  intros H1 H2. induction l1 as [|x l1 IH]; [congruence|].
  destruct l1 as [|y l1].
  - destruct l2; [congruence|]. reflexivity.
  - change ((x :: y :: l1) ++ l2)%list with (x :: ((y :: l1) ++ l2))%list.
    destruct ((y :: l1) ++ l2)%list as [|z l3] eqn:Hz; [destruct l1; discriminate|].
    rewrite (Join_cons2 x z l3), (Join_cons2 x y l1), IH by congruence.
    rewrite app_assoc_str. reflexivity.
Qed.

Lemma Split_Join l ch : l <> [] -> Forall (fun x => Contains x ch = false) l ->
  Split (Join l ch) ch = l.
Proof.
  intros Hne Hl. induction Hl as [|x l Hx Hl IH]; [congruence|].
  destruct l as [|y l].
  - apply Split_noch, Hx.
  - rewrite Join_cons2, Split_app, Split_noch by exact Hx. rewrite IH by congruence. reflexivity.
Qed.

Lemma Split_pieces x ch : Forall (fun p => Contains p ch = false) (Split x ch).
Proof.
  induction x as [|a x IH]; simpl; [repeat constructor|].
  destruct (Split_cons x ch) as (p & ps & Hs). rewrite Hs in *.
  destruct (Ascii.eqb a ch) eqn:Ha.
  - constructor; [reflexivity|exact IH].
  - inversion IH; subst. constructor; [|assumption].
    rewrite Contains_String, Ha. assumption.
Qed.

Lemma Split_length x ch : length (Split x ch) = S (countChar ch x).
Proof.
  unfold countChar, lchars. induction x as [|a x IH]; [reflexivity|].
  simpl. destruct (Split_cons x ch) as (p & ps & Hs). rewrite Hs in *.
  destruct (Ascii.eqb a ch) eqn:Ha; simpl in *; try rewrite Ha; simpl; lia.
Qed.

Lemma Contains_Join l ch c : Ascii.eqb ch c = false ->
  Forall (fun x => Contains x c = false) l -> Contains (Join l ch) c = false.
Proof.
  intros Hch Hl. induction Hl as [|x l Hx Hl IH]; [reflexivity|].
  destruct l as [|y l]; [exact Hx|].
  rewrite Join_cons2, Contains_app, Contains_String, Hx, Hch, IH. reflexivity.
Qed.

Lemma dropChar_none ch l : existsb (fun a => Ascii.eqb a ch) l = false -> dropChar ch l = l.
Proof.
  destruct l as [|a l]; [reflexivity|]. simpl. intros H.
  apply orb_false_iff in H as [-> _]. reflexivity.
Qed.

Lemma Trim_wrap x ch : Contains x ch = false ->
  Trim (String ch (x ++ String ch "")) ch = x.
Proof.
  unfold Trim, Contains. intros H.
  rewrite lchars_String, lchars_app. simpl dropChar. rewrite Ascii.eqb_refl.
  destruct (lchars x) as [|a l] eqn:Hl.
  - simpl. rewrite Ascii.eqb_refl. simpl.
    rewrite <- (string_of_list_ascii_of_string x). unfold lchars in Hl. rewrite Hl. reflexivity.
  - simpl in H. apply orb_false_iff in H as [Ha H].
    simpl. rewrite Ha. change (a :: (l ++ lchars (String ch ""))%list) with ((a :: l) ++ [ch])%list.
    rewrite (app_comm_cons l [ch] a), rev_app_distr. simpl. rewrite Ascii.eqb_refl.
    rewrite dropChar_none.
    + rewrite rev_app_distr, rev_involutive.
      transitivity (string_of_list_ascii (lchars x)); [rewrite Hl; reflexivity|].
      apply string_of_list_ascii_of_string.
    + apply not_true_is_false. intros Hr. apply existsb_exists in Hr as (c & Hc & Hce).
      apply in_app_iff in Hc as [Hc|[<-|[]]]; [|congruence].
      apply in_rev in Hc.
      assert (existsb (fun a => Ascii.eqb a ch) l = true) by (apply existsb_exists; eauto).
      congruence.
Qed.

Lemma tagLoop_eq str field : getTags str field = tagLoop field (Split (Trim str bq) space).
Proof. reflexivity. Qed.

Lemma tagLoop_cons field tag rest : tagLoop field (tag :: rest) =
  if negb (Contains tag colon) then None else
  match Split tag colon with
  | [tagName; vals] =>
      if negb (HasPrefix vals dqs) || negb (HasSuffix vals dqs) then None
      else if negb (String.eqb tagName field) then tagLoop field rest
      else Some (Trim vals dq)
  | _ => None
  end.
Proof. reflexivity. Qed.

Lemma plainTagText_no x c : plainTagText x = true -> In c [space; colon; dq; bq] ->
  Contains x c = false.
Proof.
  unfold plainTagText, Contains. intros Hp Hc. apply not_true_is_false. intros Hr.
  apply existsb_exists in Hr as (a & Ha & Hac). apply Ascii.eqb_eq in Hac as ->.
  rewrite forallb_forall in Hp. specialize (Hp _ Ha).
  destruct Hc as [<-|[<-|[<-|[<-|[]]]]]; rewrite Ascii.eqb_refl, ?orb_true_r in Hp; discriminate.
Qed.

Lemma tagItem_eq kv : tagItem kv = (fst kv ++ String colon (String dq (snd kv ++ String dq "")))%string.
Proof. reflexivity. Qed.

Lemma tagItem_facts kv : plainTagText (fst kv) = true -> plainTagText (snd kv) = true ->
  Contains (tagItem kv) space = false /\ Contains (tagItem kv) bq = false /\
  Contains (tagItem kv) colon = true /\
  Split (tagItem kv) colon = [fst kv; String dq (snd kv ++ String dq "")].
Proof.
  intros Hk Hv. rewrite tagItem_eq.
  pose proof (plainTagText_no _ space Hk ltac:(simpl; tauto)) as Hks.
  pose proof (plainTagText_no _ bq Hk ltac:(simpl; tauto)) as Hkb.
  pose proof (plainTagText_no _ colon Hk ltac:(simpl; tauto)) as Hkc.
  pose proof (plainTagText_no _ space Hv ltac:(simpl; tauto)) as Hvs.
  pose proof (plainTagText_no _ bq Hv ltac:(simpl; tauto)) as Hvb.
  pose proof (plainTagText_no _ colon Hv ltac:(simpl; tauto)) as Hvc.
  rewrite !Contains_app, !Contains_String, !Contains_app, !Contains_String.
  rewrite Hks, Hkb, Hkc, Hvs, Hvb, Hvc. simpl. split; [reflexivity|]. split; [reflexivity|].
  split; [reflexivity|].
  rewrite Split_app, (Split_noch (fst kv)) by exact Hkc.
  rewrite Split_noch; [reflexivity|].
  rewrite Contains_String, Contains_app, Contains_String, Hvc. reflexivity.
Qed.

Lemma prefix_dq x : String.prefix dqs (String dq x) = true.
Proof. apply String.prefix_correct. unfold dqs. cbn. destruct x; reflexivity. Qed.

Lemma quoted_prefix_suffix v :
  HasPrefix (String dq (v ++ String dq "")) dqs = true /\
  HasSuffix (String dq (v ++ String dq "")) dqs = true.
Proof.
  split; [apply prefix_dq|]. unfold HasSuffix.
  rewrite lchars_String, lchars_app, (app_comm_cons (lchars v) (lchars (String dq "")) dq).
  rewrite rev_app_distr. apply prefix_dq.
Qed.

Lemma tagLoop_kvs field kvs rest :
  forallb (fun kv => plainTagText (fst kv) && plainTagText (snd kv)) kvs = true ->
  tagLoop field (map tagItem kvs ++ rest)%list =
  match find (fun kv => String.eqb (fst kv) field) kvs with
  | Some kv => Some (snd kv)
  | None => tagLoop field rest
  end.
Proof.
  induction kvs as [|kv kvs IH]; intros Hp; [reflexivity|].
  simpl in Hp. apply andb_true_iff in Hp as [Hkv Hp]. apply andb_true_iff in Hkv as [Hk Hv].
  destruct (tagItem_facts kv Hk Hv) as (_ & _ & Hc & Hs).
  destruct (quoted_prefix_suffix (snd kv)) as [Hpre Hsuf].
  simpl app. rewrite tagLoop_cons, Hc, Hs, Hpre, Hsuf. simpl find.
  destruct (String.eqb (fst kv) field); simpl.
  - rewrite Trim_wrap; [reflexivity|]. apply (plainTagText_no _ dq Hv). simpl; tauto.
  - apply IH, Hp.
Qed.

Lemma Contains_Join_items l c : Ascii.eqb space c = false ->
  forallb (fun x => negb (Contains x c)) l = true -> Contains (Join l space) c = false.
Proof.
  intros Hsc Hl. apply Contains_Join; [exact Hsc|].
  apply List.Forall_forall. intros x Hx. rewrite forallb_forall in Hl. apply Hl in Hx.
  apply negb_true_iff in Hx. exact Hx.
Qed.

Lemma getTags_structTag_helper kvs field :
  forallb (fun kv => plainTagText (fst kv) && plainTagText (snd kv)) kvs = true ->
  getTags (structTag kvs) field = option_map snd (find (fun kv => String.eqb (fst kv) field) kvs).
Proof.
  intros Hp. rewrite tagLoop_eq. unfold structTag.
  assert (Hitems : forall kv, In kv kvs -> Contains (tagItem kv) space = false /\ Contains (tagItem kv) bq = false).
  { intros kv Hkv. rewrite forallb_forall in Hp. apply Hp in Hkv.
    apply andb_true_iff in Hkv as [Hk Hv]. destruct (tagItem_facts kv Hk Hv) as (? & ? & _); auto. }
  rewrite Trim_wrap.
  2:{ apply Contains_Join; [reflexivity|]. apply List.Forall_forall. intros x Hx.
      apply in_map_iff in Hx as (kv & <- & Hkv). apply Hitems, Hkv. }
  destruct kvs as [|kv0 kvs0]; [reflexivity|].
  rewrite Split_Join.
  2:{ discriminate. }
  2:{ apply List.Forall_forall. intros x Hx. apply in_map_iff in Hx as (kv & <- & Hkv). apply Hitems, Hkv. }
  rewrite <- (app_nil_r (map tagItem (kv0 :: kvs0))), tagLoop_kvs by exact Hp.
  destruct (find _ _); reflexivity.
Qed.

(** X4: [getTags] reads the items in order and gives up at the first item
    without a colon (for instance the empty item between two spaces): a field
    written after such an item is not found, even when well formed. *)
Lemma getTags_stops_at_malformed pre bad rest field :
  forallb (fun kv => plainTagText (fst kv) && plainTagText (snd kv)) pre = true ->
  forallb (fun kv => negb (String.eqb (fst kv) field)) pre = true ->
  Contains bad colon = false -> Contains bad space = false ->
  forallb (fun x => negb (Contains x bq)) (bad :: rest) = true ->
  getTags (String bq (Join (map tagItem pre ++ bad :: rest)%list space ++ String bq "")) field = None.
Proof.
  intros Hp Hf Hbc Hbs Hb. rewrite tagLoop_eq.
  assert (Hitems : forall kv, In kv pre -> Contains (tagItem kv) space = false /\ Contains (tagItem kv) bq = false).
  { intros kv Hkv. rewrite forallb_forall in Hp. apply Hp in Hkv.
    apply andb_true_iff in Hkv as [Hk Hv]. destruct (tagItem_facts kv Hk Hv) as (? & ? & _); auto. }
  simpl in Hb. apply andb_true_iff in Hb as [Hbb Hr]. apply negb_true_iff in Hbb.
  rewrite Trim_wrap.
  2:{ apply Contains_Join; [reflexivity|]. apply Forall_app. split.
      - apply List.Forall_forall. intros x Hx. apply in_map_iff in Hx as (kv & <- & Hkv). apply Hitems, Hkv.
      - constructor; [exact Hbb|]. apply List.Forall_forall. intros x Hx.
        rewrite forallb_forall in Hr. apply Hr in Hx. apply negb_true_iff in Hx. exact Hx. }
  assert (Hl1 : Forall (fun x => Contains x space = false) (map tagItem pre ++ [bad])%list).
  { apply Forall_app. split; [|constructor; [exact Hbs|constructor]].
    apply List.Forall_forall. intros x Hx. apply in_map_iff in Hx as (kv & <- & Hkv). apply Hitems, Hkv. }
  assert (HS : exists R, Split (Join (map tagItem pre ++ bad :: rest)%list space) space =
                         (map tagItem pre ++ bad :: R)%list).
  { destruct rest as [|r0 rest0].
    - exists []. apply Split_Join; [destruct (map tagItem pre); discriminate|exact Hl1].
    - exists (Split (Join (r0 :: rest0) space) space).
      replace (map tagItem pre ++ bad :: r0 :: rest0)%list
        with ((map tagItem pre ++ [bad]) ++ r0 :: rest0)%list by (rewrite <- app_assoc; reflexivity).
      rewrite Join_app, Split_app, Split_Join by (try exact Hl1; destruct (map tagItem pre); discriminate).
      rewrite <- app_assoc. reflexivity. }
  destruct HS as (R & ->). rewrite tagLoop_kvs by exact Hp.
  replace (find (fun kv => String.eqb (fst kv) field) pre) with (@None (string * string)).
  - rewrite tagLoop_cons, Hbc. reflexivity.
  - symmetry. clear -Hf. induction pre as [|kv pre IH]; [reflexivity|].
    simpl in *. apply andb_true_iff in Hf as [Hk Hf]. apply negb_true_iff in Hk. rewrite Hk. apply IH, Hf.
Qed.

Lemma digitVal_pretty_N_char d : (d < 10)%N -> digitVal (pretty_N_char d) = Some (Z.of_N d).
Proof.
  intros Hd. assert (d = 0 \/ d = 1 \/ d = 2 \/ d = 3 \/ d = 4 \/ d = 5 \/ d = 6 \/ d = 7 \/ d = 8 \/ d = 9)%N
    as Hc by lia.
  repeat destruct Hc as [->|Hc]; try reflexivity. subst. reflexivity.
Qed.

Lemma pretty_N_go_spec (x : N) (s : string) : exists pre,
  lchars (pretty_N_go x s) = (pre ++ lchars s)%list /\
  Forall (fun a => exists d, digitVal a = Some d) pre /\
  ((0 < x)%N -> pre <> []) /\
  forall l acc, decimalDigits (pre ++ l)%list acc =
                decimalDigits l (acc * 10 ^ Z.of_nat (length pre) + Z.of_N x)%Z.
Proof.
  revert s. induction (N.lt_wf_0 x) as [x _ IH]; intros s.
  destruct (decide (x = 0%N)) as [->|Hx].
  - exists []. rewrite pretty_N_go_0. split; [reflexivity|]. split; [constructor|].
    split; [lia|]. intros l acc. simpl. f_equal. lia.
  - rewrite pretty_N_go_step by lia.
    assert (Hlt : (x / 10 < x)%N) by (apply N.div_lt; lia).
    destruct (IH (x / 10)%N Hlt (String (pretty_N_char (x mod 10)) s)) as (pre & Hl & Hd & _ & Hv).
    assert (Hc : digitVal (pretty_N_char (x mod 10)) = Some (Z.of_N (x mod 10)))
      by (apply digitVal_pretty_N_char, N.mod_lt; lia).
    exists (pre ++ [pretty_N_char (x mod 10)])%list. split; [|split; [|split]].
    + rewrite Hl, <- app_assoc. reflexivity.
    + apply Forall_app. split; [exact Hd|]. constructor; [eauto|constructor].
    + intros _. destruct pre; discriminate.
    + intros l acc. rewrite <- app_assoc. simpl app. rewrite Hv. simpl. rewrite Hc.
      f_equal. rewrite length_app. simpl length.
      rewrite Nat2Z.inj_add, Z.pow_add_r by lia. rewrite N2Z.inj_div, N2Z.inj_mod.
      pose proof (Z.div_mod (Z.of_N x) 10 ltac:(lia)). simpl (10 ^ Z.of_nat 1)%Z. nia.
Qed.

Lemma Atoi_pretty (n : Z) :
  Atoi (pretty n) = if ((- 2 ^ 63 <=? n) && (n <=? 2 ^ 63 - 1))%Z then Some n else None.
Proof.
  destruct n as [|p|p]; [reflexivity| |].
  - change (pretty (Zpos p)) with (pretty_N_go (Npos p) "").
    destruct (pretty_N_go_spec (Npos p) "") as (pre & Hl & Hd & Hn & Hv).
    rewrite app_nil_r in Hl. unfold Atoi. rewrite Hl.
    destruct pre as [|a r]; [exfalso; apply Hn; [lia|reflexivity]|].
    inversion Hd as [|? ? [d Ha] _]; subst.
    assert (Ham : Ascii.eqb a "-"%char = false)
      by (destruct (Ascii.eqb_spec a "-"%char) as [->|]; [discriminate|reflexivity]).
    assert (Hap : Ascii.eqb a "+"%char = false)
      by (destruct (Ascii.eqb_spec a "+"%char) as [->|]; [discriminate|reflexivity]).
    rewrite Ham, Hap. rewrite <- (app_nil_r (a :: r)), Hv. simpl decimalDigits.
    replace (0 * 10 ^ Z.of_nat (length (a :: r)) + Z.of_N (N.pos p))%Z with (Zpos p) by lia.
    replace (1 * Z.pos p)%Z with (Z.pos p) by lia. reflexivity.
  - change (pretty (Zneg p)) with (String "-" (pretty_N_go (Npos p) "")).
    destruct (pretty_N_go_spec (Npos p) "") as (pre & Hl & Hd & Hn & Hv).
    rewrite app_nil_r in Hl. unfold Atoi. rewrite lchars_String, Hl. simpl (Ascii.eqb _ _).
    destruct pre as [|a r]; [exfalso; apply Hn; [lia|reflexivity]|].
    rewrite <- (app_nil_r (a :: r)), Hv. simpl decimalDigits.
    replace (-1 * (0 * 10 ^ Z.of_nat (length (a :: r)) + Z.of_N (N.pos p)))%Z with (Zneg p) by lia.
    reflexivity.
Qed.

Lemma digit_plain a d : digitVal a = Some d ->
  negb (Ascii.eqb a space || Ascii.eqb a colon || Ascii.eqb a dq || Ascii.eqb a bq) = true.
Proof.
  intros H.
  destruct (Ascii.eqb_spec a space) as [->|]; [discriminate|].
  destruct (Ascii.eqb_spec a colon) as [->|]; [discriminate|].
  destruct (Ascii.eqb_spec a dq) as [->|]; [discriminate|].
  destruct (Ascii.eqb_spec a bq) as [->|]; [discriminate|]. reflexivity.
Qed.

Lemma plainTagText_pretty (n : Z) : plainTagText (pretty n) = true.
Proof.
  assert (Hg : forall p, plainTagText (pretty_N_go (Npos p) "") = true).
  { intros p. destruct (pretty_N_go_spec (Npos p) "") as (pre & Hl & Hd & _).
    unfold plainTagText. rewrite Hl, app_nil_r. apply forallb_forall. intros a Ha.
    rewrite List.Forall_forall in Hd. destruct (Hd a Ha) as [d Hda]. exact (digit_plain a d Hda). }
  destruct n as [|p|p]; [reflexivity|apply Hg|].
  change (pretty (Zneg p)) with (String "-" (pretty_N_go (Npos p) "")).
  unfold plainTagText. rewrite lchars_String. simpl forallb. apply Hg.
Qed.

Lemma tagOf_structTag k v : tagOf k v = structTag [(k, v)].
Proof.
  unfold tagOf, structTag. simpl. rewrite tagItem_eq.
  repeat first [rewrite app_String | rewrite app_assoc_str]. reflexivity.
Qed.

(** X3: on a well-formed tag (items [key:"value"] separated by single
    spaces, keys and values free of spaces, colons and quotes), [getTags]
    returns the value of the first item whose key is the field, and nothing
    when no key matches. *)
Theorem getTags_structTag kvs field :
  forallb (fun kv => plainTagText (fst kv) && plainTagText (snd kv)) kvs = true ->
  getTags (structTag kvs) field = option_map snd (find (fun kv => String.eqb (fst kv) field) kvs).
Proof. apply getTags_structTag_helper. Qed.

(** X5: [getTagsInt] on a tag holding a decimal integer returns it
    converted to uint64 (taken modulo 2^64, so a negative value wraps around)
    when it lies in the int64 range, and (0, false) otherwise. *)
Theorem getTagsInt_pretty k (n : Z) :
  plainTagText k = true ->
  getTagsInt (tagOf k (pretty n)) k =
  if ((- 2 ^ 63 <=? n) && (n <=? 2 ^ 63 - 1))%Z then (n mod 2 ^ 64, true)%Z else (0%Z, false).
Proof.
  intros Hk. unfold getTagsInt. rewrite tagOf_structTag, getTags_structTag_helper.
  - simpl. rewrite String.eqb_refl. simpl. rewrite Atoi_pretty.
    destruct (_ && _); reflexivity.
  - simpl. rewrite Hk, plainTagText_pretty. reflexivity.
Qed.

(** X1: for a non-empty value, [decodeList] returns the pieces of the
    trimmed value between its commas: joined with commas they give the trimmed
    value back, no piece holds a comma, and there is one piece more than the
    trimmed value has commas. A blank value thus gives [[""]], and a space
    after a comma stays at the start of the next piece. *)
Theorem decodeList_split TrimSpace input :
  input <> "" ->
  Join (decodeList TrimSpace input) ","%char = TrimSpace input /\
  Forall (fun x => Contains x ","%char = false) (decodeList TrimSpace input) /\
  length (decodeList TrimSpace input) = S (countChar ","%char (TrimSpace input)).
Proof.
  intros Hne. unfold decodeList.
  destruct (String.eqb_spec input "") as [->|_]; [congruence|].
  split; [apply Join_Split|]. split; [apply Split_pieces|apply Split_length].
Qed.

Lemma imports_fold files a :
  foldM (fun imps nf => addImports imps (decodeASTImports (snd nf))) files a =
  foldM importStep (sourceImports files) a.
Proof.
  revert a. induction files as [|nf files IH]; intros a; [reflexivity|].
  rewrite foldM_cons. unfold sourceImports. simpl flat_map. rewrite foldM_app.
  change (addImports a (decodeASTImports (snd nf))) with (foldM importStep (decodeASTImports (snd nf)) a).
  destruct (foldM importStep (decodeASTImports (snd nf)) a); cbn [obind]; [apply IH|reflexivity..].
Qed.

Lemma astImport_eta (i : astImport) : i = mkAstImport (alias i) (path i).
Proof. destruct i; reflexivity. Qed.

Lemma importStep_fold l a a' :
  foldM importStep l a = Ok a' -> NoDup (map path a) ->
  NoDup (map path a') /\ forall i, In i a' <-> In i a \/ In i l.
Proof.
  revert a. induction l as [|x l IH]; intros a H Hnd.
  - cbn in H. injection H as <-. split; [exact Hnd|]. intros i. simpl. tauto.
  - rewrite foldM_cons in H. unfold importStep at 1 in H.
    destruct (find (fun j => String.eqb (path j) (path x)) a) as [j|] eqn:Hf.
    + apply find_some in Hf as [Hj Hp]. apply String.eqb_eq in Hp.
      destruct (String.eqb_spec (alias x) (alias j)) as [Ha|]; cbn [obind] in H; [|discriminate].
      assert (x = j) as <- by (rewrite (astImport_eta x), (astImport_eta j), Ha, Hp; reflexivity).
      destruct (IH a H Hnd) as [Hnd' Hin]. split; [exact Hnd'|].
      intros i. rewrite Hin. simpl. intuition congruence.
    + cbn [obind] in H. assert (Hnd1 : NoDup (map path (a ++ [x]))).
      { rewrite map_app. apply NoDup_app. split; [exact Hnd|]. split; [|apply NoDup_singleton].
        intros p Hp Hp'. apply list_elem_of_singleton in Hp'. subst p.
        apply list_elem_of_In, in_map_iff in Hp as (y & Hy & Hya).
        pose proof (find_none _ _ Hf y Hya) as Hn. simpl in Hn.
        apply String.eqb_neq in Hn. congruence. }
      destruct (IH _ H Hnd1) as [Hnd' Hin]. split; [exact Hnd'|].
      intros i. rewrite Hin, in_app_iff. simpl. tauto.
Qed.

Lemma importStep_ok_or_err l a :
  (exists a', foldM importStep l a = Ok a') \/ (exists msg, foldM importStep l a = Err msg).
Proof.
  revert a. induction l as [|x l IH]; intros a; [left; eexists; reflexivity|].
  rewrite !foldM_cons. destruct (importStep a x) as [y|m|m|] eqn:Hs; cbn [obind].
  - apply IH.
  - right; eexists; reflexivity.
  - unfold importStep in Hs. destruct (find _ a); [destruct (String.eqb _ _)|]; discriminate.
  - unfold importStep in Hs. destruct (find _ a); [destruct (String.eqb _ _)|]; discriminate.
Qed.

Lemma NoDup_map_inj {A B} (f : A -> B) l x y :
  NoDup (map f l) -> In x l -> In y l -> f x = f y -> x = y.
Proof.
  induction l as [|z l IH]; intros Hnd Hx Hy Hf; [destruct Hx|].
  simpl in Hnd. apply NoDup_cons in Hnd as [Hz Hnd].
  destruct Hx as [<-|Hx], Hy as [<-|Hy]; auto.
  - exfalso. apply Hz. apply list_elem_of_In, in_map_iff. eauto.
  - exfalso. apply Hz. apply list_elem_of_In, in_map_iff. eauto.
Qed.

(** X11: after a successful build, the imports of the environment are
    exactly the imports of the source files, with no import path twice. *)
Theorem generateIR_imports ext fuel files include targets env :
  generateIR ext fuel files include targets = Ok env ->
  NoDup (map path (envImports env)) /\
  forall i, In i (envImports env) <-> In i (sourceImports files).
Proof.
  intros H. destruct (generateIR_parts _ _ _ _ _ _ H) as (Hi & _ & _).
  rewrite imports_fold in Hi. destruct (importStep_fold _ _ _ Hi ltac:(constructor)) as [Hnd Hin].
  split; [exact Hnd|]. intros i. rewrite Hin. simpl. tauto.
Qed.

(** X12: when two source imports have the same path but different aliases,
    the build fails. *)
Theorem generateIR_import_alias_conflict ext fuel files include targets i i' :
  In i (sourceImports files) -> In i' (sourceImports files) ->
  path i = path i' -> alias i <> alias i' ->
  exists msg, generateIR ext fuel files include targets = Err msg.
Proof.
  intros Hi Hi' Hp Ha. unfold generateIR.
  destruct (fold_left _ files (Ok [])) as [imps| | |] eqn:Hf.
  - exfalso. change (foldM (fun imps nf => addImports imps (decodeASTImports (snd nf))) files [] = Ok imps) in Hf.
    rewrite imports_fold in Hf. destruct (importStep_fold _ _ _ Hf ltac:(constructor)) as [Hnd Hin].
    assert (i = i') as <-.
    { apply (NoDup_map_inj path imps); auto; apply Hin; auto. }
    congruence.
  - cbn [obind]. eexists; reflexivity.
  - exfalso. change (foldM (fun imps nf => addImports imps (decodeASTImports (snd nf))) files [] = Panic msg) in Hf.
    rewrite imports_fold in Hf. destruct (importStep_ok_or_err (sourceImports files) []) as [[? H]|[? H]]; congruence.
  - exfalso. change (foldM (fun imps nf => addImports imps (decodeASTImports (snd nf))) files [] = NoFuel) in Hf.
    rewrite imports_fold in Hf. destruct (importStep_ok_or_err (sourceImports files) []) as [[? H]|[? H]]; congruence.
Qed.

(** X2: when the -objs value is non-empty but blank, the target list is
    [[""]], which names no type: a successful build registers no model at all
    (when no declared type has the empty name). *)
Theorem generateIR_blank_objs ext fuel files include TrimSpace input env :
  input <> "" -> TrimSpace input = "" ->
  generateIR ext fuel files include (decodeList TrimSpace input) = Ok env ->
  (forall it, In it (envRaw env) -> Raw.name it <> "") ->
  envObjs env = ∅.
Proof.
  intros Hne Hts H Hnm.
  assert (Hd : decodeList TrimSpace input = [""]).
  { unfold decodeList. destruct (String.eqb_spec input "") as [->|_]; [congruence|]. rewrite Hts. reflexivity. }
  rewrite Hd in H. destruct (generateIR_parts _ _ _ _ _ _ H) as (_ & _ & Ho).
  refine (foldM_inv (fun objs : registry => objs = ∅) (irStep ext fuel (envRaw env) [""])
            (envRaw env) ∅ (envObjs env) eq_refl _ Ho).
  intros y it y' -> Hit Hs. unfold irStep, contains in Hs. cbn [existsb] in Hs.
  destruct (String.eqb_spec (Raw.name it) "") as [He|_]; [exfalso; exact (Hnm it Hit He)|].
  cbn [orb] in Hs. injection Hs as <-. reflexivity.
Qed.

Lemma appendWithoutRepeated_spec xs ys : NoDup xs ->
  NoDup (appendWithoutRepeated xs ys) /\
  forall z, In z (appendWithoutRepeated xs ys) <-> In z xs \/ In z ys.
Proof.
  unfold appendWithoutRepeated. revert xs. induction ys as [|y ys IH]; intros xs Hnd.
  - split; [exact Hnd|]. simpl. tauto.
  - simpl. destruct (existsb (String.eqb y) xs) eqn:He.
    + destruct (IH xs Hnd) as [Hnd' Hin]. split; [exact Hnd'|]. intros z. rewrite Hin.
      apply existsb_exists in He as (w & Hw & Hyw). apply String.eqb_eq in Hyw. subst w.
      simpl. intuition congruence.
    + assert (Hnd1 : NoDup (xs ++ [y])).
      { apply NoDup_app. split; [exact Hnd|]. split; [|apply NoDup_singleton].
        intros w Hw Hw'. apply list_elem_of_singleton in Hw'. subst w.
        apply list_elem_of_In in Hw.
        assert (existsb (String.eqb y) xs = true) by (apply existsb_exists; exists y; split; [exact Hw|apply String.eqb_refl]).
        congruence. }
      destruct (IH _ Hnd1) as [Hnd' Hin]. split; [exact Hnd'|]. intros z. rewrite Hin, in_app_iff.
      simpl. tauto.
Qed.

Lemma detectImports_fold_None l :
  fold_left (fun acc i =>
    match acc with
    | None => None
    | Some refs =>
        let r := match t i with
                 | TypeReference => Some (if noPtr i then "" else ref i)
                 | TypeContainer => Some (ref i)
                 | TypeList | TypeVector =>
                     match e i with Some el => Some (ref el) | None => None end
                 | _ => Some (ref i)
                 end in
        match r with
        | None => None
        | Some r => if String.eqb r "" then Some refs else Some (app refs [r])
        end
    end) l None = None.
Proof. induction l; simpl; auto. Qed.

Lemma detectImports_fold_nonempty l acc refs :
  fold_left (fun acc i =>
    match acc with
    | None => None
    | Some refs =>
        let r := match t i with
                 | TypeReference => Some (if noPtr i then "" else ref i)
                 | TypeContainer => Some (ref i)
                 | TypeList | TypeVector =>
                     match e i with Some el => Some (ref el) | None => None end
                 | _ => Some (ref i)
                 end in
        match r with
        | None => None
        | Some r => if String.eqb r "" then Some refs else Some (app refs [r])
        end
    end) l (Some acc) = Some refs -> ~ In "" acc -> ~ In "" refs.
Proof.
  revert acc. induction l as [|i l IH]; intros acc H Hacc.
  - simpl in H. injection H as <-. exact Hacc.
  - simpl in H. destruct (match t i with
                 | TypeReference => Some (if noPtr i then "" else ref i)
                 | TypeContainer => Some (ref i)
                 | TypeList | TypeVector =>
                     match e i with Some el => Some (ref el) | None => None end
                 | _ => Some (ref i)
                 end) as [r|].
    + destruct (String.eqb_spec r "") as [_|Hr].
      * exact (IH acc H Hacc).
      * apply (IH _ H). rewrite in_app_iff; simpl; intuition congruence.
    + rewrite detectImports_fold_None in H. discriminate.
Qed.

Lemma detectImports_nonempty v refs : detectImports v = Some refs -> ~ In "" refs.
Proof. intros H. exact (detectImports_fold_nonempty (o v) [] refs H ltac:(simpl; tauto)). Qed.

Lemma print_fold excl objs order st st' :
  foldM (printStep excl objs) order st = Ok st' -> NoDup (snd st) -> ~ In "" (snd st) ->
  NoDup (snd st') /\ ~ In "" (snd st') /\
  forall r, In r (snd st') <-> In r (snd st) \/
    exists nm ob refs, In nm order /\ default false (excl !! nm) = false /\
      objs !! nm = Some ob /\ detectImports ob = Some refs /\ In r refs.
Proof.
  revert st. induction order as [|nm order IH]; intros [out imps] H Hnd Hne.
  - cbn in H. injection H as <-. split; [exact Hnd|]. split; [exact Hne|].
    intros r. split; [tauto|]. intros [Hr|(? & ? & ? & [] & _)]. exact Hr.
  - rewrite foldM_cons in H. unfold printStep at 1 in H.
    destruct (default false (excl !! nm)) eqn:Hx.
    + cbn [obind] in H. destruct (IH _ H Hnd Hne) as (Hnd' & Hne' & Hin).
      split; [exact Hnd'|]. split; [exact Hne'|]. intros r. rewrite Hin. simpl.
      split; [intros [Hr|(nm' & ob & refs & Hn & Hrest)]; [left; exact Hr|right; exists nm', ob, refs; auto]|].
      intros [Hr|(nm' & ob & refs & [<-|Hn] & Hx' & Hrest)]; [left; exact Hr|congruence|].
      right. exists nm', ob, refs. auto.
    + destruct (objs !! nm) as [ob|] eqn:Ho.
      * destruct (detectImports ob) as [refs|] eqn:Hd; [|discriminate].
        pose proof (appendWithoutRepeated_spec imps refs Hnd) as [Hnd1 Hin1].
        pose proof (detectImports_nonempty _ _ Hd) as Hr0.
        assert (Hne1 : ~ In "" (appendWithoutRepeated imps refs)) by (rewrite Hin1; tauto).
        destruct (isFixed ob) as [fx|]; [|discriminate].
        assert (Hstep : exists out1, foldM (printStep excl objs) order (out1, appendWithoutRepeated imps refs) = Ok st').
        { destruct (fx && isBasicType ob); cbn [obind] in H; eexists; exact H. }
        destruct Hstep as (out1 & H1).
        destruct (IH _ H1 Hnd1 Hne1) as (Hnd' & Hne' & Hin).
        split; [exact Hnd'|]. split; [exact Hne'|]. intros r. rewrite Hin. simpl. rewrite Hin1.
        split.
        -- intros [[Hr|Hr]|(nm' & ob' & refs' & Hn & Hrest)]; [left; exact Hr| |].
           ++ right. exists nm, ob, refs. auto.
           ++ right. exists nm', ob', refs'. auto.
        -- intros [Hr|(nm' & ob' & refs' & [<-|Hn] & Hx' & Ho' & Hd' & Hr)]; [left; left; exact Hr| |].
           ++ left. right. rewrite Ho in Ho'. injection Ho' as <-. rewrite Hd in Hd'. injection Hd' as <-. exact Hr.
           ++ right. exists nm', ob', refs'. auto.
      * cbn [obind] in H. destruct (IH _ H Hnd Hne) as (Hnd' & Hne' & Hin).
        split; [exact Hnd'|]. split; [exact Hne'|]. intros r. rewrite Hin. simpl.
        split; [intros [Hr|(nm' & ob & refs & Hn & Hrest)]; [left; exact Hr|right; exists nm', ob, refs; auto]|].
        intros [Hr|(nm' & ob & refs & [<-|Hn] & Hx' & Ho' & Hrest)]; [left; exact Hr|congruence|].
        right. exists nm', ob, refs. auto.
Qed.

(** X13: the import references collected by [print] have no duplicate and
    no empty entry, and are exactly the references detected in the printed,
    non-excluded, registered types. *)
Theorem print_imports excl objs order out imps :
  print excl objs order = Ok (out, imps) ->
  NoDup imps /\ ~ In "" imps /\
  forall r, In r imps <-> exists nm ob refs, In nm order /\ default false (excl !! nm) = false /\
      objs !! nm = Some ob /\ detectImports ob = Some refs /\ In r refs.
Proof.
  intros H. destruct (print_fold excl objs order ([], []) (out, imps) H ltac:(constructor) ltac:(simpl; tauto))
    as (Hnd & Hne & Hin).
  split; [exact Hnd|]. split; [exact Hne|]. intros r. rewrite Hin. simpl. tauto.
Qed.

Lemma app_sep_inj a1 a2 r1 r2 c : Contains a1 c = false -> Contains a2 c = false ->
  (a1 ++ String c r1 = a2 ++ String c r2)%string -> a1 = a2 /\ r1 = r2.
Proof.
  revert a2. induction a1 as [|x a1 IH]; intros [|y a2] H1 H2 H.
  - injection H. auto.
  - rewrite app_Empty, app_String in H. injection H as Hc _. subst y.
    rewrite Contains_String, Ascii.eqb_refl in H2. discriminate.
  - rewrite app_Empty, app_String in H. injection H as Hc _. subst x.
    rewrite Contains_String, Ascii.eqb_refl in H1. discriminate.
  - rewrite !app_String in H. injection H as -> H.
    rewrite Contains_String in H1, H2. apply orb_false_iff in H1 as [_ H1]. apply orb_false_iff in H2 as [_ H2].
    destruct (IH a2 H1 H2 H) as [-> ->]. auto.
Qed.

Lemma app_tail_inj x y z : (x ++ z = y ++ z)%string -> x = y.
Proof.
  intros H. apply (f_equal lchars) in H. rewrite !lchars_app in H. apply app_inv_tail in H.
  rewrite <- (string_of_list_ascii_of_string x), <- (string_of_list_ascii_of_string y).
  unfold lchars in H. rewrite H. reflexivity.
Qed.

Lemma getFullName_split a :
  getFullName a = ((if String.eqb (alias a) "" then "" else alias a ++ " ") ++ String dq (path a ++ dqs))%string.
Proof.
  unfold getFullName. destruct (String.eqb (alias a) ""); [reflexivity|].
  rewrite !app_assoc_str. reflexivity.
Qed.

Lemma app_String_nonempty x c y : (x ++ String c y)%string <> "".
Proof. destruct x; discriminate. Qed.

Lemma getFullName_inj a b : Contains (alias a) dq = false -> Contains (alias b) dq = false ->
  getFullName a = getFullName b -> a = b.
Proof.
  intros Ha Hb H. rewrite !getFullName_split in H.
  assert (Hpre : forall x, Contains x dq = false ->
            Contains (if String.eqb x "" then "" else x ++ " ") dq = false).
  { intros x Hx. destruct (String.eqb x ""); [reflexivity|]. rewrite Contains_app, Hx. reflexivity. }
  apply app_sep_inj in H as [Hp Hq]; [|apply Hpre, Ha|apply Hpre, Hb].
  apply app_tail_inj in Hq.
  rewrite (astImport_eta a), (astImport_eta b), Hq. f_equal.
  destruct (String.eqb_spec (alias a) ""), (String.eqb_spec (alias b) ""); try congruence.
  - exfalso. symmetry in Hp. exact (app_String_nonempty _ _ _ Hp).
  - exfalso. exact (app_String_nonempty _ _ _ Hp).
  - apply app_tail_inj in Hp. exact Hp.
Qed.

Lemma buildImports_fold E l acc :
  fold_left (fun res i =>
    let imp := findImport E i in
    if String.eqb imp "" then res else app res [imp]) l acc =
  (acc ++ List.filter (fun x => negb (String.eqb x "")) (map (findImport E) l))%list.
Proof.
  revert acc. induction l as [|r l IH]; intros acc; simpl; [rewrite app_nil_r; reflexivity|].
  rewrite IH. destruct (String.eqb (findImport E r) ""); simpl; [reflexivity|].
  rewrite <- app_assoc. reflexivity.
Qed.

Lemma findImport_found E r : findImport E r <> "" ->
  exists i, In i E /\ astImport_match i r = true /\ findImport E r = getFullName i.
Proof.
  unfold findImport. destruct (find (fun i => astImport_match i r) E) as [i|] eqn:Hf; [|congruence].
  intros _. apply find_some in Hf as [Hi Hm]. eauto.
Qed.

Lemma astImport_match_inj i r1 r2 : astImport_match i r1 = true -> astImport_match i r2 = true -> r1 = r2.
Proof.
  unfold astImport_match. destruct (String.eqb (alias i) "");
    intros H1 H2; apply String.eqb_eq in H1, H2; congruence.
Qed.

Lemma NoDup_filter_map_nonempty (f : string -> string) l :
  NoDup l -> (forall x y, In x l -> In y l -> f x = f y -> f x <> "" -> x = y) ->
  NoDup (List.filter (fun z => negb (String.eqb z "")) (map f l)).
Proof.
  induction l as [|x l IH]; intros Hnd Hinj; [constructor|].
  apply NoDup_cons in Hnd as [Hx Hnd]. simpl.
  assert (IH' : NoDup (List.filter (fun z => negb (String.eqb z "")) (map f l)))
    by (apply IH; [exact Hnd|intros; apply Hinj; simpl; auto]).
  destruct (String.eqb_spec (f x) "") as [He|Hne]; simpl; [exact IH'|].
  apply NoDup_cons. split; [|exact IH'].
  intros Hin. apply list_elem_of_In, filter_In in Hin as [Hin _].
  apply in_map_iff in Hin as (y & Hy & Hyl).
  assert (x = y) as <- by (apply Hinj; simpl; auto).
  apply Hx, list_elem_of_In, Hyl.
Qed.

(** X14: the import lines built from the references collected by [print]
    have no duplicate (when no alias holds a double quote), and each line is
    the full name of a known import matching one of the references. *)
Theorem print_buildImports excl objs order out imps E :
  print excl objs order = Ok (out, imps) ->
  Forall (fun i => Contains (alias i) dq = false) E ->
  NoDup (buildImports E imps) /\
  forall line, In line (buildImports E imps) ->
    exists r i, In r imps /\ In i E /\ astImport_match i r = true /\ line = getFullName i.
Proof.
  intros Hp HE. destruct (print_fold excl objs order ([], []) (out, imps) Hp ltac:(constructor) ltac:(simpl; tauto))
    as (Hnd & _ & _). simpl in Hnd.
  unfold buildImports. rewrite buildImports_fold. simpl. split.
  - apply NoDup_filter_map_nonempty; [exact Hnd|].
    intros r1 r2 _ _ Heq Hne.
    destruct (findImport_found E r1 Hne) as (i1 & Hi1 & Hm1 & Hf1).
    assert (Hne2 : findImport E r2 <> "") by congruence.
    destruct (findImport_found E r2 Hne2) as (i2 & Hi2 & Hm2 & Hf2).
    rewrite List.Forall_forall in HE.
    assert (i1 = i2) as <- by (apply getFullName_inj; auto; congruence).
    exact (astImport_match_inj i1 r1 r2 Hm1 Hm2).
  - intros line Hl. apply filter_In in Hl as [Hl Hne].
    apply in_map_iff in Hl as (r & <- & Hr). apply negb_true_iff, String.eqb_neq in Hne.
    destruct (findImport_found E r Hne) as (i & Hi & Hm & Hf). exists r, i. auto.
Qed.

Lemma lookupOrder_In (order : list (string * list string)) k v :
  NoDup (map fst order) -> In (k, v) order -> lookupOrder order k = v.
Proof.
  induction order as [|[k' v'] order IH]; intros Hnd Hin; [destruct Hin|].
  simpl in Hnd. apply NoDup_cons in Hnd as [Hk Hnd]. unfold lookupOrder. simpl.
  destruct Hin as [Heq|Hin].
  - injection Heq as -> ->. rewrite String.eqb_refl. reflexivity.
  - destruct (String.eqb_spec k' k) as [->|_].
    + exfalso. apply Hk, list_elem_of_In, in_map_iff. exists (k, v). auto.
    + apply IH; auto.
Qed.

Lemma lookupOrder_notin (order : list (string * list string)) k :
  (forall v, ~ In (k, v) order) -> lookupOrder order k = [].
Proof.
  unfold lookupOrder. destruct (find _ order) as [[k' v]|] eqn:Hf; [|reflexivity].
  apply find_some in Hf as [Hin Hk]. apply String.eqb_eq in Hk. simpl in Hk. subst k'.
  intros H. exfalso. exact (H v Hin).
Qed.

Lemma lookupOrder_perm (order1 order2 : list (string * list string)) k :
  NoDup (map fst order1) -> Permutation order1 order2 -> lookupOrder order1 k = lookupOrder order2 k.
Proof.
  intros Hnd Hp.
  assert (Hnd2 : NoDup (map fst order2)).
  { assert (Hpm : map fst order1 ≡ₚ map fst order2) by (apply Permutation_map, Hp).
    rewrite <- Hpm. exact Hnd. }
  assert (Hdec : (exists v, In (k, v) order1) \/ (forall v, ~ In (k, v) order1)).
  { destruct (find (fun p => String.eqb (fst p) k) order1) as [[k' v]|] eqn:Hf.
    - left. apply find_some in Hf as [Hin Hk]. apply String.eqb_eq in Hk. simpl in Hk. subst k'. eauto.
    - right. intros v Hv. pose proof (find_none _ _ Hf _ Hv) as Hk. simpl in Hk.
      rewrite String.eqb_refl in Hk. discriminate. }
  destruct Hdec as [[v Hv]|Hn].
  - rewrite (lookupOrder_In order1 k v Hnd Hv).
    rewrite (lookupOrder_In order2 k v Hnd2 (Permutation_in _ Hp Hv)). reflexivity.
  - rewrite !lookupOrder_notin; auto.
    intros v Hv. apply (Hn v). apply (Permutation_in _ (Permutation_sym Hp) Hv).
Qed.

Lemma fold_orders_ext (f g : string -> list string) keys acc :
  (forall k, f k = g k) ->
  fold_left (fun acc k => app acc (f k)) keys acc = fold_left (fun acc k => app acc (g k)) keys acc.
Proof.
  intros H. revert acc. induction keys as [|k keys IH]; intros acc; simpl; [reflexivity|].
  rewrite H. apply IH.
Qed.

(** X15: the output of [generateOutputEncodings] does not depend on the order
    in which the files of the order map are listed. *)
Theorem generateOutputEncodings_order_independent excl objs order1 order2 output :
  NoDup (map fst order1) -> Permutation order1 order2 ->
  generateOutputEncodings excl objs order1 output = generateOutputEncodings excl objs order2 output.
Proof.
  intros Hnd Hp. unfold generateOutputEncodings.
  assert (Hk : merge_sort String.le (map fst order1) = merge_sort String.le (map fst order2)).
  { pose proof (Sorted_merge_sort String.le (map fst order1)) as S1.
    pose proof (Sorted_merge_sort String.le (map fst order2)) as S2.
    apply (Sorted_unique String.le); [exact S1|exact S2|].
    rewrite !merge_sort_Permutation. apply Permutation_map, Hp. }
  rewrite Hk, (fold_orders_ext (lookupOrder order1) (lookupOrder order2)).
  - reflexivity.
  - intros k. apply lookupOrder_perm; assumption.
Qed.

Lemma length_app_str x y : String.length (x ++ y) = String.length x + String.length y.
Proof. induction x as [|a x IH]; [reflexivity|]. rewrite app_String. simpl. rewrite IH. reflexivity. Qed.

Lemma substring_app x y : String.substring 0 (String.length x) (x ++ y) = x.
Proof.
  induction x as [|a x IH]; [destruct y; reflexivity|].
  rewrite app_String. simpl. rewrite IH. reflexivity.
Qed.

Lemma outputName_go stem : outputName (stem ++ ".go") = stem ++ "_encoding.go".
Proof.
  unfold outputName.
  assert (He : Ext (stem ++ ".go") = ".go").
  { unfold Ext. rewrite lchars_app. rewrite rev_app_distr. reflexivity. }
  rewrite He. unfold TrimSuffix.
  assert (Hs : HasSuffix (stem ++ ".go") ".go" = true).
  { unfold HasSuffix. rewrite lchars_app, rev_app_distr. apply String.prefix_correct.
    cbn. destruct (string_of_list_ascii (rev (lchars stem))); reflexivity. }
  rewrite Hs, length_app_str. simpl String.length.
  replace (String.length stem + 3 - 3) with (String.length stem) by lia.
  rewrite substring_app. reflexivity.
Qed.

Lemma encStep_keep excl objs order m outs :
  foldM (encStep excl objs) order m = Ok outs ->
  forall k, (forall p, In p order -> outputName (fst p) <> k) -> outs !! k = m !! k.
Proof.
  revert m. induction order as [|[f os] order IH]; intros m H k Hk.
  - cbn in H. injection H as <-. reflexivity.
  - rewrite foldM_cons in H. unfold encStep at 1 in H. simpl fst in H. simpl snd in H.
    destruct (printResult excl objs os) as [[res|]| | |]; cbn [obind] in H; try discriminate.
    + rewrite (IH _ H k). { apply lookup_insert_ne. apply (Hk (f, os)). simpl; auto. }
      intros p Hp. apply Hk. simpl; auto.
    + apply (IH _ H k). intros p Hp. apply Hk. simpl; auto.
Qed.

Lemma encStep_fold excl objs order m outs :
  foldM (encStep excl objs) order m = Ok outs ->
  NoDup (map (fun p => outputName (fst p)) order) ->
  (forall f os, In (f, os) order -> exists r, printResult excl objs os = Ok r /\
      outs !! outputName f = match r with Some res => Some res | None => m !! outputName f end) /\
  (forall k res, outs !! k = Some res -> m !! k = Some res \/ exists f os, In (f, os) order /\ k = outputName f).
Proof.
  revert m. induction order as [|[f0 os0] order IH]; intros m H Hnd.
  - cbn in H. injection H as <-. split; [intros ? ? []|]. intros k res Hk. left. exact Hk.
  - simpl in Hnd. apply NoDup_cons in Hnd as [Hn0 Hnd].
    rewrite foldM_cons in H. unfold encStep at 1 in H. simpl fst in H. simpl snd in H.
    destruct (printResult excl objs os0) as [r0| | |] eqn:Hr0; cbn [obind] in H; try discriminate.
    set (m1 := match r0 with Some res => <[outputName f0 := res]> m | None => m end) in H.
    assert (Hm1 : foldM (encStep excl objs) order m1 = Ok outs) by (destruct r0; exact H).
    destruct (IH m1 Hm1 Hnd) as [Hall Hnew].
    pose proof (encStep_keep excl objs order m1 outs Hm1) as Hkeep.
    split.
    + intros f os [Heq|Hin].
      * injection Heq as <- <-. exists r0. split; [exact Hr0|].
        rewrite Hkeep.
        -- unfold m1. destruct r0; [apply lookup_insert_eq|reflexivity].
        -- intros p Hp Heq. apply Hn0, list_elem_of_In, in_map_iff. eauto.
      * destruct (Hall f os Hin) as (r & Hr & Hl). exists r. split; [exact Hr|].
        rewrite Hl. destruct r; [reflexivity|]. unfold m1. destruct r0; [|reflexivity].
        apply lookup_insert_ne. intros Heq. apply Hn0, list_elem_of_In, in_map_iff.
        exists (f, os). simpl. auto.
    + intros k res Hk. destruct (Hnew k res Hk) as [Hk1|(f & os & Hin & ->)].
      * unfold m1 in Hk1. destruct r0 as [res0|]; [|left; exact Hk1].
        destruct (String.eqb_spec (outputName f0) k) as [<-|Hne].
        -- right. exists f0, os0. simpl. auto.
        -- left. rewrite lookup_insert_ne in Hk1 by exact Hne. exact Hk1.
      * right. exists f, os. simpl. auto.
Qed.

Lemma NoDup_map_on {A B C} (f : A -> B) (g : A -> C) l :
  NoDup (map f l) -> (forall x y, In x l -> In y l -> g x = g y -> f x = f y) -> NoDup (map g l).
Proof.
  induction l as [|x l IH]; intros Hnd Hinj; [constructor|].
  simpl in *. apply NoDup_cons in Hnd as [Hx Hnd]. apply NoDup_cons. split.
  - intros Hin. apply list_elem_of_In, in_map_iff in Hin as (y & Hy & Hyl).
    apply Hx, list_elem_of_In, in_map_iff. exists y. split; [|exact Hyl].
    symmetry. apply Hinj; auto.
  - apply IH; [exact Hnd|]. intros; apply Hinj; auto.
Qed.

(** X16: for input files named [stem.go], each file gets the output
    [stem_encoding.go] holding what [print] produced for its types (no output
    when it produced none), and there is no other output. *)
Theorem generateEncodings_outputs excl objs order outs :
  NoDup (map fst order) ->
  (forall f, In f (map fst order) -> exists stem, f = stem ++ ".go") ->
  generateEncodings excl objs order = Ok outs ->
  (forall f os, In (f, os) order ->
     exists r, printResult excl objs os = Ok r /\ outs !! outputName f = r) /\
  (forall k res, outs !! k = Some res -> exists f os, In (f, os) order /\ k = outputName f).
Proof.
  intros Hnd Hgo H.
  assert (Hnd' : NoDup (map (fun p => outputName (fst p)) order)).
  { apply (NoDup_map_on fst); [exact Hnd|]. intros [f1 os1] [f2 os2] H1 H2. simpl.
    destruct (Hgo f1) as [s1 ->]; [apply in_map_iff; exists (f1, os1); auto|].
    destruct (Hgo f2) as [s2 ->]; [apply in_map_iff; exists (f2, os2); auto|].
    rewrite !outputName_go. intros Heq. apply app_tail_inj in Heq. congruence. }
  change (foldM (encStep excl objs) order ∅ = Ok outs) in H.
  destruct (encStep_fold excl objs order ∅ outs H Hnd') as [Hall Hnew]. split.
  - intros f os Hin. destruct (Hall f os Hin) as (r & Hr & Hl). exists r. split; [exact Hr|].
    rewrite Hl. destruct r; reflexivity.
  - intros k res Hk. destruct (Hnew k res Hk) as [Hk0|Hex]; [|exact Hex].
    rewrite lookup_empty in Hk0. discriminate.
Qed.

Lemma selfNamed_empty : selfNamed ∅.
Proof. intros k x Hx. rewrite lookup_empty in Hx. discriminate. Qed.

Lemma encodeItem_registry_grows_witness :
  exists v objs', encodeItem sampleDims 10 [bazRaw; barRaw] ∅ "Baz" "" = Ok (v, objs') /\
                  objs' !! "Baz" = Some v.
Proof.
  assert (H : exists p, encodeItem sampleDims 10 [bazRaw; barRaw] ∅ "Baz" "" = Ok p)
    by (eexists; reflexivity).
  destruct H as [[v objs'] H]. exists v, objs'. split; [exact H|].
  exact (proj2 (proj2 (encodeItem_registry_grows _ _ _ _ _ _ _ _ H))).
Defined.

Lemma encodeItem_self_named_witness :
  exists v objs', encodeItem sampleDims 10 [bazRaw; barRaw] ∅ "Baz" "" = Ok (v, objs') /\
                  selfNamed objs' /\ name v = "Baz".
Proof.
  assert (H : exists p, encodeItem sampleDims 10 [bazRaw; barRaw] ∅ "Baz" "" = Ok p)
    by (eexists; reflexivity).
  destruct H as [[v objs'] H]. exists v, objs'. split; [exact H|].
  destruct (encodeItem_self_named _ _ _ _ _ _ _ _ selfNamed_empty H) as (Hs & Hn & _). auto.
Defined.

Lemma parseASTFieldType_objRef_witness :
  exists v objs',
    parseASTFieldType sampleDims 10 [barRaw] ∅ "F" "" (StarExpr (SelectorExpr (Ident "q") "Bar"))
      = Ok (Some v, objs') /\ objRef v = "q.Bar".
Proof.
  assert (H : exists r, parseASTFieldType sampleDims 10 [barRaw] ∅ "F" ""
                          (StarExpr (SelectorExpr (Ident "q") "Bar")) = Ok r)
    by (eexists; reflexivity).
  destruct H as [r H]. pose proof H as E. vm_compute in E. injection E as E. subst r.
  eexists. eexists. split; [exact H|].
  exact (proj1 (parseASTFieldType_objRef sampleDims 10 [barRaw] ∅ _ "F" "" "q" "Bar" true _
                  selfNamed_empty ltac:(discriminate) ltac:(discriminate) H)).
Defined.

Lemma generateIR_registry_witness :
  exists env, generateIR sampleDims 20 [("a.go", pkgAFile)] [("b.go", pkgBFile)] [] = Ok env /\
              selfNamed (envObjs env).
Proof.
  assert (H : exists env, generateIR sampleDims 20 [("a.go", pkgAFile)] [("b.go", pkgBFile)] [] = Ok env)
    by (eexists; reflexivity).
  destruct H as [env H]. exists env. split; [exact H|].
  exact (proj1 (generateIR_registry _ _ _ _ _ _ H)).
Defined.

Lemma generateIR_uintVToName_witness :
  exists env x u, generateIR sampleDims 20 [("a.go", pkgAFile)] [("b.go", pkgBFile)] [] = Ok env /\
    envObjs env !! "Foo" = Some x /\ In u (nodes x) /\ t u = TypeUint /\
    exists nm, uintVToName u = Ok nm.
Proof.
  assert (H : exists env, generateIR sampleDims 20 [("a.go", pkgAFile)] [("b.go", pkgBFile)] [] = Ok env)
    by (eexists; reflexivity).
  destruct H as [env H]. pose proof H as E. vm_compute in E. injection E as E.
  assert (Hx : exists x, envObjs env !! "Foo" = Some x) by (rewrite <- E; eexists; reflexivity).
  destruct Hx as [x Hx]. pose proof Hx as Ex. rewrite <- E in Ex. vm_compute in Ex.
  injection Ex as Ex.
  assert (Hu : In (set_name (basicValue TypeUint 8) "A") (nodes x))
    by (rewrite <- Ex; cbn; right; left; reflexivity).
  exists env, x, (set_name (basicValue TypeUint 8) "A").
  split; [exact H|]. split; [exact Hx|]. split; [exact Hu|]. split; [reflexivity|].
  exact (generateIR_uintVToName _ _ _ _ _ _ H _ _ _ Hx Hu eq_refl).
Defined.

Lemma generateIR_imports_witness :
  exists env, generateIR sampleDims 20 [("a.go", pkgAFile)] [("b.go", pkgBFile)] [] = Ok env /\
              NoDup (map path (envImports env)) /\
              In (mkAstImport "" "example.com/b") (envImports env).
Proof.
  assert (H : exists env, generateIR sampleDims 20 [("a.go", pkgAFile)] [("b.go", pkgBFile)] [] = Ok env)
    by (eexists; reflexivity).
  destruct H as [env H]. exists env. split; [exact H|].
  destruct (generateIR_imports _ _ _ _ _ _ H) as [Hnd Hin]. split; [exact Hnd|].
  apply Hin. vm_compute. left. reflexivity.
Defined.

Lemma generateIR_import_alias_conflict_witness :
  In (mkAstImport "" "example.com/b") (sourceImports [("a.go", pkgAFile); ("c.go", aliasFile)]) /\
  In (mkAstImport "bb" "example.com/b") (sourceImports [("a.go", pkgAFile); ("c.go", aliasFile)]) /\
  exists msg, generateIR sampleDims 20 [("a.go", pkgAFile); ("c.go", aliasFile)] [] [] = Err msg.
Proof.
  assert (H1 : In (mkAstImport "" "example.com/b") (sourceImports [("a.go", pkgAFile); ("c.go", aliasFile)]))
    by (vm_compute; left; reflexivity).
  assert (H2 : In (mkAstImport "bb" "example.com/b") (sourceImports [("a.go", pkgAFile); ("c.go", aliasFile)]))
    by (vm_compute; right; left; reflexivity).
  split; [exact H1|]. split; [exact H2|].
  exact (generateIR_import_alias_conflict sampleDims 20 _ [] [] _ _ H1 H2 eq_refl ltac:(discriminate)).
Defined.

Lemma generateIR_blank_objs_witness :
  exists env, "  " <> "" /\ trimSpaces "  " = "" /\
    generateIR sampleDims 20 [("a.go", pkgAFile)] [("b.go", pkgBFile)] (decodeList trimSpaces "  ") = Ok env /\
    envObjs env = ∅.
Proof.
  assert (Hne : "  " <> "") by discriminate.
  assert (Hts : trimSpaces "  " = "") by reflexivity.
  assert (H : exists env, generateIR sampleDims 20 [("a.go", pkgAFile)] [("b.go", pkgBFile)]
                            (decodeList trimSpaces "  ") = Ok env) by (eexists; reflexivity).
  destruct H as [env H]. pose proof H as E. vm_compute in E. injection E as E.
  assert (Hn : forall it, In it (envRaw env) -> Raw.name it <> "").
  { rewrite <- E. intros it Hit. cbn in Hit. destruct Hit as [<-|[<-|[<-|[]]]]; discriminate. }
  exists env. split; [exact Hne|]. split; [exact Hts|]. split; [exact H|].
  exact (generateIR_blank_objs _ _ _ _ _ _ _ Hne Hts H Hn).
Defined.

Lemma getTags_structTag_witness :
  forallb (fun kv => plainTagText (fst kv) && plainTagText (snd kv)) [("json", "a"); ("ssz-size", "4")] = true /\
  getTags (structTag [("json", "a"); ("ssz-size", "4")]) "ssz-size" = Some "4".
Proof.
  assert (Hp : forallb (fun kv => plainTagText (fst kv) && plainTagText (snd kv))
                 [("json", "a"); ("ssz-size", "4")] = true) by reflexivity.
  split; [exact Hp|]. rewrite (getTags_structTag _ "ssz-size" Hp). reflexivity.
Defined.

Lemma getTags_stops_at_malformed_witness :
  getTags (String bq (Join (map tagItem [("json", "a")] ++ "" :: [tagItem ("ssz-size", "4")])%list space
                      ++ String bq "")) "ssz-size" = None.
Proof.
  exact (getTags_stops_at_malformed [("json", "a")] "" [tagItem ("ssz-size", "4")] "ssz-size"
           eq_refl eq_refl eq_refl eq_refl eq_refl).
Defined.

Lemma getTagsInt_pretty_witness :
  plainTagText "ssz-size" = true /\
  getTagsInt (tagOf "ssz-size" (pretty (-5)%Z)) "ssz-size" = (2 ^ 64 - 5, true)%Z.
Proof.
  split; [reflexivity|]. rewrite (getTagsInt_pretty "ssz-size" (-5)%Z eq_refl). reflexivity.
Defined.

Lemma decodeList_split_witness :
  " Foo, Bar " <> "" /\
  Join (decodeList trimSpaces " Foo, Bar ") ","%char = "Foo, Bar" /\
  length (decodeList trimSpaces " Foo, Bar ") = 2.
Proof.
  assert (Hne : " Foo, Bar " <> "") by discriminate.
  destruct (decodeList_split trimSpaces " Foo, Bar " Hne) as (Hj & _ & Hl).
  split; [exact Hne|]. split; [exact Hj|]. rewrite Hl. reflexivity.
Defined.

Lemma print_imports_witness :
  exists env out imps,
    generateIR sampleDims 20 [("a.go", pkgAFile)] [("b.go", pkgBFile)] [] = Ok env /\
    print ∅ (envObjs env) ["Foo"; "Bar"] = Ok (out, imps) /\ NoDup imps /\ ~ In "" imps.
Proof.
  assert (H : exists env, generateIR sampleDims 20 [("a.go", pkgAFile)] [("b.go", pkgBFile)] [] = Ok env)
    by (eexists; reflexivity).
  destruct H as [env H]. pose proof H as E. vm_compute in E. injection E as E.
  assert (Hp : exists r, print ∅ (envObjs env) ["Foo"; "Bar"] = Ok r) by (rewrite <- E; eexists; reflexivity).
  destruct Hp as [[out imps] Hp]. exists env, out, imps.
  split; [exact H|]. split; [exact Hp|].
  destruct (print_imports _ _ _ _ _ Hp) as (Hnd & Hne & _). auto.
Defined.

Lemma print_buildImports_witness :
  exists env out imps,
    generateIR sampleDims 20 [("a.go", pkgAFile)] [("b.go", pkgBFile)] [] = Ok env /\
    print ∅ (envObjs env) ["Foo"; "Bar"] = Ok (out, imps) /\
    Forall (fun i => Contains (alias i) dq = false) (envImports env) /\
    NoDup (buildImports (envImports env) imps).
Proof.
  assert (H : exists env, generateIR sampleDims 20 [("a.go", pkgAFile)] [("b.go", pkgBFile)] [] = Ok env)
    by (eexists; reflexivity).
  destruct H as [env H]. pose proof H as E. vm_compute in E. injection E as E.
  assert (Hp : exists r, print ∅ (envObjs env) ["Foo"; "Bar"] = Ok r) by (rewrite <- E; eexists; reflexivity).
  destruct Hp as [[out imps] Hp].
  assert (HE : Forall (fun i => Contains (alias i) dq = false) (envImports env))
    by (rewrite <- E; repeat constructor).
  exists env, out, imps. split; [exact H|]. split; [exact Hp|]. split; [exact HE|].
  exact (proj1 (print_buildImports _ _ _ _ _ _ Hp HE)).
Defined.

Lemma generateOutputEncodings_order_independent_witness :
  NoDup (map fst sampleOrder) /\ Permutation sampleOrder (rev sampleOrder) /\
  generateOutputEncodings ∅ fooRegistry sampleOrder "out.go" =
  generateOutputEncodings ∅ fooRegistry (rev sampleOrder) "out.go".
Proof.
  assert (Hnd : NoDup (map fst sampleOrder)).
  { apply NoDup_cons. split; [|apply NoDup_singleton]. intros Hin.
    apply list_elem_of_singleton in Hin. discriminate. }
  assert (Hp : Permutation sampleOrder (rev sampleOrder)) by apply Permutation_rev.
  split; [exact Hnd|]. split; [exact Hp|].
  exact (generateOutputEncodings_order_independent _ _ _ _ _ Hnd Hp).
Defined.

Lemma generateEncodings_outputs_witness :
  exists outs, NoDup (map fst sampleOrder) /\
    (forall f, In f (map fst sampleOrder) -> exists stem, f = stem ++ ".go") /\
    generateEncodings ∅ fooRegistry sampleOrder = Ok outs /\
    exists r, printResult ∅ fooRegistry ["Foo"] = Ok r /\ outs !! "a_encoding.go" = r.
Proof.
  assert (Hnd : NoDup (map fst sampleOrder)).
  { apply NoDup_cons. split; [|apply NoDup_singleton]. intros Hin.
    apply list_elem_of_singleton in Hin. discriminate. }
  assert (Hgo : forall f, In f (map fst sampleOrder) -> exists stem, f = stem ++ ".go").
  { intros f Hf. destruct Hf as [<-|[<-|[]]]; [exists "a"|exists "b"]; reflexivity. }
  assert (H : exists outs, generateEncodings ∅ fooRegistry sampleOrder = Ok outs) by (eexists; reflexivity).
  destruct H as [outs H]. exists outs. split; [exact Hnd|]. split; [exact Hgo|]. split; [exact H|].
  exact (proj1 (generateEncodings_outputs _ _ _ _ Hnd Hgo H) "a.go" ["Foo"] ltac:(left; reflexivity)).
Defined.
